(** * SelfAssessment: the assessment engine, embedded and verified

    A shallow embedding of the scoring, result calculation, validation-code
    and journal code of the SelfAssessment repository:

    - [backend/app/core/course/testmodels] : the two [SpeedTest] scorers
      and their [maxScore],
    - [backend/app/core/user/result.controller.js] : [calculate],
      [generateValidationCode], [load], [lock], [update],
    - the course model kept in the same source file : [validateConfig],
    - [SelfAssessment/src/app/shared/services/local-storage.service.ts] :
      [prepareJournalLogForSaving], [prepareJournalStructureForSaving],
      [extractSavedJournalLog], [createJournalStructure].

    Conventions of the embedding.
    - JavaScript numbers are integers ([Z]); strings are sequences of
      one-byte code units ([string]).
    - A function that can throw, loop forever or draw random numbers returns
      an [outcome].
    - [Math.random] is an explicit list of draws that the code consumes from
      the front; a loop that is still running when the draws (or the fuel of
      a scan) are used up yields [Loops].
    - The database is a value handed in and out; a fault schedule says which
      of its calls are rejected.
    - A library call whose answer the code only tests is a parameter of
      the embedded function: the compiled JSON schema, the regular
      expression engine behind [search], the conversion in
      [number % modulo]. *)

From stdpp Require Import gmap strings list sorting.
From Stdlib Require Import ZArith Ascii DecimalString DecimalZ.

Local Open Scope string_scope.
Local Open Scope Z_scope.

(** ** Outcomes of running a piece of JavaScript *)

Inductive outcome (A : Type) : Type :=
| Ret (a : A)   (* the code returns [a] *)
| Throws        (* an exception escapes *)
| Loops         (* still looping when fuel or random draws ran out *)
| Unmodelled.   (* the input leaves the fragment of JavaScript modelled here *)
Arguments Ret {A} a.
Arguments Throws {A}.
Arguments Loops {A}.
Arguments Unmodelled {A}.

Definition obind {A B} (m : outcome A) (k : A -> outcome B) : outcome B :=
  match m with
  | Ret a => k a
  | Throws => Throws
  | Loops => Loops
  | Unmodelled => Unmodelled
  end.

#[global] Instance outcome_ret : MRet outcome := @Ret.
#[global] Instance outcome_bind : MBind outcome := fun A B k m => obind m k.

Definition returns {A} (m : outcome A) : bool :=
  match m with Ret _ => true | _ => false end.

(** ** JavaScript values found in journal logs *)

Set Warnings "-register-all,-clear-no-such-hyp".

Inductive jsval : Type :=
| JUndefined
| JNull
| JBool (b : bool)
| JNum (n : Z)
| JStr (s : string)
| JArr (l : list jsval).

(** [Array.isArray(v)] *)
Definition isArray (v : jsval) : bool :=
  match v with JArr _ => true | _ => false end.

(** [v[i]] on an array value; anything out of range is [undefined] *)
Definition js_elem (v : jsval) (i : nat) : jsval :=
  match v with
  | JArr l => default JUndefined (l !! i)
  | _ => JUndefined
  end.

(** ** Strings *)

Module Str.

(** [s.indexOf(pat)], with [-1] for "not found" *)
Definition indexOf (s pat : string) : Z :=
  match String.index 0 pat s with
  | Some i => Z.of_nat i
  | None => -1
  end.

(** [s.includes(pat)] *)
Definition includes (s pat : string) : bool :=
  match String.index 0 pat s with
  | Some _ => true
  | None => false
  end.

(** [s.slice(n)] for [0 <= n] *)
Definition slice (s : string) (n : nat) : string :=
  String.substring n (String.length s - n) s.

Definition clamp (len : nat) (z : Z) : nat :=
  if z <? 0 then 0%nat else Nat.min (Z.to_nat z) len.

(** [s.substring(a, b)]: both ends are clamped to [0 .. length] and
    swapped when [a > b]. *)
Definition substring (s : string) (a b : Z) : string :=
  let a' := clamp (String.length s) a in
  let b' := clamp (String.length s) b in
  String.substring (Nat.min a' b') (Nat.max a' b' - Nat.min a' b') s.

(** [s.substr(start, count)] for [0 <= start] *)
Definition substr (s : string) (start count : nat) : string :=
  String.substring start (Nat.min count (String.length s - start)) s.

(** [s.replace(pat, () => by)]: the first occurrence of the string [pat]
    is replaced; the callback form takes [by] literally. *)
Definition replace (s pat by_ : string) : string :=
  match String.index 0 pat s with
  | Some i =>
      String.substring 0 i s +:+ by_ +:+ slice s (i + String.length pat)
  | None => s
  end.

Definition is_digit (c : ascii) : bool :=
  let n := nat_of_ascii c in (48 <=? n)%nat && (n <=? 57)%nat.

Definition digit_val (c : ascii) : Z := Z.of_nat (nat_of_ascii c) - 48.

(** White space skipped by [parseInt] and trimmed by [Number(...)]
    (the one-byte ones: tab, LF, VT, FF, CR, space). *)
Definition is_space (c : ascii) : bool :=
  let n := nat_of_ascii c in
  ((9 <=? n)%nat && (n <=? 13)%nat) || (n =? 32)%nat.

Fixpoint skip_spaces (s : string) : string :=
  match s with
  | String c r => if is_space c then skip_spaces r else s
  | EmptyString => s
  end.

(** value of the longest prefix of decimal digits, given the value [acc]
    of the digits read so far; [seen] records whether a digit was read *)
Fixpoint digits_prefix (s : string) (seen : bool) (acc : Z) : option Z :=
  match s with
  | String c r =>
      if is_digit c then digits_prefix r true (10 * acc + digit_val c)
      else if seen then Some acc else None
  | EmptyString => if seen then Some acc else None
  end.

(** [parseInt(s, 10)]; [None] is [NaN] *)
Definition parseInt (s : string) : option Z :=
  match skip_spaces s with
  | String "-"%char r => Z.opp <$> digits_prefix r false 0
  | String "+"%char r => digits_prefix r false 0
  | r => digits_prefix r false 0
  end.

(** Characters with a special meaning in a regular expression. *)
Definition is_regex_meta (c : ascii) : bool :=
  bool_decide (c ∈ String.list_ascii_of_string "\^$.|?*+()[]{}").

Fixpoint all_chars (p : ascii -> bool) (s : string) : bool :=
  match s with
  | String c r => p c && all_chars p r
  | EmptyString => true
  end.

(** [s.search(pat)]: [pat] is compiled to a regular expression.  A
    pattern free of metacharacters matches exactly itself, so the result
    is the first index of [pat] in [s] (or [-1]).  Other patterns are not
    modelled: [None]. *)
Definition search (s pat : string) : option Z :=
  if all_chars (fun c => negb (is_regex_meta c)) pat
  then Some (indexOf s pat) else None.

(** [String(n)] for an integer [n] *)
Definition of_Z (n : Z) : string := NilZero.string_of_int (Z.to_int n).

(** [Number(s)] as the [%] operator applies it to its right operand: a
    string of decimal digits is its value; other strings are not
    modelled ([None]). *)
Definition toNumber (s : string) : option Z :=
  if all_chars is_digit s then digits_prefix s false 0 else None.

Definition lower (c : ascii) : ascii :=
  let n := nat_of_ascii c in
  if (65 <=? n)%nat && (n <=? 90)%nat then ascii_of_nat (n + 32) else c.

(** [s.toLowerCase()] on one-byte characters *)
Fixpoint toLowerCase (s : string) : string :=
  match s with
  | String c r => String (lower c) (toLowerCase r)
  | EmptyString => EmptyString
  end.

End Str.

(** ** Speed tests

    Both scorers read the same configuration: every option of a speed test
    carries its [text], the string [correct] to be marked in it and (schema
    of the occurrence variant) the [index] of the occurrence that counts,
    kept as a string. *)

Record SpeedOption : Type := {
  text : string;
  correct : string;
  index : string;
}.

(** What every [calculateResult] returns. *)
Record Result : Type := {
  score : Z;
  correct_idx : list nat;   (* field [correct] *)
  wrong_idx : list nat;     (* field [wrong] *)
}.

Definition empty_result : Result :=
  {| score := 0; correct_idx := []; wrong_idx := [] |}.

(** [result.correct.push(i); result.score++] *)
Definition award (i : nat) (r : Result) : Result :=
  {| score := score r + 1;
     correct_idx := correct_idx r ++ [i];
     wrong_idx := wrong_idx r |}.

(** [result.wrong.push(i)] *)
Definition penalise (i : nat) (r : Result) : Result :=
  {| score := score r;
     correct_idx := correct_idx r;
     wrong_idx := wrong_idx r ++ [i] |}.

(** *** The substring-inclusion scorer (log entries are the marked strings) *)

Module SpeedIncl.

Definition step (i : nat) (o : SpeedOption) (v : jsval) (r : Result) : Result :=
  match v with
  | JStr s =>
      if Str.includes s (correct o) then award i r
      else if (0 <? String.length s)%nat then penalise i r
      else r
  | _ => r   (* typeof log[i] !== 'string': continue *)
  end.

(** the [for] loop from position [i]; reading [testOptions[i]['correct']]
    past the end of the options throws *)
Fixpoint loop (opts : list SpeedOption) (i : nat) (log : list jsval)
    (r : Result) : outcome Result :=
  match log with
  | [] => Ret r
  | v :: log' =>
      match opts !! i with
      | None => Throws
      | Some o => loop opts (S i) log' (step i o v r)
      end
  end.

(** [config] is [None] while no configuration is loaded. *)
Definition calculateResult (config : option (list SpeedOption))
    (log : list jsval) : outcome Result :=
  match config with
  | None => Throws   (* 'missing test config' *)
  | Some opts => loop opts 0 log empty_result
  end.

End SpeedIncl.

(** *** The occurrence scorer (log entries are [[start, end]] spans) *)

Module SpeedOcc.

Record occurence : Type := { start : Z; end_ : Z }.

(** The [while (index !== -1)] scan.  Every round searches what is left
    of the text and cuts it behind the match, so the recorded offsets are
    relative to the remaining text.  [fuel] bounds the number of rounds. *)
Fixpoint find_occurences (fuel : nat) (searchString correctOption : string)
    (occurences : list occurence) : outcome (list occurence) :=
  match fuel with
  | O => Loops
  | S fuel' =>
      match Str.search searchString correctOption with
      | None => Unmodelled
      | Some index =>
          if index =? -1 then Ret occurences
          else
            let len := Z.of_nat (String.length correctOption) in
            find_occurences fuel'
              (Str.slice searchString (Z.to_nat (index + len)))
              correctOption
              (occurences ++ [{| start := index; end_ := index + len |}])
      end
  end.

(** the inner [for] loop: the last occurrence inside the user's span *)
Fixpoint select_from (i : Z) (userStart userEnd : Z)
    (occurences : list occurence) (selected : Z) : Z :=
  match occurences with
  | [] => selected
  | o :: rest =>
      select_from (i + 1) userStart userEnd rest
        (if (userStart <=? start o) && (userEnd >=? end_ o)
         then i else selected)
  end.

Definition selectedOccurence (userStart userEnd : Z)
    (occurences : list occurence) : Z :=
  select_from 0 userStart userEnd occurences (-1).

Definition step (i : nat) (o : SpeedOption) (v : jsval) (r : Result)
    : outcome Result :=
  let correctOption := correct o in
  let correctOptionIndex := Str.parseInt (index o) in
  if negb (isArray v) then Ret r
  else match correctOptionIndex with
  | None => Ret r   (* isNaN *)
  | Some correctOptionIndex =>
      match js_elem v 0, js_elem v 1 with
      | JNum userSelectionStart, JNum userSelectionEnd =>
          if (userSelectionStart =? -1) || (userSelectionEnd =? -1)
          then Ret r
          else
            let selectedText :=
              Str.substring (text o) userSelectionStart userSelectionEnd in
            occurences ←
              find_occurences (S (String.length (text o))) (text o)
                correctOption [];
            let selected :=
              selectedOccurence userSelectionStart userSelectionEnd
                occurences in
            if Str.includes selectedText correctOption
               && (selected =? correctOptionIndex)
            then Ret (award i r)
            else Ret (penalise i r)
      | _, _ => Ret r   (* a member is not a number *)
      end
  end.

Fixpoint loop (opts : list SpeedOption) (i : nat) (log : list jsval)
    (r : Result) : outcome Result :=
  match log with
  | [] => Ret r
  | v :: log' =>
      match opts !! i with
      | None => Throws
      | Some o => r' ← step i o v r; loop opts (S i) log' r'
      end
  end.

Definition calculateResult (config : list SpeedOption)
    (log : list jsval) : outcome Result :=
  loop config 0 log empty_result.

End SpeedOcc.

(** ** Course configuration and journal

    The configuration document, as far as the modelled functions read it,
    and the journal that the backend stores per user. *)

Record TestOption : Type := {
  o_text : string;
  o_correct : option jsval;   (* [None]: the option has no 'correct' *)
  o_index : option jsval;
}.

Record SingleTest : Type := {
  id : Z;
  category : string;
  evaluated : bool;
  options : list TestOption;
}.

Record TestGroup : Type := {
  group_id : Z;
  group_tests : list Z;
  select : option Z;          (* [None]: no 'select' attribute *)
}.

Record RawSet : Type := {
  rawset_id : Z;
  elements : list Z;
  scoreIndependent : string;
  scoreDependent : list (Z * string);
}.

Record Infopage : Type := {
  page_id : Z;
  page_text : string;
  belongs : list Z;
}.

Record CourseConfig : Type := {
  validationSchema : string;
  tests : list SingleTest;
  testgroups : list TestGroup;
  sets : list RawSet;
  infopages : list Infopage;
}.

(** one [{key, val}] pair of the stored journal log *)
Record LogPair : Type := { key : Z; val : list jsval }.
Record LogSet : Type := { maps : list LogPair }.
Record SavedLog : Type := { log_sets : list LogSet }.

(** the minimal journal structure: per set, the ids of its tests *)
Record TestSetMinimal : Type := { set : Z; min_tests : list Z }.
Record JournalStructureMinimal : Type := {
  course : string;
  language : string;
  min_sets : list TestSetMinimal;
}.

Record Journal : Type := {
  log : SavedLog;
  structure : JournalStructureMinimal;
}.

(** ** JavaScript objects used as dictionaries

    [testsData] in [calculate] is a plain object keyed by test ids.  The
    model keeps the properties in creation order; [for ... in] visits the
    keys that are array indices (the integers [0 .. 2^32 - 2]) first, in
    ascending order, then the other keys in creation order. *)

Module Obj.
Section Obj.
Context {V : Type}.

(** [o[k] = v] *)
Fixpoint set (k : Z) (v : V) (o : list (Z * V)) : list (Z * V) :=
  match o with
  | [] => [(k, v)]
  | (k', v') :: o' =>
      if bool_decide (k' = k) then (k, v) :: o' else (k', v') :: set k v o'
  end.

Definition is_array_index (k : Z) : bool := (0 <=? k) && (k <? 2 ^ 32 - 1).

Definition key_le (a b : Z * V) : Prop := a.1 <= b.1.

#[global] Instance key_le_dec a b : Decision (key_le a b).
Proof. unfold key_le. apply _. Defined.

(** the order in which [for (const key in o)] visits the properties *)
Definition for_in (o : list (Z * V)) : list (Z * V) :=
  merge_sort key_le (filter (fun p => is_array_index p.1 = true) o)
  ++ filter (fun p => is_array_index p.1 = false) o.

End Obj.
End Obj.

(** ** [result.controller.js]: [calculate] *)

(** one element of the array that [calculate] returns; [res_id] is the
    property key of [testsData], hence a string *)
Record TestResult : Type := {
  res_id : string;
  res_score : Z;
  maxScore : Z;
  correctOptions : list nat;
  wrongOptions : list nat;
}.

(** What [calculate] uses of a test instance made by the factory. *)
Record TestInstance : Type := {
  inst_maxScore : outcome Z;
  inst_calculateResult : list jsval -> outcome Result;
}.

Record TestData : Type := { td_config : SingleTest; td_log : list jsval }.

(** the first test of [config.tests] with the given id *)
Definition find_config (config : CourseConfig) (singleTestID : Z)
    : option SingleTest :=
  List.find (fun test => bool_decide (id test = singleTestID)) (tests config).

(** The two nested loops over [journal.log.sets]: in every set the first
    pair with the key assigns [testLog] (the [break] leaves the inner loop
    only), so the last set that has the key decides. *)
Definition find_log (journal : Journal) (singleTestID : Z)
    : option (list jsval) :=
  fold_left
    (fun testLog s =>
       match List.find (fun m => bool_decide (key m = singleTestID)) (maps s) with
       | Some m => Some (val m)
       | None => testLog
       end)
    (log_sets (log journal)) None.

Section Calculate.

(** [courseTestModels.Factory.create(category, config)] is not part of
    the sources at hand: it is a parameter.  It yields [None] for [null]. *)
Variable Factory_create : string -> SingleTest -> outcome (option TestInstance).

(** the inner loop of the gathering phase; [None] is [return null] *)
Fixpoint gather_tests (config : CourseConfig) (journal : Journal)
    (ids : list Z) (testsData : list (Z * TestData))
    : option (list (Z * TestData)) :=
  match ids with
  | [] => Some testsData
  | singleTestID :: ids' =>
      match find_config config singleTestID with
      | None => None
      | Some testConfig =>
          if negb (evaluated testConfig)
          then gather_tests config journal ids' testsData
          else match find_log journal singleTestID with
               | None => None
               | Some testLog =>
                   gather_tests config journal ids'
                     (Obj.set singleTestID
                        {| td_config := testConfig; td_log := testLog |}
                        testsData)
               end
      end
  end.

Fixpoint gather_sets (config : CourseConfig) (journal : Journal)
    (ss : list TestSetMinimal) (testsData : list (Z * TestData))
    : option (list (Z * TestData)) :=
  match ss with
  | [] => Some testsData
  | s :: ss' =>
      match gather_tests config journal (min_tests s) testsData with
      | None => None
      | Some testsData' => gather_sets config journal ss' testsData'
      end
  end.

(** the scoring phase, over the keys in [for ... in] order *)
Fixpoint score_tests (entries : list (Z * TestData))
    (results : list TestResult) : outcome (list TestResult) :=
  match entries with
  | [] => Ret results
  | (k, test) :: entries' =>
      testInstance ← Factory_create (category (td_config test)) (td_config test);
      match testInstance with
      | None => score_tests entries' results
      | Some testInstance =>
          m ← inst_maxScore testInstance;
          testResult ← inst_calculateResult testInstance (td_log test);
          score_tests entries'
            (results ++ [{| res_id := Str.of_Z k;
                            res_score := score testResult;
                            maxScore := m;
                            correctOptions := correct_idx testResult;
                            wrongOptions := wrong_idx testResult |}])
      end
  end.

(** [calculate(config, journal)]; [Ret None] is the result [null] *)
Definition calculate (config : CourseConfig) (journal : Journal)
    : outcome (option (list TestResult)) :=
  match gather_sets config journal (min_sets (structure journal)) [] with
  | None => Ret None
  | Some testsData =>
      results ← score_tests (Obj.for_in testsData) [];
      Ret (Some results)
  end.

End Calculate.

(** ** Randomness

    The state of [Math.random] is the list of the draws still to come.  A
    draw is a natural number [d]; [Math.floor(Math.random() * n)] is
    [d mod n] (and [0] when [n] is [0]), so every index below [n] can come
    out.  With no draw left the caller is still waiting for one. *)

Definition Rand : Type := list nat.

(** the index that the draw [d] gives among [n] *)
Definition random_index (n d : nat) : nat :=
  if (n =? 0)%nat then 0%nat else (d mod n)%nat.

Definition floor_random (n : nat) (rnd : Rand) : outcome (nat * Rand) :=
  match rnd with
  | [] => Loops
  | d :: rnd' => Ret (random_index n d, rnd')
  end.

(** ** [result.controller.js]: [generateValidationCode] *)

Definition alphabet : string := "ABCDEFGHIJKLMNOPQRSTUVWXYZ".

(** the body of the first [while]: the replacement for one token *)
Definition replacement (token : string) (rnd : Rand) : outcome (string * Rand) :=
  if bool_decide (token = "[0-9]") then
    '(d, rnd') ← floor_random 10 rnd;
    Ret (Str.of_Z (Z.of_nat d), rnd')
  else if bool_decide (token = "[A-Z]") then
    '(i, rnd') ← floor_random (String.length alphabet) rnd;
    Ret (Str.substring alphabet (Z.of_nat i) (Z.of_nat i + 1), rnd')
  else if bool_decide (token = "[a-z]") then
    '(i, rnd') ← floor_random (String.length alphabet) rnd;
    Ret (Str.toLowerCase
           (Str.substring alphabet (Z.of_nat i) (Z.of_nat i + 1)), rnd')
  else Ret ("", rnd).

(** [while (code.includes(token)) { ... code = code.replace(token, ...) }] *)
Fixpoint replace_token (fuel : nat) (token code : string) (rnd : Rand)
    : outcome (string * Rand) :=
  match fuel with
  | O => Loops
  | S fuel' =>
      if Str.includes code token then
        '(r, rnd') ← replacement token rnd;
        replace_token fuel' token (Str.replace code token r) rnd'
      else Ret (code, rnd)
  end.

(** [do { number = ... } while (number % modulo !== 0)]; the remainder by
    [0] is [NaN], which never equals [0]. *)
Fixpoint reroll (modulo : Z) (rnd : Rand) : outcome (Z * Rand) :=
  match rnd with
  | [] => Loops
  | d :: rnd' =>
      let number := Z.of_nat (d mod 10) in
      if negb (modulo =? 0) && (Z.rem number modulo =? 0)
      then Ret (number, rnd')
      else reroll modulo rnd'
  end.

(** the second [while], for one meta token; [tokenIndex] is the first
    position of the one-character token *)
Fixpoint handle_meta (fuel : nat) (token code : string) (rnd : Rand)
    : outcome (string * Rand) :=
  match fuel with
  | O => Loops
  | S fuel' =>
      if Str.includes code token then
        let tokenIndex := default 0%nat (String.index 0 token code) in
        if bool_decide (token = "%")
           && (Z.of_nat tokenIndex <? Z.of_nat (String.length code) - 1)
        then
          let modulo := Str.substr code (tokenIndex + 1) (tokenIndex + 2) in
          match Str.toNumber modulo with
          | None => Unmodelled
          | Some m =>
              '(number, rnd') ← reroll m rnd;
              handle_meta fuel' token
                (Str.replace code (token +:+ modulo) (Str.of_Z number)) rnd'
          end
        else if bool_decide (token = "(") then
          handle_meta fuel' token (Str.replace code token "") rnd
        else if bool_decide (token = ")") then
          handle_meta fuel' token (Str.replace code token "") rnd
        else handle_meta fuel' token code rnd
      else Ret (code, rnd)
  end.

Definition metaTokens : list string := ["%"; "("; ")"].
Definition replaceTokens : list string := ["[0-9]"; "[A-Z]"; "[a-z]"].

(** a [for (const token of tokens)] loop around one of the two [while]s;
    the fuel handed to the [while] exceeds the length of the code, which is
    more than its rounds can use up *)
Fixpoint for_tokens
    (body : nat -> string -> string -> Rand -> outcome (string * Rand))
    (tokens : list string) (code : string) (rnd : Rand)
    : outcome (string * Rand) :=
  match tokens with
  | [] => Ret (code, rnd)
  | token :: tokens' =>
      '(code', rnd') ← body (S (String.length code)) token code rnd;
      for_tokens body tokens' code' rnd'
  end.

(** [generateValidationCode(schema)], with the random state threaded *)
Definition generateValidationCode (schema : string) (rnd : Rand)
    : outcome (string * Rand) :=
  '(code, rnd') ← for_tokens replace_token replaceTokens schema rnd;
  for_tokens handle_meta metaTokens code rnd'.

(** ** The user and course collections

    [db.User] and [db.Course] are lists of documents; [findOne] yields the
    first match, [updateOne] changes the first match.  A database call can
    be rejected: the fault schedule [faults] tells, call by call, whether
    the next one is ([true]); calls beyond the schedule succeed. *)

Record UserResult : Type := {
  result_tests : list TestResult;
  validationCode : option string;   (* [None]: no such property *)
}.

Record User : Type := {
  pin : Z;
  journal : Journal;
  result : UserResult;
}.

Record LangConfig : Type := { lc_language : string; lc_config : CourseConfig }.
Record Course : Type := { name : string; configs : list LangConfig }.

Record Db : Type := { users : list User; courses : list Course }.

Inductive ServerError : Type := E_DBIO | E_DBQUERY.

Inductive Body : Type :=
| BError (e : ServerError)           (* [{ error: ... }] *)
| BCode (code : string)              (* a validation code *)
| BTests (ts : list TestResult)      (* [user.result.tests] *)
| BEmpty.                            (* [send()] *)

(** what the controller did with [res] and [next] *)
Record Response : Type := {
  status : Z;
  body : Body;
  next_called : bool;
}.

Definition respond (st : Z) (b : Body) : Response :=
  {| status := st; body := b; next_called := false |}.

(** the [catch] blocks: [res.status(500).json(...); next(err)] *)
Definition db_failure : Response :=
  {| status := 500; body := BError E_DBIO; next_called := true |}.

Definition next_fault (faults : list bool) : bool * list bool :=
  match faults with
  | [] => (false, [])
  | f :: faults' => (f, faults')
  end.

Definition findOne_user (db : Db) (bodyPin : Z) : option User :=
  List.find (fun u => bool_decide (pin u = bodyPin)) (users db).

Definition findOne_course (db : Db) (n : string) : option Course :=
  List.find (fun c => bool_decide (name c = n)) (courses db).

(** the first document with the pin is rewritten by [f] *)
Fixpoint update_first (bodyPin : Z) (f : User -> User) (us : list User)
    : list User :=
  match us with
  | [] => []
  | u :: us' =>
      if bool_decide (pin u = bodyPin) then f u :: us'
      else u :: update_first bodyPin f us'
  end.

Definition set_validationCode (code : string) (u : User) : User :=
  {| pin := pin u; journal := journal u;
     result := {| result_tests := result_tests (result u);
                  validationCode := Some code |} |}.

Definition set_tests (ts : list TestResult) (u : User) : User :=
  {| pin := pin u; journal := journal u;
     result := {| result_tests := ts;
                  validationCode := validationCode (result u) |} |}.

Definition updateOne (db : Db) (bodyPin : Z) (f : User -> User) : Db :=
  {| users := update_first bodyPin f (users db); courses := courses db |}.

(** truthiness of [user.result.validationCode]: present and not empty *)
Definition has_code (u : User) : bool :=
  match validationCode (result u) with
  | Some c => negb (bool_decide (c = ""))
  | None => false
  end.

(** [lock]: the config is the first one for the language ([break]) *)
Definition config_first (c : Course) (lang : string) : option CourseConfig :=
  lc_config <$> List.find (fun o => bool_decide (lc_language o = lang)) (configs c).

(** [update]: no [break], the last config for the language wins *)
Definition config_last (c : Course) (lang : string) : option CourseConfig :=
  fold_left
    (fun courseConfig o =>
       if bool_decide (lc_language o = lang) then Some (lc_config o)
       else courseConfig)
    (configs c) None.

(** ** [result.controller.js]: [lock]

    [bodyPin] is the pin of the request, parsed.  The result holds what was
    sent, the database and the random state after the call. *)

Definition lock (faults : list bool) (rnd : Rand) (db : Db) (bodyPin : Z)
    : outcome (Response * Db * Rand) :=
  let '(fault, faults) := next_fault faults in
  if fault then Ret (db_failure, db, rnd) else
  match findOne_user db bodyPin with
  | None => Ret (respond 404 (BError E_DBQUERY), db, rnd)
  | Some user =>
      let '(fault, faults) := next_fault faults in
      if fault then Ret (db_failure, db, rnd) else
      match findOne_course db (course (structure (journal user))) with
      | None => Ret (respond 404 (BError E_DBQUERY), db, rnd)
      | Some course_ =>
          match config_first course_ (language (structure (journal user))) with
          | None => Ret (respond 404 (BError E_DBQUERY), db, rnd)
          | Some courseConfig =>
              if has_code user then
                Ret (respond 200
                       (BCode (default "" (validationCode (result user)))),
                     db, rnd)
              else
                '(code, rnd') ←
                  generateValidationCode (validationSchema courseConfig) rnd;
                let '(fault, faults) := next_fault faults in
                if fault then Ret (db_failure, db, rnd')
                else Ret (respond 200 (BCode code),
                          updateOne db bodyPin (set_validationCode code),
                          rnd')
          end
      end
  end.

(** ** [result.controller.js]: [update] *)

Section Update.

Variable Factory_create : string -> SingleTest -> outcome (option TestInstance).

Definition update (faults : list bool) (db : Db) (bodyPin : Z)
    : outcome (Response * Db) :=
  let '(fault, faults) := next_fault faults in
  if fault then Ret (db_failure, db) else
  match findOne_user db bodyPin with
  | None => Ret (respond 404 (BError E_DBQUERY), db)
  | Some user =>
      if has_code user then
        Ret (respond 200 (BTests (result_tests (result user))), db)
      else
      let '(fault, faults) := next_fault faults in
      if fault then Ret (db_failure, db) else
      match findOne_course db (course (structure (journal user))) with
      | None => Ret (respond 404 (BError E_DBQUERY), db)
      | Some course_ =>
          match config_last course_ (language (structure (journal user))) with
          | None => Ret (respond 404 (BError E_DBQUERY), db)
          | Some courseConfig =>
              testResults ← calculate Factory_create courseConfig (journal user);
              match testResults with
              | None => Ret (respond 404 (BError E_DBQUERY), db)
              | Some testResults =>
                  let '(fault, faults) := next_fault faults in
                  if fault then Ret (db_failure, db)
                  else Ret (respond 200 BEmpty,
                            updateOne db bodyPin (set_tests testResults))
              end
          end
      end
  end.

End Update.

(** ** [local-storage.service.ts]: the journal log and its stored form

    A JavaScript [Map] keeps its entries in insertion order and has every
    key once; [set] on a key that is present replaces the value in place. *)

Module JsMap.
Section JsMap.
Context {V : Type}.

Definition t : Type := list (Z * V).

(** the invariant of a [Map]: no key occurs twice *)
Definition is_map (m : t) : Prop := NoDup m.*1.

Definition set (k : Z) (v : V) (m : t) : t := Obj.set k v m.

End JsMap.
Arguments t : clear implicits.
End JsMap.

(** [JournalLog]: one [Map<number, any[]>] per set *)
Record JournalLog : Type := { jl_sets : list (JsMap.t (list jsval)) }.

Definition prepareJournalLogForSaving (journalLog : JournalLog) : SavedLog :=
  {| log_sets :=
       map (fun element =>
              {| maps := map (fun '(k, v) => {| key := k; val := v |}) element |})
           (jl_sets journalLog) |}.

Definition extractSavedJournalLog (protoObj : SavedLog) : JournalLog :=
  {| jl_sets :=
       map (fun s =>
              fold_left (fun protoSet obj => JsMap.set (key obj) (val obj) protoSet)
                        (maps s) [])
           (log_sets protoObj) |}.

(** ** [local-storage.service.ts]: [createJournalStructure] *)

(** An element of a set.  The code writes [elementType] into the test and
    page objects of the course and reuses these objects as elements; here
    the constructor is the [elementType]. *)
Inductive SetElement : Type :=
| TEST (t : SingleTest)
| INFOPAGE (p : Infopage).

Record TestSet : Type := {
  testset_id : Z;
  testset_elements : list SetElement;
  scoreIndepentText : string;
  scoreDependentTexts : list (Z * string);
}.

Record JournalStructure : Type := { js_sets : list TestSet }.

(** [allSingleTests]: later tests replace earlier ones with the same id *)
Definition allSingleTests (course_ : CourseConfig) : gmap Z SingleTest :=
  fold_left (fun m rawTest => <[id rawTest := rawTest]> m) (tests course_) ∅.

(** [allInfopages]: the page shown before the element with a given id *)
Definition allInfopages (course_ : CourseConfig) : gmap Z Infopage :=
  fold_left
    (fun m page => fold_left (fun m belongsId => <[belongsId := page]> m)
                             (belongs page) m)
    (infopages course_) ∅.

(** [journalStrucRawTests]: the test ids of all sets of the minimal structure *)
Definition journalStrucRawTests (journalStrucMin : JournalStructureMinimal)
    : list Z :=
  concat (map min_tests (min_sets journalStrucMin)).

(** [while (indices.length < group.select)]: one draw per round; an index
    drawn before is dropped.  [temp] may receive [undefined] ([None]) when
    the id at the index has no test, or when the group is empty. *)
Fixpoint select_loop (all : gmap Z SingleTest) (group_select : Z)
    (gtests : list Z) (rnd : Rand) (indices : list nat)
    (temp : list (option SingleTest))
    : outcome (list (option SingleTest) * Rand) :=
  if negb (Z.of_nat (length indices) <? group_select) then Ret (temp, rnd)
  else match rnd with
  | [] => Loops
  | d :: rnd' =>
      let index := random_index (length gtests) d in
      if bool_decide (index ∈ indices)
      then select_loop all group_select gtests rnd' indices temp
      else select_loop all group_select gtests rnd' (indices ++ [index])
             (temp ++ [gtests !! index ≫= (all !!.)])
  end.

(** The body of [course.testgroups.forEach]: the tests of one group.
    [raw] is [Some journalStrucRawTests] when a minimal structure was
    given. *)
Definition resolve_group (all : gmap Z SingleTest) (raw : option (list Z))
    (group : TestGroup) (rnd : Rand)
    : outcome (list (option SingleTest) * Rand) :=
  match raw with
  | Some rawTests =>
      (* the tests were already randomly generated *)
      Ret ((all !!.) <$> filter (.∈ rawTests) (group_tests group), rnd)
  | None =>
      match select group with
      | Some n =>
          if bool_decide (n = 0)
          then Ret ((all !!.) <$> group_tests group, rnd)
          else select_loop all n (group_tests group) rnd [] []
      | None => Ret ((all !!.) <$> group_tests group, rnd)
      end
  end.

(** [testsInTestgroup], group after group, threading the random state *)
Fixpoint resolve_groups (all : gmap Z SingleTest) (raw : option (list Z))
    (groups : list TestGroup) (rnd : Rand)
    (testsInTestgroup : gmap Z (list (option SingleTest)))
    : outcome (gmap Z (list (option SingleTest)) * Rand) :=
  match groups with
  | [] => Ret (testsInTestgroup, rnd)
  | group :: groups' =>
      '(temp, rnd') ← resolve_group all raw group rnd;
      resolve_groups all raw groups' rnd'
        (<[group_id group := temp]> testsInTestgroup)
  end.

Definition page_before (pages : gmap Z Infopage) (i : Z) : list SetElement :=
  match pages !! i with
  | Some page => [INFOPAGE page]
  | None => []
  end.

(** the tests of a group, each behind its info page; reading [test.id] of
    an [undefined] test throws *)
Fixpoint expand_group (pages : gmap Z Infopage)
    (ts : list (option SingleTest)) : outcome (list SetElement) :=
  match ts with
  | [] => Ret []
  | None :: _ => Throws
  | Some test :: ts' =>
      rest ← expand_group pages ts';
      Ret (page_before pages (id test) ++ [TEST test] ++ rest)%list
  end.

(** one round of [rawSet.elements.forEach] *)
Definition expand_element (all : gmap Z SingleTest) (pages : gmap Z Infopage)
    (testsInTestgroup : gmap Z (list (option SingleTest))) (element : Z)
    : outcome (list SetElement) :=
  match all !! element with
  | Some test => Ret (page_before pages element ++ [TEST test])%list
  | None =>
      match testsInTestgroup !! element with
      | None => Throws   (* [undefined.forEach] *)
      | Some ts =>
          es ← expand_group pages ts;
          Ret (page_before pages element ++ es)%list
      end
  end.

Fixpoint expand_elements (all : gmap Z SingleTest) (pages : gmap Z Infopage)
    (testsInTestgroup : gmap Z (list (option SingleTest))) (els : list Z)
    : outcome (list SetElement) :=
  match els with
  | [] => Ret []
  | element :: els' =>
      es ← expand_element all pages testsInTestgroup element;
      rest ← expand_elements all pages testsInTestgroup els';
      Ret (es ++ rest)%list
  end.

Fixpoint build_sets (all : gmap Z SingleTest) (pages : gmap Z Infopage)
    (testsInTestgroup : gmap Z (list (option SingleTest)))
    (rawSets : list RawSet) : outcome (list TestSet) :=
  match rawSets with
  | [] => Ret []
  | rawSet :: rawSets' =>
      es ← expand_elements all pages testsInTestgroup (elements rawSet);
      rest ← build_sets all pages testsInTestgroup rawSets';
      Ret ({| testset_id := rawset_id rawSet;
              testset_elements := es;
              scoreIndepentText := scoreIndependent rawSet;
              scoreDependentTexts := scoreDependent rawSet |} :: rest)
  end.

Definition createJournalStructure (course_ : CourseConfig)
    (journalStrucMin : option JournalStructureMinimal) (rnd : Rand)
    : outcome (JournalStructure * Rand) :=
  let all := allSingleTests course_ in
  let pages := allInfopages course_ in
  '(testsInTestgroup, rnd') ←
    resolve_groups all (journalStrucRawTests <$> journalStrucMin)
      (testgroups course_) rnd ∅;
  sets_ ← build_sets all pages testsInTestgroup (sets course_);
  Ret ({| js_sets := sets_ |}, rnd').


(** ** Notions used in the statements *)

(** no test of the configuration has the id *)
Definition no_config (config : CourseConfig) (singleTestID : Z) : Prop :=
  forall t, t ∈ tests config -> id t <> singleTestID.

(** no pair of the stored log has the id as its key *)
Definition no_log (journal : Journal) (singleTestID : Z) : Prop :=
  forall s m, s ∈ log_sets (log journal) -> m ∈ maps s -> key m <> singleTestID.

(** the test ids of a minimal structure, set after set *)
Definition structure_ids (ss : list TestSetMinimal) : list Z :=
  concat (map min_tests ss).

(** a test id for which the gathering phase of [calculate] gives up *)
Definition lacks_data (config : CourseConfig) (journal : Journal)
    (singleTestID : Z) : Prop :=
  find_config config singleTestID = None
  \/ exists t, find_config config singleTestID = Some t
               /\ evaluated t = true /\ find_log journal singleTestID = None.

(** what the gathering phase keeps of [testsData], having gone through
    the test ids [ids] *)
Definition gathered (config : CourseConfig) (ids : list Z)
    (td : list (Z * TestData)) : Prop :=
  NoDup td.*1
  /\ (forall k d, (k, d) ∈ td ->
        k ∈ ids /\ find_config config k = Some (td_config d)
        /\ evaluated (td_config d) = true)
  /\ (forall k t, k ∈ ids -> find_config config k = Some t ->
        evaluated t = true -> k ∈ td.*1).

(** the factory makes an instance for the test *)
Definition known
    (Factory_create : string -> SingleTest -> outcome (option TestInstance))
    (test : TestData) : Prop :=
  exists inst,
    Factory_create (category (td_config test)) (td_config test) = Ret (Some inst).

#[global] Instance known_dec F test : Decision (known F test).
Proof.
  unfold known.
  destruct (F (category (td_config test)) (td_config test))
    as [[inst|]| | |]; [left; by eexists|right; intros [? [=]]..].
Defined.


(** the digit that a draw yields *)
Definition digit (d : nat) : string := Str.of_Z (Z.of_nat (d mod 10)).
Definition even_draw (d : nat) : Prop := Nat.even (d mod 10) = true.
Definition odd_draw (d : nat) : Prop := Nat.even (d mod 10) = false.

(** the shape C8 claims: two uppercase letters, a dash, two digits that
    form an even number *)
Definition claimed_shape (code : string) : bool :=
  match code with
  | String l1 (String l2 (String dash (String d1 (String d2 EmptyString)))) =>
      Str.all_chars (fun c => (65 <=? nat_of_ascii c)%nat && (nat_of_ascii c <=? 90)%nat)
        (String l1 (String l2 EmptyString))
      && bool_decide (dash = "-"%char)
      && Str.is_digit d1 && Str.is_digit d2
      && Z.even (10 * Str.digit_val d1 + Str.digit_val d2)
  | _ => false
  end.

(** the stored [result.tests] of all users, document by document *)
Definition stored_tests (db : Db) : list (list TestResult) :=
  (fun u => result_tests (result u)) <$> users db.

(** the first [n] database calls are not rejected *)
Definition served (n : nat) (faults : list bool) : Prop :=
  true ∉ take n faults.

(** what is left of an outcome when the random state is dropped *)
Definition structure_of (o : outcome (JournalStructure * Rand))
    : outcome JournalStructure :=
  match o with
  | Ret (js, _) => Ret js
  | Throws => Throws
  | Loops => Loops
  | Unmodelled => Unmodelled
  end.

(** the expansion of the sets draws nothing and has no loop of its own:
    it returns or throws *)
Definition settled {A} (o : outcome A) : Prop :=
  match o with
  | Ret _ | Throws => True
  | Loops | Unmodelled => False
  end.

(** the test that the selection loop pushes for position [i] of the group *)
Definition pick (all : gmap Z SingleTest) (gtests : list Z) (i : nat)
    : option SingleTest :=
  gtests !! i ≫= (all !!.).

(** the positions that the draws hit in a group of [n] tests *)
Definition drawn_positions (n : nat) (rnd : Rand) : gset nat :=
  list_to_set (random_index n <$> rnd).

(** ** Sample data *)

(** the option of the specification's speed example: the second colon of
    "ab:cd:ef" is the one to mark *)
Definition colons : SpeedOption :=
  {| text := "ab:cd:ef"; correct := ":"; index := "1" |}.

(** A log entry that neither speed scorer evaluates: not a string, and not
    a span of two numbers other than the "no selection" mark [-1]. *)
Definition unanswered (v : jsval) : bool :=
  match v with
  | JStr _ => false
  | JArr _ =>
      match js_elem v 0, js_elem v 1 with
      | JNum a, JNum b => (a =? -1) || (b =? -1)
      | _, _ => true
      end
  | _ => true
  end.

(** an option as the schema of the occurrence scorer accepts it: [correct]
    and [index] are strings *)
Definition speed_option (o : TestOption) : option SpeedOption :=
  match o_correct o, o_index o with
  | Some (JStr c), Some (JStr i) =>
      Some {| text := o_text o; correct := c; index := i |}
  | _, _ => None
  end.

(** Modelled from the spec: the registry behind
    [courseTestModels.Factory.create], which is missing from the sources:
    "select the ScoringStrategy by the test's category; an unrecognized
    category is skipped".  Only the speed strategy is registered here, with
    the occurrence scorer of the sources, whose constructor throws on a
    configuration that its schema rejects. *)
Definition speed_factory (category_ : string) (t : SingleTest)
    : outcome (option TestInstance) :=
  if bool_decide (category_ = "speed") then
    match mapM speed_option (options t) with
    | Some opts =>
        Ret (Some {| inst_maxScore := Ret (Z.of_nat (length opts));
                     inst_calculateResult := SpeedOcc.calculateResult opts |})
    | None => Throws
    end
  else Ret None.

Definition colon_test (i : Z) : SingleTest :=
  {| id := i; category := "speed"; evaluated := true;
     options := [ {| o_text := "ab:cd:ef"; o_correct := Some (JStr ":");
                     o_index := Some (JStr "1") |} ] |}.

Definition sample_config : CourseConfig :=
  {| validationSchema := "AA-[0-9][0-9]%2";
     tests := [colon_test 1; colon_test 2];
     testgroups := []; sets := []; infopages := [] |}.

Definition sample_log : SavedLog :=
  {| log_sets :=
       [ {| maps := [ {| key := 1; val := [JArr [JNum 5; JNum 6]] |};
                      {| key := 2; val := [JArr [JNum 2; JNum 3]] |} ] |} ] |}.

(** two sets; the first holds test 2, the second test 1 *)
Definition sample_journal : Journal :=
  {| log := sample_log;
     structure :=
       {| course := "cs"; language := "en";
          min_sets := [ {| set := 10; min_tests := [2] |};
                        {| set := 20; min_tests := [1] |} ] |} |}.

(** the same journal with a test id that the configuration does not have *)
Definition dangling_journal : Journal :=
  {| log := sample_log;
     structure :=
       {| course := "cs"; language := "en";
          min_sets := [ {| set := 10; min_tests := [2; 3] |} ] |} |}.

Definition locked_user : User :=
  {| pin := 4711; journal := sample_journal;
     result := {| result_tests :=
                    [ {| res_id := "1"; res_score := 0; maxScore := 1;
                         correctOptions := []; wrongOptions := [0%nat] |} ];
                  validationCode := Some "AA-130" |} |}.

Definition fresh_user : User :=
  {| pin := 4712; journal := sample_journal;
     result := {| result_tests := []; validationCode := None |} |}.

Definition cs_course : Course :=
  {| name := "cs";
     configs := [ {| lc_language := "en"; lc_config := sample_config |} ] |}.

Definition sample_db : Db :=
  {| users := [locked_user; fresh_user]; courses := [cs_course] |}.

(** a locked user whose course is gone *)
Definition orphan_db : Db :=
  {| users := [locked_user]; courses := [] |}.

Definition sample_journal_log : JournalLog :=
  {| jl_sets := [ [ (1004, [JArr [JNum 1; JNum 3]; JBool false]);
                    (1001, [JBool false; JBool true]) ];
                  [ (1002, [JBool false; JBool true; JBool false]) ] ] |}.

Definition group_config : CourseConfig :=
  {| validationSchema := "AA-[0-9][0-9]%2";
     tests := [colon_test 1; colon_test 2; colon_test 7];
     testgroups := [ {| group_id := 100; group_tests := [1; 2; 7];
                        select := Some 2 |} ];
     sets := [ {| rawset_id := 10; elements := [100];
                  scoreIndependent := "done"; scoreDependent := [] |} ];
     infopages := [ {| page_id := 500; page_text := "read first";
                       belongs := [2] |} ] |}.

(** * More of the code *)

(** ** [get maxScore()] of the speed tests

    Both classes count the options that have a 'correct' property.  The
    substring-inclusion class throws while no configuration is loaded; the
    occurrence class always has one (its constructor throws otherwise). *)

Module InclTest.

Definition maxScore (config : option (list TestOption)) : outcome Z :=
  match config with
  | None => Throws   (* 'missing test config' *)
  | Some opts =>
      Ret (fold_left (fun score opt =>
                        match o_correct opt with
                        | Some _ => score + 1
                        | None => score
                        end) opts 0)
  end.

End InclTest.

Module OccTest.

Definition maxScore (config : list TestOption) : Z :=
  fold_left (fun score opt =>
               match o_correct opt with
               | Some _ => score + 1
               | None => score
               end) config 0.

End OccTest.

(** ** [result.controller.js]: [load] *)

Definition load (faults : list bool) (db : Db) (bodyPin : Z) : Response :=
  let '(fault, _) := next_fault faults in
  if fault then db_failure else
  match findOne_user db bodyPin with
  | None => respond 404 (BError E_DBQUERY)
  | Some user => respond 200 (BTests (result_tests (result user)))
  end.

(** ** [local-storage.service.ts]: [prepareJournalStructureForSaving]

    [courseName] is [getCourse().name] and [courseLanguage] is
    [getCourseLanguage()], both read from the local storage. *)

Definition prepareJournalStructureForSaving (courseName courseLanguage : string)
    (journalStructure : JournalStructure) : JournalStructureMinimal :=
  {| course := courseName;
     language := courseLanguage;
     min_sets :=
       map (fun s =>
              {| set := testset_id s;
                 min_tests :=
                   omap (fun element =>
                           match element with
                           | TEST t => Some (id t)
                           | INFOPAGE _ => None
                           end)
                        (testset_elements s) |})
           (js_sets journalStructure) |}.

(** ** [course.model.js]: [validateConfig]

    The configuration document as it is uploaded: [testgroups], [sets],
    [infopages] and the [belongs] of a page may be missing. *)

Record PageDoc : Type := {
  pagedoc_id : Z;
  pagedoc_belongs : option (list Z);
}.

Record ConfigDoc : Type := {
  doc_tests : list SingleTest;
  doc_testgroups : option (list TestGroup);
  doc_sets : option (list RawSet);
  doc_infopages : option (list PageDoc);
}.

(** ['correct' in option] for every option of a test *)
Definition options_have_correct (test : SingleTest) : bool :=
  forallb (fun option => bool_decide (is_Some (o_correct option))) (options test).

(** step 2, the loop over the tests; [None] is [return false] *)
Fixpoint check_tests (ts : list SingleTest) (testIDs : list Z)
    : option (list Z) :=
  match ts with
  | [] => Some testIDs
  | test :: ts' =>
      if bool_decide (id test ∈ testIDs) then None
      else if bool_decide (category test = "multiple-options")
              && negb (options_have_correct test) then None
      else if bool_decide (category test = "speed")
              && negb (options_have_correct test) then None
      else check_tests ts' (testIDs ++ [id test])
  end.

(** step 3, the loop over the test groups *)
Fixpoint check_groups (testIDs : list Z) (gs : list TestGroup)
    (testgroupIDs : list Z) : option (list Z) :=
  match gs with
  | [] => Some testgroupIDs
  | group :: gs' =>
      if bool_decide (group_id group ∈ testgroupIDs) then None
      else if negb (forallb (fun testID => bool_decide (testID ∈ testIDs))
                            (group_tests group)) then None
      else check_groups testIDs gs' (testgroupIDs ++ [group_id group])
  end.

(** step 4, the loop over the sets *)
Fixpoint check_sets (testIDs testgroupIDs : list Z) (ss : list RawSet)
    (testsetIDs : list Z) : option (list Z) :=
  match ss with
  | [] => Some testsetIDs
  | s :: ss' =>
      if bool_decide (rawset_id s ∈ testsetIDs) then None
      else if negb (forallb (fun elemID =>
                               bool_decide (elemID ∈ testIDs)
                               || bool_decide (elemID ∈ testgroupIDs))
                            (elements s)) then None
      else check_sets testIDs testgroupIDs ss' (testsetIDs ++ [rawset_id s])
  end.

(** step 5, the loop over the info pages *)
Fixpoint check_pages (testIDs testgroupIDs testsetIDs : list Z)
    (ps : list PageDoc) (infopageIDs : list Z) : option (list Z) :=
  match ps with
  | [] => Some infopageIDs
  | page :: ps' =>
      if bool_decide (pagedoc_id page ∈ infopageIDs) then None
      else if negb (match pagedoc_belongs page with
                    | Some elems =>
                        forallb (fun elemID =>
                                   bool_decide (elemID ∈ testIDs)
                                   || bool_decide (elemID ∈ testgroupIDs)
                                   || bool_decide (elemID ∈ testsetIDs))
                                elems
                    | None => true
                    end) then None
      else check_pages testIDs testgroupIDs testsetIDs ps'
             (infopageIDs ++ [pagedoc_id page])
  end.

Section ValidateConfig.

(** Step 1 runs the document through the JSON schemas compiled by [ajv];
    the compiled validator is a parameter. *)
Variable validate : ConfigDoc -> bool.

Definition validateConfig (config : ConfigDoc) : bool :=
  if negb (validate config) then false else
  match check_tests (doc_tests config) [] with
  | None => false
  | Some testIDs =>
      match match doc_testgroups config with
            | Some testgroups => check_groups testIDs testgroups []
            | None => Some []
            end with
      | None => false
      | Some testgroupIDs =>
          match match doc_sets config with
                | Some testsets => check_sets testIDs testgroupIDs testsets []
                | None => Some []
                end with
          | None => false
          | Some testsetIDs =>
              match match doc_infopages config with
                    | Some infopages =>
                        check_pages testIDs testgroupIDs testsetIDs infopages []
                    | None => Some []
                    end with
              | None => false
              | Some _ => true
              end
          end
      end
  end.

End ValidateConfig.

(** the document of a configuration in which nothing is missing *)
Definition config_doc (c : CourseConfig) : ConfigDoc :=
  {| doc_tests := tests c;
     doc_testgroups := Some (testgroups c);
     doc_sets := Some (sets c);
     doc_infopages :=
       Some (map (fun p => {| pagedoc_id := page_id p;
                              pagedoc_belongs := Some (belongs p) |})
                 (infopages c)) |}.

(** ** More notions used in the statements *)

(** What a speed scorer has built after the first [k] entries of the log:
    the score counts the correct entries, both lists ascend, no index is
    in both, and every index is below [k]. *)
Definition scored_upto (k : nat) (r : Result) : Prop :=
  score r = Z.of_nat (length (correct_idx r))
  /\ StronglySorted lt (correct_idx r)
  /\ StronglySorted lt (wrong_idx r)
  /\ (forall i, i ∈ correct_idx r -> i ∉ wrong_idx r)
  /\ (forall i, i ∈ (correct_idx r ++ wrong_idx r)%list -> (i < k)%nat).

(** the entry is a span of two numbers, none of them the "no selection"
    mark [-1] *)
Definition is_span (v : jsval) : bool :=
  match v with
  | JArr _ =>
      match js_elem v 0, js_elem v 1 with
      | JNum a, JNum b => negb ((a =? -1) || (b =? -1))
      | _, _ => false
      end
  | _ => false
  end.

(** entry [i] of the log is a string that includes the [correct] string
    of option [i] *)
Definition marked_correct (opts : list SpeedOption) (log : list jsval)
    (i : nat) : bool :=
  match log !! i, opts !! i with
  | Some (JStr s), Some o => Str.includes s (correct o)
  | _, _ => false
  end.

(** entry [i] of the log is a non-empty string that does not include the
    [correct] string of option [i] *)
Definition marked_wrong (opts : list SpeedOption) (log : list jsval)
    (i : nat) : bool :=
  match log !! i, opts !! i with
  | Some (JStr s), Some o =>
      negb (Str.includes s (correct o)) && (0 <? String.length s)%nat
  | _, _ => false
  end.

(** the result of the substring-inclusion scorer after [k] entries *)
Definition incl_result (opts : list SpeedOption) (log : list jsval) (k : nat)
    : Result :=
  {| score := Z.of_nat (length (List.filter (marked_correct opts log) (seq 0 k)));
     correct_idx := List.filter (marked_correct opts log) (seq 0 k);
     wrong_idx := List.filter (marked_wrong opts log) (seq 0 k) |}.

(** every option names a non-empty string free of metacharacters *)
Definition literal_options (opts : list SpeedOption) : Prop :=
  Forall (fun o => correct o <> ""
                   /\ Str.all_chars (fun c => negb (Str.is_regex_meta c))
                        (correct o) = true) opts.

(** the gathering phase pairs every id with the first test of that id and
    with the log that [find_log] reads *)
Definition gathered_from (config : CourseConfig) (journal : Journal)
    (td : list (Z * TestData)) : Prop :=
  forall k d, (k, d) ∈ td ->
    k ∈ structure_ids (min_sets (structure journal))
    /\ find_config config k = Some (td_config d)
    /\ evaluated (td_config d) = true
    /\ find_log journal k = Some (td_log d).

(** the characters of a string *)
Definition chars (s : string) : list ascii := String.list_ascii_of_string s.

(** an optional array of a document, read as empty when it is missing *)
Definition present {A} (o : option (list A)) : list A :=
  match o with Some l => l | None => [] end.

(** What [validateConfig] checks beyond the schemas: ids are unique within
    their kind, the options of multiple-options and speed tests carry
    'correct', and every reference names something defined. *)
Definition well_formed (config : ConfigDoc) : Prop :=
  let testIDs := id <$> doc_tests config in
  let testgroupIDs := group_id <$> present (doc_testgroups config) in
  let testsetIDs := rawset_id <$> present (doc_sets config) in
  NoDup testIDs
  /\ (forall test option,
        test ∈ doc_tests config ->
        category test = "multiple-options" \/ category test = "speed" ->
        option ∈ options test -> is_Some (o_correct option))
  /\ NoDup testgroupIDs
  /\ (forall group testID,
        group ∈ present (doc_testgroups config) ->
        testID ∈ group_tests group -> testID ∈ testIDs)
  /\ NoDup testsetIDs
  /\ (forall s elemID,
        s ∈ present (doc_sets config) -> elemID ∈ elements s ->
        elemID ∈ testIDs \/ elemID ∈ testgroupIDs)
  /\ NoDup (pagedoc_id <$> present (doc_infopages config))
  /\ (forall page elems elemID,
        page ∈ present (doc_infopages config) ->
        pagedoc_belongs page = Some elems -> elemID ∈ elems ->
        elemID ∈ testIDs \/ elemID ∈ testgroupIDs \/ elemID ∈ testsetIDs).

(** the common shape of the four loops of [validateConfig]: an id seen
    before, or an item that fails its check, ends the validation *)
Fixpoint check_loop {A} (get_id : A -> Z) (ok : A -> bool) (l : list A)
    (seen : list Z) : option (list Z) :=
  match l with
  | [] => Some seen
  | x :: l' =>
      if bool_decide (get_id x ∈ seen) then None
      else if negb (ok x) then None
      else check_loop get_id ok l' (seen ++ [get_id x])
  end.

(** the two special cases of the loop over the tests *)
Definition test_ok (test : SingleTest) : bool :=
  negb (bool_decide (category test = "multiple-options")
        && negb (options_have_correct test))
  && negb (bool_decide (category test = "speed")
           && negb (options_have_correct test)).

(** every test in the group map is the test that [allSingleTests] holds
    under its id *)
Definition from_course (all : gmap Z SingleTest)
    (testsInTestgroup : gmap Z (list (option SingleTest))) : Prop :=
  forall gid ts t, testsInTestgroup !! gid = Some ts -> Some t ∈ ts ->
                   all !! id t = Some t.

(** an element of a built set is taken from the course *)
Definition element_of_course (course_ : CourseConfig) (e : SetElement) : Prop :=
  match e with
  | TEST t => allSingleTests course_ !! id t = Some t
  | INFOPAGE p => p ∈ infopages course_
  end.

(** no group holds an [undefined] test *)
Definition defined_groups (G : gmap Z (list (option SingleTest))) : Prop :=
  forall gid ts, G !! gid = Some ts -> Forall is_Some ts.

(** what a loop of the build may do on a course whose references
    resolve: return, or (only when drawing) wait for a draw *)
Definition no_throw {A} (drawing : bool) (o : outcome A) (P : A -> Prop) : Prop :=
  match o with
  | Ret a => P a
  | Loops => drawing = true
  | _ => False
  end.

(** the group takes all its tests: no [select], or [select] is [0] *)
Definition takes_all (group : TestGroup) : Prop :=
  select group = None \/ select group = Some 0.

(** the group maps of a fresh build and of a build resumed with the test
    ids [raw] hold, under every id, what the same group gives *)
Definition paired (all : gmap Z SingleTest) (raw : list Z)
    (Gf Gr : gmap Z (list (option SingleTest))) : Prop :=
  forall e,
    match Gf !! e, Gr !! e with
    | Some tf, Some tr =>
        exists g, tf = (all !!.) <$> group_tests g
                  /\ tr = (all !!.) <$> filter (.∈ raw) (group_tests g)
    | None, None => True
    | _, _ => False
    end.

(** ** More sample data *)

(** an option whose [correct] is the empty string *)
Definition blank : SpeedOption :=
  {| text := "ab:cd:ef"; correct := ""; index := "0" |}.

(** what [calculate] returns for the sample journal *)
Definition sample_results : list TestResult :=
  [ {| res_id := "1"; res_score := 0; maxScore := 1;
       correctOptions := []; wrongOptions := [0%nat] |};
    {| res_id := "2"; res_score := 1; maxScore := 1;
       correctOptions := [0%nat]; wrongOptions := [] |} ].

(** the structure built from [group_config] with the draws 4, 4, 3 *)
Definition sample_structure : JournalStructure :=
  {| js_sets :=
       [ {| testset_id := 10;
            testset_elements :=
              [ INFOPAGE {| page_id := 500; page_text := "read first";
                            belongs := [2] |};
                TEST (colon_test 2); TEST (colon_test 1) ];
            scoreIndepentText := "done";
            scoreDependentTexts := [] |} ] |}.

(** the sample course with a group that takes all its tests *)
Definition whole_group_config : CourseConfig :=
  {| validationSchema := "AA-[0-9][0-9]%2";
     tests := [colon_test 1; colon_test 2; colon_test 7];
     testgroups := [ {| group_id := 100; group_tests := [1; 2; 7];
                        select := None |} ];
     sets := [ {| rawset_id := 10; elements := [100];
                  scoreIndependent := "done"; scoreDependent := [] |} ];
     infopages := [ {| page_id := 500; page_text := "read first";
                       belongs := [2] |} ] |}.

Definition whole_group_structure : JournalStructure :=
  {| js_sets :=
       [ {| testset_id := 10;
            testset_elements :=
              [ TEST (colon_test 1);
                INFOPAGE {| page_id := 500; page_text := "read first";
                            belongs := [2] |};
                TEST (colon_test 2); TEST (colon_test 7) ];
            scoreIndepentText := "done";
            scoreDependentTexts := [] |} ] |}.

(** * The library calls as parameters *)

(** ** The occurrence scorer over any regular-expression engine

    [searchString.search(correctOption)] compiles its argument to a
    regular expression.  [Str.search] covers the patterns without
    metacharacters; here the engine is a parameter, so that every
    [correct] string is covered: the engine answers with the index of the
    first match (a position of the text), with [-1] when there is none,
    or it throws (a pattern that does not compile).  The rest is the code
    of [SpeedOcc]. *)

Module SpeedRe.

(** [s.slice(begin)]: a negative [begin] counts from the end *)
Definition slice_from (s : string) (begin_ : Z) : string :=
  Str.slice s
    (Z.to_nat (if begin_ <? 0 then Z.of_nat (String.length s) + begin_
               else begin_)).

Section SpeedRe.
Variable search : string -> string -> outcome Z.

Fixpoint find_occurences (fuel : nat) (searchString correctOption : string)
    (occurences : list SpeedOcc.occurence)
    : outcome (list SpeedOcc.occurence) :=
  match fuel with
  | O => Loops
  | S fuel' =>
      index ← search searchString correctOption;
      if index =? -1 then Ret occurences
      else
        let len := Z.of_nat (String.length correctOption) in
        find_occurences fuel'
          (slice_from searchString (index + len))
          correctOption
          (occurences ++ [{| SpeedOcc.start := index;
                             SpeedOcc.end_ := index + len |}])
  end.

Definition step (i : nat) (o : SpeedOption) (v : jsval) (r : Result)
    : outcome Result :=
  let correctOption := correct o in
  let correctOptionIndex := Str.parseInt (index o) in
  if negb (isArray v) then Ret r
  else match correctOptionIndex with
  | None => Ret r   (* isNaN *)
  | Some correctOptionIndex =>
      match js_elem v 0, js_elem v 1 with
      | JNum userSelectionStart, JNum userSelectionEnd =>
          if (userSelectionStart =? -1) || (userSelectionEnd =? -1)
          then Ret r
          else
            let selectedText :=
              Str.substring (text o) userSelectionStart userSelectionEnd in
            occurences ←
              find_occurences (S (String.length (text o))) (text o)
                correctOption [];
            let selected :=
              SpeedOcc.selectedOccurence userSelectionStart userSelectionEnd
                occurences in
            if Str.includes selectedText correctOption
               && (selected =? correctOptionIndex)
            then Ret (award i r)
            else Ret (penalise i r)
      | _, _ => Ret r   (* a member is not a number *)
      end
  end.

Fixpoint loop (opts : list SpeedOption) (i : nat) (log : list jsval)
    (r : Result) : outcome Result :=
  match log with
  | [] => Ret r
  | v :: log' =>
      match opts !! i with
      | None => Throws
      | Some o => r' ← step i o v r; loop opts (S i) log' r'
      end
  end.

Definition calculateResult (config : list SpeedOption)
    (log : list jsval) : outcome Result :=
  loop config 0 log empty_result.

End SpeedRe.
End SpeedRe.

(** the engine on the patterns that [Str.search] covers *)
Definition literal_search (s pat : string) : outcome Z :=
  match Str.search s pat with
  | Some index => Ret index
  | None => Unmodelled
  end.

(** ** [generateValidationCode] over any modulus

    [number % modulo] converts the text [modulo] to a number.
    [handle_meta] covers the texts that are strings of digits; here the
    test [number % modulo === 0] is a parameter, so that every text after
    a "%" is covered.  The rest is the code of [handle_meta] and
    [generateValidationCode]. *)

Module AnyModulus.
Section AnyModulus.
(** [number % modulo === 0], for a digit [number] and the text [modulo] *)
Variable rem_is_zero : Z -> string -> bool.

(** [do { number = ... } while (number % modulo !== 0)] *)
Fixpoint reroll (modulo : string) (rnd : Rand) : outcome (Z * Rand) :=
  match rnd with
  | [] => Loops
  | d :: rnd' =>
      let number := Z.of_nat (d mod 10) in
      if rem_is_zero number modulo then Ret (number, rnd')
      else reroll modulo rnd'
  end.

Fixpoint handle_meta (fuel : nat) (token code : string) (rnd : Rand)
    : outcome (string * Rand) :=
  match fuel with
  | O => Loops
  | S fuel' =>
      if Str.includes code token then
        let tokenIndex := default 0%nat (String.index 0 token code) in
        if bool_decide (token = "%")
           && (Z.of_nat tokenIndex <? Z.of_nat (String.length code) - 1)
        then
          let modulo := Str.substr code (tokenIndex + 1) (tokenIndex + 2) in
          '(number, rnd') ← reroll modulo rnd;
          handle_meta fuel' token
            (Str.replace code (token +:+ modulo) (Str.of_Z number)) rnd'
        else if bool_decide (token = "(") then
          handle_meta fuel' token (Str.replace code token "") rnd
        else if bool_decide (token = ")") then
          handle_meta fuel' token (Str.replace code token "") rnd
        else handle_meta fuel' token code rnd
      else Ret (code, rnd)
  end.

Definition generateValidationCode (schema : string) (rnd : Rand)
    : outcome (string * Rand) :=
  '(code, rnd') ← for_tokens replace_token replaceTokens schema rnd;
  for_tokens handle_meta metaTokens code rnd'.

End AnyModulus.
End AnyModulus.

(** the test on the texts that [handle_meta] covers: strings of digits *)
Definition digits_rem_is_zero (number : Z) (modulo : string) : bool :=
  match Str.toNumber modulo with
  | Some m => negb (m =? 0) && (Z.rem number m =? 0)
  | None => false
  end.

(** * The course file

    The course file as the frontend receives it and as the backend
    validates it.  The schemas of the backend require [tests], the
    [tests] of a group and the [elements] of a set; they require neither
    [testgroups], [sets] and [infopages] nor the [belongs] of a page, and
    know no [evaluationTexts] of a set.  [createJournalStructure] reads
    all of them, and reading a property of [undefined] throws. *)

Record EvaluationTexts : Type := {
  et_scoreIndependent : string;
  et_scoreDependent : list (Z * string);
}.

Record SetFile : Type := {
  sf_id : Z;
  sf_elements : list Z;
  sf_evaluationTexts : option EvaluationTexts;   (* [None]: no such property *)
}.

Record PageFile : Type := {
  pf_id : Z;
  pf_text : string;
  pf_belongs : option (list Z);
}.

Record ConfigFile : Type := {
  cf_validationSchema : string;
  cf_tests : list SingleTest;
  cf_testgroups : option (list TestGroup);
  cf_sets : option (list SetFile);
  cf_infopages : option (list PageFile);
}.

(** ** [local-storage.service.ts]: [createJournalStructure] on the file *)

Module OnFile.

(** [x.forEach], [x['scoreIndependent']]: [x] may be [undefined] *)
Definition read {A} (x : option A) : outcome A :=
  match x with
  | Some a => Ret a
  | None => Throws
  end.

Definition allSingleTests (course_ : ConfigFile) : gmap Z SingleTest :=
  fold_left (fun m rawTest => <[id rawTest := rawTest]> m) (cf_tests course_) ∅.

(** [course.infopages.forEach]: the pages so far are in [m] *)
Fixpoint allInfopages (infopages : list PageFile) (m : gmap Z Infopage)
    : outcome (gmap Z Infopage) :=
  match infopages with
  | [] => Ret m
  | page :: infopages' =>
      belongs_ ← read (pf_belongs page);
      allInfopages infopages'
        (fold_left
           (fun m belongsId =>
              <[belongsId := {| page_id := pf_id page; page_text := pf_text page;
                                belongs := belongs_ |}]> m)
           belongs_ m)
  end.

(** [course.sets.forEach]: the texts of a set are read before its
    elements are expanded *)
Fixpoint build_sets (all : gmap Z SingleTest) (pages : gmap Z Infopage)
    (testsInTestgroup : gmap Z (list (option SingleTest)))
    (rawSets : list SetFile) : outcome (list TestSet) :=
  match rawSets with
  | [] => Ret []
  | rawSet :: rawSets' =>
      evaluationTexts ← read (sf_evaluationTexts rawSet);
      es ← expand_elements all pages testsInTestgroup (sf_elements rawSet);
      rest ← build_sets all pages testsInTestgroup rawSets';
      Ret ({| testset_id := sf_id rawSet;
              testset_elements := es;
              scoreIndepentText := et_scoreIndependent evaluationTexts;
              scoreDependentTexts := et_scoreDependent evaluationTexts |}
           :: rest)
  end.

Definition createJournalStructure (course_ : ConfigFile)
    (journalStrucMin : option JournalStructureMinimal) (rnd : Rand)
    : outcome (JournalStructure * Rand) :=
  let all := allSingleTests course_ in
  infopages ← read (cf_infopages course_);
  pages ← allInfopages infopages ∅;
  testgroups ← read (cf_testgroups course_);
  '(testsInTestgroup, rnd') ←
    resolve_groups all (journalStrucRawTests <$> journalStrucMin)
      testgroups rnd ∅;
  sets_ ← read (cf_sets course_);
  sets_ ← build_sets all pages testsInTestgroup sets_;
  Ret ({| js_sets := sets_ |}, rnd').

End OnFile.

(** ** Files in which nothing is missing *)

Definition page_complete (page : PageFile) : option Infopage :=
  belongs_ ← pf_belongs page;
  Some {| page_id := pf_id page; page_text := pf_text page;
          belongs := belongs_ |}.

Definition set_complete (rawSet : SetFile) : option RawSet :=
  evaluationTexts ← sf_evaluationTexts rawSet;
  Some {| rawset_id := sf_id rawSet; elements := sf_elements rawSet;
          scoreIndependent := et_scoreIndependent evaluationTexts;
          scoreDependent := et_scoreDependent evaluationTexts |}.

(** the configuration that a file holds, when the file has its
    [infopages], each with its [belongs], its [testgroups], and its
    [sets], each with its [evaluationTexts] *)
Definition complete (course_ : ConfigFile) : option CourseConfig :=
  infopages_ ← cf_infopages course_;
  pages ← mapM page_complete infopages_;
  testgroups_ ← cf_testgroups course_;
  sets_ ← cf_sets course_;
  rawSets ← mapM set_complete sets_;
  Some {| validationSchema := cf_validationSchema course_;
          tests := cf_tests course_;
          testgroups := testgroups_;
          sets := rawSets;
          infopages := pages |}.

(** the file of a configuration *)
Definition file_of (c : CourseConfig) : ConfigFile :=
  {| cf_validationSchema := validationSchema c;
     cf_tests := tests c;
     cf_testgroups := Some (testgroups c);
     cf_sets :=
       Some (map (fun rawSet =>
                    {| sf_id := rawset_id rawSet;
                       sf_elements := elements rawSet;
                       sf_evaluationTexts :=
                         Some {| et_scoreIndependent := scoreIndependent rawSet;
                                 et_scoreDependent := scoreDependent rawSet |} |})
                 (sets c));
     cf_infopages :=
       Some (map (fun page => {| pf_id := page_id page;
                                 pf_text := page_text page;
                                 pf_belongs := Some (belongs page) |})
                 (infopages c)) |}.

(** what [validateConfig] reads of a file: of a set its id and its
    elements, of a page its id and its [belongs] *)
Definition file_doc (course_ : ConfigFile) : ConfigDoc :=
  {| doc_tests := cf_tests course_;
     doc_testgroups := cf_testgroups course_;
     doc_sets :=
       map (fun rawSet =>
              {| rawset_id := sf_id rawSet; elements := sf_elements rawSet;
                 scoreIndependent :=
                   from_option et_scoreIndependent "" (sf_evaluationTexts rawSet);
                 scoreDependent :=
                   from_option et_scoreDependent [] (sf_evaluationTexts rawSet) |})
        <$> cf_sets course_;
     doc_infopages :=
       map (fun page => {| pagedoc_id := pf_id page;
                           pagedoc_belongs := pf_belongs page |})
        <$> cf_infopages course_ |}.

(** ** The structure that a build returns *)

(** [testsInTestgroup.set(group.id, temp)]: of the groups with one id the
    last one stays *)
Fixpoint governing (groups : list TestGroup) (gid : Z) : option TestGroup :=
  match groups with
  | [] => None
  | group :: groups' =>
      match governing groups' gid with
      | Some later => Some later
      | None => if bool_decide (group_id group = gid) then Some group else None
      end
  end.

(** what one entry of [rawSet.elements] adds to the elements of a set,
    when [chosen] gives the tests of every group: the page of the entry,
    then the test with this id or, if there is none, the tests of the
    group with this id, each behind its page *)
Definition expansion (all : gmap Z SingleTest) (pages : gmap Z Infopage)
    (chosen : Z -> list SingleTest) (element : Z) : list SetElement :=
  (page_before pages element
   ++ match all !! element with
      | Some test => [TEST test]
      | None =>
          flat_map (fun test => page_before pages (id test) ++ [TEST test])
                   (chosen element)
      end)%list.

Definition built_from (all : gmap Z SingleTest) (pages : gmap Z Infopage)
    (chosen : Z -> list SingleTest) (rawSets : list RawSet) : list TestSet :=
  map (fun rawSet =>
         {| testset_id := rawset_id rawSet;
            testset_elements :=
              flat_map (expansion all pages chosen) (elements rawSet);
            scoreIndepentText := scoreIndependent rawSet;
            scoreDependentTexts := scoreDependent rawSet |})
      rawSets.

(** the tests that the group map holds under an id *)
Definition tests_of (testsInTestgroup : gmap Z (list (option SingleTest)))
    (gid : Z) : list SingleTest :=
  omap (fun test => test) (default [] (testsInTestgroup !! gid)).

(** the tests of a group when the build resumes: those of its ids that
    are among [rawTests], in the order of the group *)
Definition resumed (all : gmap Z SingleTest) (rawTests : list Z)
    (groups : list TestGroup) (element : Z) : list SingleTest :=
  match governing groups element with
  | Some group => omap (all !!.) (filter (.∈ rawTests) (group_tests group))
  | None => []
  end.

(** a group that is to give more tests than it has: more than its size,
    and at least two if it is empty *)
Definition oversize (group : TestGroup) : Prop :=
  exists k, select group = Some k
            /\ Z.of_nat (length (group_tests group)) < k
            /\ (2 <= k \/ group_tests group <> []).

(** the references of a configuration resolve: groups name tests, sets
    name tests or groups *)
Definition resolvable (c : CourseConfig) : Prop :=
  (forall group i, group ∈ testgroups c -> i ∈ group_tests group ->
                   i ∈ id <$> tests c)
  /\ (forall rawSet element, rawSet ∈ sets c -> element ∈ elements rawSet ->
        element ∈ id <$> tests c \/ element ∈ group_id <$> testgroups c).

(** ** More sample data *)

(** options of a speed test whose [correct] is the pattern ".": in the
    text "ab" the pattern matches though the text has no dot; in "a.b"
    the scan counts three matches, the last of them at index 2 *)
Definition dot_option : SpeedOption :=
  {| text := "ab"; correct := "."; index := "0" |}.

Definition dotted_option : SpeedOption :=
  {| text := "a.b"; correct := "."; index := "2" |}.

(** an option whose [index] is no number *)
Definition unindexed : SpeedOption :=
  {| text := "ab:cd:ef"; correct := ":"; index := "second" |}.

Definition dot_test_option : TestOption :=
  {| o_text := "ab"; o_correct := Some (JStr "."); o_index := Some (JStr "0") |}.

Definition dotted_test_option : TestOption :=
  {| o_text := "a.b"; o_correct := Some (JStr "."); o_index := Some (JStr "2") |}.

(** an engine as far as the pattern "." goes: it matches the first
    character of any text that has one *)
Definition any_char_search (s pat : string) : outcome Z :=
  if bool_decide (pat = ".")
  then Ret (if bool_decide (s = "") then -1 else 0)
  else literal_search s pat.

(** the test as far as the text " 2" goes: white space is skipped *)
Definition spaced_rem_is_zero (number : Z) (modulo : string) : bool :=
  if bool_decide (modulo = " 2") then Z.rem number 2 =? 0
  else digits_rem_is_zero number modulo.

(** a course file without info pages, and one whose set has no
    [evaluationTexts] *)
Definition pageless_file : ConfigFile :=
  {| cf_validationSchema := "AA-[0-9][0-9]%2";
     cf_tests := [colon_test 1];
     cf_testgroups := Some [];
     cf_sets :=
       Some [ {| sf_id := 10; sf_elements := [1];
                 sf_evaluationTexts :=
                   Some {| et_scoreIndependent := "done";
                           et_scoreDependent := [] |} |} ];
     cf_infopages := None |}.

Definition textless_file : ConfigFile :=
  {| cf_validationSchema := "AA-[0-9][0-9]%2";
     cf_tests := [colon_test 1];
     cf_testgroups := Some [];
     cf_sets :=
       Some [ {| sf_id := 10; sf_elements := [1];
                 sf_evaluationTexts := None |} ];
     cf_infopages := Some [] |}.

(** the sample course with another group *)
Definition with_group (group : TestGroup) : CourseConfig :=
  {| validationSchema := "AA-[0-9][0-9]%2";
     tests := [colon_test 1; colon_test 2; colon_test 7];
     testgroups := [group];
     sets := [ {| rawset_id := 10; elements := [group_id group];
                  scoreIndependent := "done"; scoreDependent := [] |} ];
     infopages := [] |}.

(** a group that lists a test twice, one with [select] [0], and one
    that is to yield more tests than it has *)
Definition twin_group : TestGroup :=
  {| group_id := 101; group_tests := [7; 7]; select := Some 2 |}.
Definition select0_group : TestGroup :=
  {| group_id := 102; group_tests := [1; 2]; select := Some 0 |}.
Definition oversize_group : TestGroup :=
  {| group_id := 103; group_tests := [1; 2]; select := Some 3 |}.

(** a course with a group of three tests, two of them to be selected,
    and a second set that holds the third test of the group by itself *)
Definition pooled_config : CourseConfig :=
  {| validationSchema := "AA-[0-9][0-9]%2";
     tests := [colon_test 1; colon_test 2; colon_test 7];
     testgroups := [ {| group_id := 100; group_tests := [1; 2; 7];
                        select := Some 2 |} ];
     sets := [ {| rawset_id := 10; elements := [100];
                  scoreIndependent := "done"; scoreDependent := [] |};
               {| rawset_id := 20; elements := [7];
                  scoreIndependent := "done"; scoreDependent := [] |} ];
     infopages := [] |}.

(** what the first visit of [pooled_config] with the draws 0, 1 shows,
    and what is saved of it *)
Definition pooled_structure : JournalStructure :=
  {| js_sets :=
       [ {| testset_id := 10;
            testset_elements := [TEST (colon_test 1); TEST (colon_test 2)];
            scoreIndepentText := "done"; scoreDependentTexts := [] |};
         {| testset_id := 20;
            testset_elements := [TEST (colon_test 7)];
            scoreIndepentText := "done"; scoreDependentTexts := [] |} ] |}.

Definition pooled_minimal : JournalStructureMinimal :=
  {| course := "cs"; language := "en";
     min_sets := [ {| set := 10; min_tests := [1; 2] |};
                   {| set := 20; min_tests := [7] |} ] |}.

(** a course whose template yields the empty code, and a user of it
    with a result of an earlier [update] *)
Definition codeless_config : CourseConfig :=
  {| validationSchema := "()";
     tests := [colon_test 1; colon_test 2];
     testgroups := []; sets := []; infopages := [] |}.

Definition codeless_course : Course :=
  {| name := "cs";
     configs := [ {| lc_language := "en"; lc_config := codeless_config |} ] |}.

Definition stale_results : list TestResult :=
  [ {| res_id := "1"; res_score := 1; maxScore := 1;
       correctOptions := [0%nat]; wrongOptions := [] |} ].

Definition codeless_db : Db :=
  {| users := [ {| pin := 4713; journal := sample_journal;
                   result := {| result_tests := stale_results;
                                validationCode := None |} |} ];
     courses := [codeless_course] |}.

(** * Properties *)

(** ** Speed tests *)

Lemma SpeedIncl_step_unanswered i o v r :
  unanswered v = true -> SpeedIncl.step i o v r = r.
Proof. by destruct v. Qed.

Lemma SpeedOcc_step_unanswered i o v r :
  unanswered v = true -> SpeedOcc.step i o v r = Ret r.
Proof.
  unfold SpeedOcc.step. destruct v as [| | | |s|l]; try done.
  intros Hv. cbn [isArray negb]. destruct (Str.parseInt (index o)); [|done].
  cbn [unanswered] in Hv.
  destruct (js_elem (JArr l) 0); try done.
  destruct (js_elem (JArr l) 1); try done.
  by rewrite Hv.
Qed.

Lemma speed_loops_agree opts log : forall i r,
  forallb unanswered log = true ->
  SpeedIncl.loop opts i log r = SpeedOcc.loop opts i log r.
Proof.
  induction log as [|v log IH]; intros i r Hlog; [done|].
  cbn [forallb] in Hlog. apply andb_prop in Hlog as [Hv Hlog].
  cbn [SpeedIncl.loop SpeedOcc.loop]. destruct (opts !! i) as [o|]; [|done].
  rewrite SpeedIncl_step_unanswered, SpeedOcc_step_unanswered by done.
  cbn. by apply IH.
Qed.

(** The relative offsets recorded by the scan: both colons of "ab:cd:ef"
    are recorded at [2, 3), the second one relative to "cd:ef". *)
Lemma colons_occurences :
  SpeedOcc.find_occurences 9 "ab:cd:ef" ":" []
  = Ret [ {| SpeedOcc.start := 2; SpeedOcc.end_ := 3 |};
          {| SpeedOcc.start := 2; SpeedOcc.end_ := 3 |} ].
Proof. reflexivity. Qed.

(** C1.  The occurrence scorer on the option "ab:cd:ef" / ":" / index 1
    and a one-entry log: the span [5,6] of the second colon is recorded as
    wrong with score 0, the span [2,3] of the first colon is awarded, and
    the span [-1,-1] is recorded in neither list.  The first two outcomes
    are the reverse of what the scorer is meant to do. *)
Theorem speed_second_colon_scored_wrong :
  SpeedOcc.calculateResult [colons] [JArr [JNum 5; JNum 6]]
    = Ret {| score := 0; correct_idx := []; wrong_idx := [0%nat] |}
  /\ SpeedOcc.calculateResult [colons] [JArr [JNum 2; JNum 3]]
    = Ret {| score := 1; correct_idx := [0%nat]; wrong_idx := [] |}
  /\ SpeedOcc.calculateResult [colons] [JArr [JNum (-1); JNum (-1)]]
    = Ret {| score := 0; correct_idx := []; wrong_idx := [] |}.
Proof. repeat split; vm_compute; reflexivity. Qed.

(** C10, as stated, fails: on the span [2,3] the substring-inclusion scorer
    skips the entry while the occurrence scorer awards a point, and on the
    marked string ":" it is the other way round. *)
Lemma speed_scorers_differ :
  SpeedIncl.calculateResult (Some [colons]) [JArr [JNum 2; JNum 3]]
    = Ret {| score := 0; correct_idx := []; wrong_idx := [] |}
  /\ SpeedOcc.calculateResult [colons] [JArr [JNum 2; JNum 3]]
    = Ret {| score := 1; correct_idx := [0%nat]; wrong_idx := [] |}
  /\ SpeedIncl.calculateResult (Some [colons]) [JStr ":"]
    = Ret {| score := 1; correct_idx := [0%nat]; wrong_idx := [] |}
  /\ SpeedOcc.calculateResult [colons] [JStr ":"]
    = Ret {| score := 0; correct_idx := []; wrong_idx := [] |}.
Proof. repeat split; vm_compute; reflexivity. Qed.

(** ** The occurrence scan terminates exactly on non-empty patterns *)

Lemma substring_length_le (s : string) : forall n m,
  (String.length (String.substring n m s) <= String.length s - n)%nat.
Proof.
  induction s as [|c s IH]; intros n m.
  - destruct n, m; cbn; lia.
  - destruct n as [|n].
    + destruct m as [|m]; cbn; [lia|]. specialize (IH 0%nat m).
      rewrite Nat.sub_0_r in IH. lia.
    + cbn. apply IH.
Qed.

Lemma substring_all (s : string) :
  String.substring 0 (String.length s) s = s.
Proof. induction s as [|c s IH]; cbn; [done|]. by rewrite IH. Qed.

Lemma slice_0 (s : string) : Str.slice s 0 = s.
Proof. unfold Str.slice. rewrite Nat.sub_0_r. apply substring_all. Qed.

Lemma index_bound (pat s : string) (i : nat) :
  String.index 0 pat s = Some i ->
  (i + String.length pat <= String.length s)%nat.
Proof.
  intros Hi. destruct pat as [|c pat].
  - destruct s as [|c' s]; cbn in Hi.
    + injection Hi as <-. cbn. lia.
    + injection Hi as <-. cbn. lia.
  - pose proof (String.index_correct1 _ _ _ _ Hi) as Hsub.
    pose proof (substring_length_le s i (String.length (String c pat))) as Hle.
    rewrite Hsub in Hle. cbn [String.length] in *. lia.
Qed.

(** On a non-empty pattern without metacharacters every round of the scan
    shortens the text, so fuel beyond the length of the text is never used
    up: the scan returns. *)
Lemma find_occurences_returns (pat : string) (fuel : nat) :
  forall s acc,
    pat <> "" ->
    Str.all_chars (fun c => negb (Str.is_regex_meta c)) pat = true ->
    (String.length s < fuel)%nat ->
    exists occs, SpeedOcc.find_occurences fuel s pat acc = Ret occs.
Proof.
  induction fuel as [|fuel IH]; intros s acc Hpat Hlit Hlen; [lia|].
  cbn [SpeedOcc.find_occurences]. unfold Str.search. rewrite Hlit.
  unfold Str.indexOf. destruct (String.index 0 pat s) as [i|] eqn:Hi.
  - destruct (Z.eqb_spec (Z.of_nat i) (-1)); [lia|].
    apply IH; [done..|].
    pose proof (index_bound _ _ _ Hi) as Hb.
    assert (0 < String.length pat)%nat by (destruct pat; [done|cbn; lia]).
    unfold Str.slice.
    match goal with
    | |- (String.length (String.substring ?a ?b s) < _)%nat =>
        pose proof (substring_length_le s a b)
    end. lia.
  - cbn. by eexists.
Qed.

(** The empty pattern matches at offset 0 without shortening the text:
    the JavaScript loop never ends, whatever the fuel. *)
Lemma find_occurences_empty_pattern (fuel : nat) : forall s acc,
  SpeedOcc.find_occurences fuel s "" acc = Loops.
Proof.
  induction fuel as [|fuel IH]; intros s acc; [done|].
  cbn [SpeedOcc.find_occurences]. unfold Str.search, Str.indexOf.
  cbn [Str.all_chars].
  replace (String.index 0 "" s) with (Some 0%nat) by by destruct s.
  cbn [Z.eqb Z.of_nat String.length Z.add Z.to_nat].
  rewrite slice_0. apply IH.
Qed.

(** Hence the occurrence scorer evaluates every entry of the log when the
    [correct] strings are non-empty and free of metacharacters. *)
Lemma SpeedOcc_step_returns i o v r :
  correct o <> "" ->
  Str.all_chars (fun c => negb (Str.is_regex_meta c)) (correct o) = true ->
  returns (SpeedOcc.step i o v r) = true.
Proof.
  intros Hne Hlit. unfold SpeedOcc.step.
  destruct (negb (isArray v)); [done|].
  destruct (Str.parseInt (index o)); [|done].
  destruct (js_elem v 0); try done. destruct (js_elem v 1); try done.
  destruct (_ || _); [done|].
  destruct (find_occurences_returns (correct o) (S (String.length (text o)))
              (text o) [] Hne Hlit ltac:(lia)) as [occs ->].
  cbn [mbind outcome_bind obind]. by destruct (_ && _).
Qed.

(** ** [calculate] *)

Section ObjFacts.
Context {V : Type}.
Implicit Types (o : list (Z * V)) (k : Z) (v : V).

Lemma Obj_set_keys k v o :
  (Obj.set k v o).*1 = if bool_decide (k ∈ o.*1) then o.*1 else (o.*1 ++ [k])%list.
Proof.
  induction o as [|[k' v'] o IH]; [done|]. cbn [Obj.set].
  destruct (bool_decide_reflect (k' = k)) as [->|Hne].
  - cbn. by rewrite bool_decide_eq_true_2 by set_solver.
  - cbn. rewrite IH. destruct (bool_decide_reflect (k ∈ o.*1)) as [Hin|Hnin].
    + by rewrite bool_decide_eq_true_2 by set_solver.
    + by rewrite bool_decide_eq_false_2 by set_solver.
Qed.

Lemma Obj_set_NoDup k v o : NoDup o.*1 -> NoDup (Obj.set k v o).*1.
Proof.
  intros Hnd. rewrite Obj_set_keys. case_bool_decide; [done|].
  apply NoDup_app. split_and!; [done|set_solver|apply NoDup_singleton].
Qed.

Lemma Obj_set_elem k v o p : p ∈ Obj.set k v o -> p = (k, v) \/ p ∈ o.
Proof.
  induction o as [|[k' v'] o IH]; cbn [Obj.set]; [set_solver|].
  case_bool_decide; set_solver.
Qed.

Lemma Obj_set_key_in k v o : k ∈ (Obj.set k v o).*1.
Proof. rewrite Obj_set_keys. case_bool_decide; set_solver. Qed.

Lemma Obj_set_keys_mono k v o k' : k' ∈ o.*1 -> k' ∈ (Obj.set k v o).*1.
Proof. rewrite Obj_set_keys. case_bool_decide; set_solver. Qed.

Lemma filter_index_split o :
  filter (fun p => Obj.is_array_index p.1 = true) o
  ++ filter (fun p => Obj.is_array_index p.1 = false) o ≡ₚ o.
Proof.
  induction o as [|p o IH]; [done|].
  rewrite !filter_cons. destruct (Obj.is_array_index p.1) eqn:E.
  - rewrite decide_True by done. rewrite decide_False by done. cbn. by rewrite IH.
  - rewrite decide_False by done. rewrite decide_True by done.
    rewrite <- Permutation_middle. by rewrite IH.
Qed.

Lemma for_in_Permutation o : Obj.for_in o ≡ₚ o.
Proof.
  unfold Obj.for_in. rewrite merge_sort_Permutation. apply filter_index_split.
Qed.

End ObjFacts.

Lemma StronglySorted_filter {A} (R : relation A) (P : A -> Prop)
    `{forall x, Decision (P x)} (l : list A) :
  StronglySorted R l -> StronglySorted R (filter P l).
Proof.
  induction 1 as [|x l Hl IH Hx]; [constructor|].
  rewrite filter_cons. case_decide; [|done].
  constructor; [done|]. rewrite Forall_forall in Hx |- *.
  intros y [_ Hy]%list_elem_of_filter. by apply Hx.
Qed.

Section CalculateFacts.
Variable Factory_create : string -> SingleTest -> outcome (option TestInstance).
Variables (config : CourseConfig) (journal : Journal).

Lemma gather_tests_lacking ids singleTestID :
  singleTestID ∈ ids -> lacks_data config journal singleTestID ->
  forall testsData,
    gather_tests config journal ids testsData = None.
Proof.
  intros Hin Hbad. induction ids as [|i ids IH]; [by apply elem_of_nil in Hin|].
  intros testsData. cbn [gather_tests].
  apply elem_of_cons in Hin as [<-|Hin].
  - destruct Hbad as [->|(t & -> & -> & ->)]; done.
  - destruct (find_config config i) as [t|]; [|done].
    destruct (evaluated t); cbn [negb]; [|by apply IH].
    destruct (find_log journal i); [by apply IH|done].
Qed.

Lemma gather_sets_lacking ss s singleTestID :
  s ∈ ss -> singleTestID ∈ min_tests s -> lacks_data config journal singleTestID ->
  forall testsData, gather_sets config journal ss testsData = None.
Proof.
  intros Hs Hin Hbad. induction ss as [|s' ss IH]; [by apply elem_of_nil in Hs|].
  intros testsData. cbn [gather_sets].
  apply elem_of_cons in Hs as [<-|Hs].
  - by rewrite (gather_tests_lacking _ _ Hin Hbad).
  - destruct (gather_tests config journal (min_tests s') testsData); [|done].
    by apply IH.
Qed.

Lemma gather_tests_gathered ids : forall seen td td',
  gathered config seen td ->
  gather_tests config journal ids td = Some td' ->
  gathered config (seen ++ ids) td'.
Proof.
  induction ids as [|i ids IH]; intros seen td td' Hg Hrun.
  - cbn in Hrun. injection Hrun as <-. by rewrite app_nil_r.
  - cbn [gather_tests] in Hrun.
    destruct (find_config config i) as [t|] eqn:Ht; [|done].
    replace (seen ++ i :: ids)%list with ((seen ++ [i]) ++ ids)%list
      by by rewrite <- app_assoc.
    destruct (evaluated t) eqn:Hev; cbn [negb] in Hrun.
    + destruct (find_log journal i) as [l|] eqn:Hl; [|done].
      eapply IH; [|exact Hrun].
      destruct Hg as (Hnd & Hold & Hall). split_and!.
      * by apply Obj_set_NoDup.
      * intros k d [[= -> ->]|Hin]%Obj_set_elem.
        -- cbn. split_and!; [set_solver|done|done].
        -- destruct (Hold _ _ Hin) as (? & ? & ?). split_and!; [set_solver|done|done].
      * intros k t' [Hk|Hk%list_elem_of_singleton]%elem_of_app Hc Hevk.
        -- apply Obj_set_keys_mono. by eapply Hall.
        -- subst k. apply Obj_set_key_in.
    + eapply IH; [|exact Hrun].
      destruct Hg as (Hnd & Hold & Hall). split_and!; [done| |].
      * intros k d Hin. destruct (Hold _ _ Hin) as (? & ? & ?).
        split_and!; [set_solver|done|done].
      * intros k t' [Hk|Hk%list_elem_of_singleton]%elem_of_app Hc Hevk.
        -- by eapply Hall.
        -- subst k. congruence.
Qed.

Lemma gather_sets_gathered ss : forall seen td td',
  gathered config seen td ->
  gather_sets config journal ss td = Some td' ->
  gathered config (seen ++ structure_ids ss) td'.
Proof.
  induction ss as [|s ss IH]; intros seen td td' Hg Hrun.
  - cbn in Hrun. injection Hrun as <-. by rewrite app_nil_r.
  - cbn [gather_sets] in Hrun.
    destruct (gather_tests config journal (min_tests s) td) as [td1|] eqn:H1;
      [|done].
    unfold structure_ids. cbn [map concat]. rewrite app_assoc.
    eapply IH; [|exact Hrun]. by eapply gather_tests_gathered.
Qed.

Lemma score_tests_ids entries : forall acc rs,
  score_tests Factory_create entries acc = Ret rs ->
  res_id <$> rs
  = ((res_id <$> acc) ++ (Str.of_Z <$> (filter (fun p => known Factory_create p.2) entries).*1))%list.
Proof.
  induction entries as [|[k test] entries IH]; intros acc rs Hrun.
  - cbn in Hrun. injection Hrun as <-. by rewrite app_nil_r.
  - cbn [score_tests] in Hrun. rewrite filter_cons. cbn [snd].
    destruct (Factory_create (category (td_config test)) (td_config test))
      as [[inst|]| | |] eqn:HF; try done; cbn in Hrun.
    + rewrite decide_True by (by exists inst).
      destruct (inst_maxScore inst) as [m| | |]; try done; cbn in Hrun.
      destruct (inst_calculateResult inst (td_log test)) as [r| | |];
        try done; cbn in Hrun.
      rewrite (IH _ _ Hrun), fmap_app. cbn. by rewrite <- app_assoc.
    + rewrite decide_False; [by apply IH|].
      intros [inst Hinst]. unfold known in Hinst. congruence.
Qed.

Lemma find_config_None singleTestID :
  no_config config singleTestID -> find_config config singleTestID = None.
Proof.
  intros Hno. unfold find_config.
  destruct (List.find _ _) as [t|] eqn:Hf; [|done].
  apply find_some in Hf as [Hin Heq%bool_decide_eq_true].
  apply list_elem_of_In in Hin. by destruct (Hno t Hin).
Qed.

Lemma find_log_None singleTestID :
  no_log journal singleTestID -> find_log journal singleTestID = None.
Proof.
  unfold no_log, find_log. generalize (log_sets (log journal)).
  intros ss Hno. assert (Hgen : forall acc : option (list jsval), acc = None ->
    fold_left
      (fun testLog s =>
         match List.find (fun m => bool_decide (key m = singleTestID)) (maps s) with
         | Some m => Some (val m)
         | None => testLog
         end) ss acc = None); [|by apply Hgen].
  induction ss as [|s ss IH]; intros acc ->; [done|]. cbn [fold_left].
  apply IH; [set_solver|].
  destruct (List.find _ _) as [m|] eqn:Hf; [|done].
  apply find_some in Hf as [Hin Heq%bool_decide_eq_true].
  apply list_elem_of_In in Hin. destruct (Hno s m); [set_solver|done|done].
Qed.

(** C2.  If a set of the journal structure lists a test id that has no
    test in [config.tests], or whose test is to be evaluated and has no
    pair in the journal log, then [calculate] returns [null]: nothing of a
    result list is produced. *)
Theorem calculate_aborts_on_missing_data (s : TestSetMinimal) (singleTestID : Z) :
  s ∈ min_sets (structure journal) ->
  singleTestID ∈ min_tests s ->
  no_config config singleTestID
  \/ (exists t, find_config config singleTestID = Some t
                /\ evaluated t = true /\ no_log journal singleTestID) ->
  calculate Factory_create config journal = Ret None.
Proof.
  intros Hs Hin Hbad. unfold calculate.
  rewrite (gather_sets_lacking _ s singleTestID); [done..|].
  destruct Hbad as [Hc|(t & Ht & Hev & Hl)].
  - left. by apply find_config_None.
  - right. exists t. split_and!; [done..|]. by apply find_log_None.
Qed.

(** C7, amended.  [calculate] returns one flat list, not a list per set.
    Its ids are the decimal strings of keys [lo ++ hi] without
    repetition: [lo] holds the array-index keys in ascending order, [hi]
    the other keys; and a key is listed exactly when it is a test id of
    the structure whose test is evaluated and known to the factory. *)
Theorem calculate_flat_in_key_order (rs : list TestResult) :
  calculate Factory_create config journal = Ret (Some rs) ->
  exists lo hi : list Z,
    res_id <$> rs = Str.of_Z <$> (lo ++ hi)%list
    /\ NoDup (lo ++ hi)
    /\ Sorted Z.le lo
    /\ Forall (fun k => Obj.is_array_index k = true) lo
    /\ Forall (fun k => Obj.is_array_index k = false) hi
    /\ (forall k,
          k ∈ (lo ++ hi)%list <->
          k ∈ structure_ids (min_sets (structure journal))
          /\ exists t inst,
               find_config config k = Some t /\ evaluated t = true
               /\ Factory_create (category t) t = Ret (Some inst)).
Proof.
  unfold calculate. intros Hrun.
  destruct (gather_sets _ _ _ _) as [td|] eqn:Hg; [|done].
  destruct (score_tests _ _ _) as [rs'| | |] eqn:Hs; try done.
  cbn in Hrun. injection Hrun as ->.
  apply score_tests_ids in Hs. cbn [fmap list_fmap app] in Hs.
  apply (gather_sets_gathered _ [] []) in Hg as (Hnd & Hold & Hall).
  2:{ split_and!; [constructor|set_solver..]. }
  cbn [app] in Hold, Hall.
  set (srt := merge_sort Obj.key_le
                (filter (fun p : Z * TestData => Obj.is_array_index p.1 = true) td)).
  set (oth := filter (fun p : Z * TestData => Obj.is_array_index p.1 = false) td).
  exists (filter (fun p => known Factory_create p.2) srt).*1, (filter (fun p => known Factory_create p.2) oth).*1.
  assert (Hperm : (srt ++ oth)%list ≡ₚ td).
  { unfold srt. rewrite merge_sort_Permutation. apply filter_index_split. }
  split_and!.
  - rewrite Hs. unfold Obj.for_in. fold srt oth.
    by rewrite filter_app, fmap_app.
  - rewrite <- fmap_app, <- filter_app.
    eapply sublist_NoDup; [|apply fmap_sublist, sublist_filter].
    by rewrite Hperm.
  - apply StronglySorted_Sorted.
    apply (StronglySorted_fmap fst Obj.key_le); [done|].
    apply StronglySorted_filter. unfold srt.
    apply StronglySorted_merge_sort.
    + intros a b c. unfold Obj.key_le. lia.
    + intros a b. unfold Obj.key_le. lia.
  - apply Forall_forall. intros k [[k' d] [-> [_ Hin]%list_elem_of_filter]]%list_elem_of_fmap.
    unfold srt in Hin. rewrite merge_sort_Permutation in Hin.
    by apply list_elem_of_filter in Hin as [? _].
  - apply Forall_forall. intros k [[k' d] [-> [_ Hin]%list_elem_of_filter]]%list_elem_of_fmap.
    by apply list_elem_of_filter in Hin as [? _].
  - intros k. rewrite <- fmap_app, <- filter_app. split.
    + intros [[k' d] [-> [Hk Hin]%list_elem_of_filter]]%list_elem_of_fmap.
      rewrite Hperm in Hin. destruct (Hold _ _ Hin) as (Hids & Hcfg & Hev).
      split; [done|]. destruct Hk as [inst Hinst].
      by exists (td_config d), inst.
    + intros (Hids & t & inst & Hcfg & Hev & HF).
      specialize (Hall k t Hids Hcfg Hev).
      apply list_elem_of_fmap in Hall as [[k' d] [-> Hin]].
      apply list_elem_of_fmap. exists (k', d). split; [done|].
      apply list_elem_of_filter. split; [|by rewrite Hperm].
      destruct (Hold _ _ Hin) as (_ & Hcfg' & _). cbn in Hcfg, Hcfg'.
      assert (t = td_config d) as -> by congruence. by exists inst.
Qed.

End CalculateFacts.

(** C2 at the sample journal that lists test 3, unknown to the
    configuration. *)
Lemma calculate_aborts_on_missing_data_witness :
  calculate speed_factory sample_config dangling_journal = Ret None.
Proof.
  apply (calculate_aborts_on_missing_data speed_factory sample_config
           dangling_journal {| set := 10; min_tests := [2; 3] |} 3).
  - apply list_elem_of_here.
  - cbn. apply list_elem_of_further, list_elem_of_here.
  - left. intros t Ht. cbn in Ht.
    apply elem_of_cons in Ht as [->|Ht]; [done|].
    apply elem_of_cons in Ht as [->|Ht]; [done|].
    by apply elem_of_nil in Ht.
Defined.

(** C7, as stated, fails: for a structure of two sets holding test 2 and
    test 1, in this order, [calculate] returns one flat list with the
    result of test 1 before that of test 2. *)
Lemma calculate_not_grouped_nor_in_structure_order :
  calculate speed_factory sample_config sample_journal
    = Ret (Some [ {| res_id := "1"; res_score := 0; maxScore := 1;
                     correctOptions := []; wrongOptions := [0%nat] |};
                  {| res_id := "2"; res_score := 1; maxScore := 1;
                     correctOptions := [0%nat]; wrongOptions := [] |} ])
  /\ structure_ids (min_sets (structure sample_journal)) = [2; 1]
  /\ length (min_sets (structure sample_journal)) = 2%nat.
Proof. repeat split; vm_compute; reflexivity. Qed.

Lemma calculate_flat_in_key_order_witness :
  exists lo hi : list Z,
    ["1"; "2"] = Str.of_Z <$> (lo ++ hi)%list
    /\ NoDup (lo ++ hi)
    /\ Sorted Z.le lo
    /\ Forall (fun k => Obj.is_array_index k = true) lo
    /\ Forall (fun k => Obj.is_array_index k = false) hi
    /\ (forall k,
          k ∈ (lo ++ hi)%list <->
          k ∈ structure_ids (min_sets (structure sample_journal))
          /\ exists t inst,
               find_config sample_config k = Some t /\ evaluated t = true
               /\ speed_factory (category t) t = Ret (Some inst)).
Proof.
  apply (calculate_flat_in_key_order speed_factory sample_config sample_journal
           [ {| res_id := "1"; res_score := 0; maxScore := 1;
                correctOptions := []; wrongOptions := [0%nat] |};
             {| res_id := "2"; res_score := 1; maxScore := 1;
                correctOptions := [0%nat]; wrongOptions := [] |} ]).
  vm_compute. reflexivity.
Defined.

(** ** [generateValidationCode] *)

Lemma replace_token_digit fuel code a rnd :
  Str.includes code "[0-9]" = true ->
  replace_token (S fuel) "[0-9]" code (a :: rnd)
  = replace_token fuel "[0-9]" (Str.replace code "[0-9]" (digit a)) rnd.
Proof. intros H. cbn [replace_token]. rewrite H. reflexivity. Qed.

Lemma replace_token_done fuel token code rnd :
  Str.includes code token = false ->
  replace_token (S fuel) token code rnd = Ret (code, rnd).
Proof. intros H. cbn [replace_token]. by rewrite H. Qed.

Lemma handle_meta_done fuel token code rnd :
  Str.includes code token = false ->
  handle_meta (S fuel) token code rnd = Ret (code, rnd).
Proof. intros H. cbn [handle_meta]. by rewrite H. Qed.

Lemma handle_meta_percent fuel code rnd i m :
  String.index 0 "%" code = Some i ->
  (Z.of_nat i <? Z.of_nat (String.length code) - 1) = true ->
  Str.toNumber (Str.substr code (i + 1) (i + 2)) = Some m ->
  handle_meta (S fuel) "%" code rnd
  = '(number, rnd') ← reroll m rnd;
    handle_meta fuel "%"
      (Str.replace code ("%" +:+ Str.substr code (i + 1) (i + 2)) (Str.of_Z number))
      rnd'.
Proof.
  intros Hi Hlt Hm. cbn [handle_meta]. unfold Str.includes. rewrite Hi.
  cbn [default]. rewrite (bool_decide_eq_true_2 ("%" = "%")) by done.
  cbn [andb]. unfold Datatypes.id. rewrite Hlt, Hm. reflexivity.
Qed.

Lemma reroll_2 rnd :
  match reroll 2 rnd with
  | Ret (e, rnd') =>
      exists pre d, rnd = (pre ++ d :: rnd')%list /\ Forall odd_draw pre
                    /\ even_draw d /\ e = Z.of_nat (d mod 10)
  | Loops => Forall odd_draw rnd
  | _ => False
  end.
Proof.
  induction rnd as [|d rnd IH]; [by constructor|].
  cbn [reroll]. cbn [Z.eqb negb andb].
  destruct (Nat.even (d mod 10)) eqn:Hd.
  - replace (Z.rem (Z.of_nat (d mod 10)) 2 =? 0) with true.
    + exists [], d. by split_and!.
    + symmetry. apply Z.eqb_eq. apply Nat.even_spec in Hd as [k Hk].
      rewrite Hk, Nat2Z.inj_mul, Z.mul_comm. apply Z.rem_mul; lia.
  - replace (Z.rem (Z.of_nat (d mod 10)) 2 =? 0) with false.
    + destruct (reroll 2 rnd) as [[e rnd']| | |]; try done.
      * destruct IH as (pre & d' & -> & Hpre & Hd' & ->).
        exists (d :: pre), d'. split_and!; [done|by constructor|done|done].
      * by constructor.
    + symmetry. apply Z.eqb_neq. intros Hr.
      apply Z.rem_divide in Hr as [k Hk]; [|lia].
      assert (Nat.even (d mod 10) = true); [|congruence].
      apply Nat.even_spec. exists (Z.to_nat k). lia.
Qed.

Lemma draw_digit_cases (a : nat) :
  exists x, (a mod 10)%nat = x
    /\ x ∈ [0; 1; 2; 3; 4; 5; 6; 7; 8; 9]%nat.
Proof.
  exists (a mod 10)%nat. split; [done|].
  pose proof (Nat.mod_upper_bound a 10 ltac:(lia)) as Hlt.
  generalize dependent (a mod 10)%nat. intros x Hlt.
  do 10 (destruct x as [|x]; [set_solver|]).
  lia.
Qed.

Ltac split_digit a :=
  let x := fresh "x" in
  let Hx := fresh "Hx" in
  let Hin := fresh "Hin" in
  destruct (draw_digit_cases a) as (x & Hx & Hin);
  rewrite ?Hx;
  repeat (apply elem_of_cons in Hin as [->|Hin]);
  [..|by apply elem_of_nil in Hin].

Ltac gen_step :=
  first
    [ rewrite replace_token_digit by (vm_compute; reflexivity)
    | rewrite replace_token_done by (vm_compute; reflexivity)
    | rewrite handle_meta_done by (vm_compute; reflexivity) ];
  cbn [mbind outcome_bind obind for_tokens].

Lemma generate_two_draws a b rest :
  generateValidationCode "AA-[0-9][0-9]%2" (a :: b :: rest)
  = '(e, rnd') ← reroll 2 rest;
    Ret ("AA-" +:+ digit a +:+ digit b +:+ Str.of_Z e, rnd').
Proof.
  unfold generateValidationCode, replaceTokens, metaTokens.
  cbn [for_tokens].
  change (String.length "AA-[0-9][0-9]%2") with 15%nat.
  rewrite replace_token_digit by (vm_compute; reflexivity).
  unfold digit.
  split_digit a;
    (rewrite replace_token_digit by (vm_compute; reflexivity));
    unfold digit; split_digit b.
  all: repeat gen_step.
  all: erewrite handle_meta_percent by (vm_compute; reflexivity).
  all: pose proof (reroll_2 rest) as Hr.
  all: destruct (reroll 2 rest) as [[e rnd']| | |]; try done.
  all: cbn [mbind outcome_bind obind].
  all: destruct Hr as (pre & d & _ & _ & Hd & ->).
  all: unfold even_draw in Hd.
  all: split_digit d; rewrite ?Hx1 in Hd; try discriminate Hd.
  all: vm_compute; reflexivity.
Qed.

(** C8, amended.  Every run on the template "AA-[0-9][0-9]%2" that
    returns uses two draws [a], [b] for the digit tokens and then draws
    until a draw [d] gives an even digit; the code is the letters "AA", a
    dash and the three digits of [a], [b] and [d], six characters in all.
    The run is still drawing only when fewer than two draws were supplied
    or none of the later draws gives an even digit. *)
Theorem validation_code_three_digits (rnd : Rand) :
  match generateValidationCode "AA-[0-9][0-9]%2" rnd with
  | Ret (code, rnd') =>
      exists a b pre d,
        rnd = (a :: b :: pre ++ d :: rnd')%list
        /\ Forall odd_draw pre /\ even_draw d
        /\ code = "AA-" +:+ digit a +:+ digit b +:+ digit d
  | Loops => (length rnd < 2)%nat \/ Forall odd_draw (drop 2 rnd)
  | _ => False
  end.
Proof.
  destruct rnd as [|a [|b rest]].
  - vm_compute. left. lia.
  - unfold generateValidationCode, replaceTokens. cbn [for_tokens].
    change (String.length "AA-[0-9][0-9]%2") with 15%nat.
    rewrite replace_token_digit by (vm_compute; reflexivity).
    unfold digit. split_digit a; vm_compute; left; lia.
  - rewrite generate_two_draws. pose proof (reroll_2 rest) as Hr.
    destruct (reroll 2 rest) as [[e rnd']| | |]; try done;
      cbn [mbind outcome_bind obind].
    + destruct Hr as (pre & d & -> & Hpre & Hd & ->).
      exists a, b, pre, d. by split_and!.
    + by right.
Qed.

(** C8, as stated, fails: with the draws 1, 3, 0 the code is "AA-130",
    which has three digits after the dash (and 13 is odd). *)
Lemma validation_code_not_two_digits :
  generateValidationCode "AA-[0-9][0-9]%2" [1; 3; 0]%nat = Ret ("AA-130", [])
  /\ claimed_shape "AA-130" = false
  /\ String.length "AA-130" = 6%nat.
Proof. repeat split; vm_compute; reflexivity. Qed.

(** ** The fuel of the generator's loops is never what stops them *)

Lemma append_length (s1 s2 : string) :
  String.length (s1 +:+ s2) = (String.length s1 + String.length s2)%nat.
Proof.
  induction s1 as [|c s1 IH]; simpl; [done|]. by rewrite IH.
Qed.

Lemma substring_length (s : string) : forall n m,
  String.length (String.substring n m s)
  = Nat.min m (String.length s - n).
Proof.
  induction s as [|c s IH]; intros n m.
  - destruct n, m; cbn; lia.
  - destruct n as [|n].
    + destruct m as [|m]; cbn; [lia|]. rewrite IH. lia.
    + cbn. apply IH.
Qed.

Lemma substring_split (s : string) : forall i a b,
  String.substring i (a + b) s
  = String.substring i a s +:+ String.substring (i + a) b s.
Proof.
  induction s as [|c s IH]; intros i a b.
  - destruct i, a, b; reflexivity.
  - destruct i as [|i].
    + destruct a as [|a]; cbn [Nat.add String.substring].
      * reflexivity.
      * simpl.
        change (String c (String.substring 0 a s) +:+ String.substring a b s)
          with (String c (String.substring 0 a s
                          +:+ String.substring (0 + a) b s)).
        f_equal. apply (IH 0%nat).
    + cbn [Nat.add String.substring]. apply IH.
Qed.

Lemma replace_length (code pat r : string) (i : nat) :
  String.index 0 pat code = Some i ->
  String.length (Str.replace code pat r)
  = (String.length code - String.length pat + String.length r)%nat.
Proof.
  intros Hi. pose proof (index_bound _ _ _ Hi) as Hb.
  unfold Str.replace, Str.slice. rewrite Hi.
  rewrite !append_length, !substring_length. lia.
Qed.

Lemma digit_length (d : nat) :
  String.length (Str.of_Z (Z.of_nat (d mod 10))) = 1%nat.
Proof.
  destruct (draw_digit_cases d) as (x & -> & Hx).
  repeat (apply elem_of_cons in Hx as [->|Hx]; [reflexivity|]).
  by apply elem_of_nil in Hx.
Qed.

Lemma toLowerCase_length (s : string) :
  String.length (Str.toLowerCase s) = String.length s.
Proof. induction s as [|c s IH]; cbn; [done|]. by rewrite IH. Qed.

Lemma letter_length (s : string) (i : nat) :
  (String.length (Str.substring s (Z.of_nat i) (Z.of_nat i + 1)) <= 1)%nat.
Proof.
  unfold Str.substring, Str.clamp. rewrite substring_length.
  destruct (Z.ltb_spec (Z.of_nat i) 0), (Z.ltb_spec (Z.of_nat i + 1) 0); lia.
Qed.

Lemma replacement_length token rnd r rnd' :
  replacement token rnd = Ret (r, rnd') -> (String.length r <= 1)%nat.
Proof.
  unfold replacement, floor_random.
  repeat case_bool_decide; destruct rnd as [|d rnd]; try done;
    cbn [mbind outcome_bind obind]; intros [= <- <-]; cbn [String.length];
    try lia.
  - unfold random_index. cbn [Nat.eqb]. by rewrite digit_length.
  - apply letter_length.
  - rewrite toLowerCase_length. apply letter_length.
Qed.

Lemma replace_token_fuel (token : string) (fuel1 : nat) :
  forall fuel2 code rnd,
    (1 < String.length token)%nat ->
    (String.length code < fuel1)%nat -> (String.length code < fuel2)%nat ->
    replace_token fuel1 token code rnd = replace_token fuel2 token code rnd.
Proof.
  induction fuel1 as [|fuel1 IH]; intros fuel2 code rnd Htok H1 H2; [lia|].
  destruct fuel2 as [|fuel2]; [lia|]. cbn [replace_token].
  unfold Str.includes. destruct (String.index 0 token code) as [i|] eqn:Hi;
    [|done].
  destruct (replacement token rnd) as [[r rnd']| | |] eqn:Hr; try done.
  cbn [mbind outcome_bind obind].
  pose proof (replacement_length _ _ _ _ Hr).
  pose proof (index_bound _ _ _ Hi).
  pose proof (replace_length code token r i Hi).
  apply IH; [done|lia..].
Qed.

Lemma reroll_digit m rnd : forall number rnd',
  reroll m rnd = Ret (number, rnd') ->
  exists d : nat, number = Z.of_nat (d mod 10).
Proof.
  induction rnd as [|d rnd IH]; intros number rnd'; [done|].
  cbn [reroll]. destruct (_ && _); [|by apply IH].
  intros [= <- <-]. by exists d.
Qed.

Lemma handle_meta_stuck fuel token code rnd i :
  String.index 0 token code = Some i ->
  bool_decide (token = "%")
    && (Z.of_nat i <? Z.of_nat (String.length code) - 1) = false ->
  token <> "(" -> token <> ")" ->
  handle_meta fuel token code rnd = Loops.
Proof.
  intros Hi Hlast Hopen Hclose. induction fuel as [|fuel IH]; [done|].
  cbn [handle_meta]. unfold Str.includes. rewrite Hi.
  cbn [default from_option]. unfold Datatypes.id. rewrite Hlast.
  by rewrite !bool_decide_eq_false_2.
Qed.

(** the text after the first "%", as [handle_meta] cuts it out, is where
    [replace] finds it *)
Lemma modulo_found (code : string) (i : nat) :
  String.index 0 "%" code = Some i ->
  (i + 1 < String.length code)%nat ->
  exists j,
    String.index 0 ("%" +:+ Str.substr code (i + 1) (i + 2)) code = Some j
    /\ (1 <= String.length (Str.substr code (i + 1) (i + 2)))%nat.
Proof.
  intros Hi Hlt. set (modulo := Str.substr code (i + 1) (i + 2)).
  assert (Hlen : String.length modulo
                 = Nat.min (i + 2) (String.length code - (i + 1))).
  { unfold modulo, Str.substr. rewrite substring_length. lia. }
  destruct (String.index 0 ("%" +:+ modulo) code) as [j|] eqn:Hj;
    [exists j; split; [done|lia]|exfalso].
  apply (String.index_correct3 0 i) in Hj; [|done|lia].
  apply Hj. change (String.length ("%" +:+ modulo))
    with (1 + String.length modulo)%nat.
  rewrite substring_split.
  rewrite (String.index_correct1 _ _ _ _ Hi : String.substring i 1 code = "%").
  f_equal. rewrite Hlen. unfold modulo, Str.substr. f_equal; lia.
Qed.

Lemma handle_meta_fuel (token : string) (fuel1 : nat) :
  forall fuel2 code rnd,
    token ∈ metaTokens ->
    (String.length code < fuel1)%nat -> (String.length code < fuel2)%nat ->
    handle_meta fuel1 token code rnd = handle_meta fuel2 token code rnd.
Proof.
  induction fuel1 as [|fuel1 IH]; intros fuel2 code rnd Htok H1 H2; [lia|].
  destruct fuel2 as [|fuel2]; [lia|]. cbn [handle_meta].
  unfold Str.includes. destruct (String.index 0 token code) as [i|] eqn:Hi;
    [|done].
  cbn [default from_option]. unfold Datatypes.id.
  pose proof (index_bound _ _ _ Hi) as Hb.
  destruct (bool_decide (token = "%")
            && (Z.of_nat i <? Z.of_nat (String.length code) - 1)) eqn:Hpc.
  - apply andb_prop in Hpc as [->%bool_decide_eq_true Hlt%Z.ltb_lt].
    destruct (Str.toNumber _) as [m|]; [|done].
    destruct (reroll m rnd) as [[number rnd']| | |] eqn:Hr; try done.
    cbn [mbind outcome_bind obind].
    destruct (reroll_digit _ _ _ _ Hr) as [d ->].
    destruct (modulo_found code i Hi) as (j & Hj & Hm); [lia|].
    pose proof (replace_length code _ (Str.of_Z (Z.of_nat (d mod 10))) j Hj)
      as Hlen.
    pose proof (index_bound _ _ _ Hj) as Hbj.
    rewrite digit_length in Hlen. rewrite append_length in Hlen, Hbj.
    cbn [String.length] in Hlen, Hbj.
    apply IH; [done|lia..].
  - unfold metaTokens in Htok.
    apply elem_of_cons in Htok as [->|Htok].
    { rewrite !bool_decide_eq_false_2 by done.
      by rewrite !(handle_meta_stuck _ "%" code rnd i). }
    apply elem_of_cons in Htok as [->|Htok].
    { rewrite bool_decide_eq_true_2 by done.
      pose proof (replace_length code "(" "" i Hi) as Hlen.
      cbn [String.length] in Hlen, Hb. apply IH; [set_solver|lia..]. }
    apply elem_of_cons in Htok as [->|Htok]; [|by apply elem_of_nil in Htok].
    rewrite bool_decide_eq_false_2 by done.
    rewrite bool_decide_eq_true_2 by done.
    pose proof (replace_length code ")" "" i Hi) as Hlen.
    cbn [String.length] in Hlen, Hb. apply IH; [set_solver|lia..].
Qed.

(** Giving the loops of [generateValidationCode] more fuel than the
    length of the code changes no outcome: [Loops] there always means that
    the draws ran out or that the JavaScript loop itself never ends. *)
Lemma replace_tokens_more_fuel (extra : nat) (tokens : list string) :
  forall code rnd,
    tokens ⊆ replaceTokens ->
    for_tokens (fun fuel => replace_token (fuel + extra)) tokens code rnd
    = for_tokens replace_token tokens code rnd.
Proof.
  induction tokens as [|token tokens IH]; intros code rnd Hsub; [done|].
  cbn [for_tokens].
  rewrite (replace_token_fuel token _ (S (String.length code))).
  - destruct (replace_token _ token code rnd) as [[code' rnd']| | |];
      try done. cbn [mbind outcome_bind obind]. apply IH. set_solver.
  - assert (Hin : token ∈ replaceTokens) by set_solver.
    unfold replaceTokens in Hin.
    repeat (apply elem_of_cons in Hin as [->|Hin]; [cbn; lia|]).
    by apply elem_of_nil in Hin.
  - lia.
  - lia.
Qed.

Lemma handle_metas_more_fuel (extra : nat) (tokens : list string) :
  forall code rnd,
    tokens ⊆ metaTokens ->
    for_tokens (fun fuel => handle_meta (fuel + extra)) tokens code rnd
    = for_tokens handle_meta tokens code rnd.
Proof.
  induction tokens as [|token tokens IH]; intros code rnd Hsub; [done|].
  cbn [for_tokens].
  rewrite (handle_meta_fuel token _ (S (String.length code)));
    [|set_solver|lia..].
  destruct (handle_meta _ token code rnd) as [[code' rnd']| | |]; try done.
  cbn [mbind outcome_bind obind]. apply IH. set_solver.
Qed.

(** ** [lock] and [update] *)

Lemma served_head n faults :
  served (S n) faults ->
  exists faults', next_fault faults = (false, faults') /\ served n faults'.
Proof.
  unfold served. destruct faults as [|[] faults]; cbn.
  - exists []. split; [done|]. by rewrite take_nil.
  - set_solver.
  - exists faults. set_solver.
Qed.

Lemma has_code_spec u c :
  validationCode (result u) = Some c -> c <> "" -> has_code u = true.
Proof.
  unfold has_code. intros -> Hc. by rewrite bool_decide_eq_false_2.
Qed.

Lemma update_first_tests bodyPin code us :
  (fun u => result_tests (result u)) <$> update_first bodyPin (set_validationCode code) us
  = (fun u => result_tests (result u)) <$> us.
Proof.
  induction us as [|u us IH]; [done|]. cbn [update_first].
  case_bool_decide; cbn; [done|]. by rewrite IH.
Qed.

Lemma find_update_first bodyPin f us u :
  (forall u', pin (f u') = pin u') ->
  List.find (fun u => bool_decide (pin u = bodyPin)) us = Some u ->
  List.find (fun u => bool_decide (pin u = bodyPin)) (update_first bodyPin f us)
  = Some (f u).
Proof.
  intros Hpin. induction us as [|u' us IH]; [done|]. cbn [List.find update_first].
  destruct (bool_decide_reflect (pin u' = bodyPin)) as [Heq|Hne].
  - intros [= ->]. cbn [List.find]. by rewrite Hpin, bool_decide_eq_true_2.
  - intros Hf. cbn [List.find]. rewrite bool_decide_eq_false_2 by done. by apply IH.
Qed.

(** what a [lock] that answers with a code has found and done *)
Lemma lock_code_inv faults rnd db bodyPin r db1 rnd1 c :
  lock faults rnd db bodyPin = Ret (r, db1, rnd1) ->
  body r = BCode c ->
  exists user course_ cfg,
    findOne_user db bodyPin = Some user
    /\ findOne_course db (course (structure (journal user))) = Some course_
    /\ config_first course_ (language (structure (journal user))) = Some cfg
    /\ r = respond 200 (BCode c)
    /\ ((has_code user = true /\ validationCode (result user) = Some c
         /\ db1 = db /\ rnd1 = rnd)
        \/ (has_code user = false
            /\ db1 = updateOne db bodyPin (set_validationCode c))).
Proof.
  unfold lock. intros Hrun Hbody.
  destruct (next_fault faults) as [[] faults1]; [by simplify_eq|].
  destruct (findOne_user db bodyPin) as [user|] eqn:Hu; [|by simplify_eq].
  destruct (next_fault faults1) as [[] faults2]; [by simplify_eq|].
  destruct (findOne_course db _) as [course_|] eqn:Hco; [|by simplify_eq].
  destruct (config_first course_ _) as [cfg|] eqn:Hcfg; [|by simplify_eq].
  exists user, course_, cfg. split_and!; [done..| |].
  - destruct (has_code user).
    { injection Hrun as <- <- <-. cbn in Hbody. by rewrite Hbody. }
    destruct (generateValidationCode _ _) as [[code rnd']| | |]; try done.
    cbn in Hrun. destruct (next_fault faults2) as [[] ?];
      injection Hrun as <- <- <-; cbn in Hbody; [done|by rewrite Hbody].
  - destruct (has_code user) eqn:Hc.
    + left. injection Hrun as <- <- <-. cbn in Hbody. injection Hbody as <-.
      unfold has_code in Hc. destruct (validationCode (result user)); [|done].
      by split_and!.
    + right. split; [done|].
      destruct (generateValidationCode _ _) as [[code rnd']| | |]; try done.
      cbn in Hrun. destruct (next_fault faults2) as [[] ?];
        injection Hrun as <- <- <-; cbn in Hbody; [done|].
      by injection Hbody as <-.
Qed.

Lemma lock_returns_existing faults rnd db bodyPin user c course_ cfg :
  served 2 faults ->
  findOne_user db bodyPin = Some user ->
  validationCode (result user) = Some c -> c <> "" ->
  findOne_course db (course (structure (journal user))) = Some course_ ->
  config_first course_ (language (structure (journal user))) = Some cfg ->
  lock faults rnd db bodyPin = Ret (respond 200 (BCode c), db, rnd).
Proof.
  intros (f1 & Hf1 & (f2 & Hf2 & _)%served_head)%served_head Hu Hc Hne Hco Hcfg.
  unfold lock. rewrite Hf1, Hu, Hf2, Hco, Hcfg.
  by rewrite (has_code_spec _ c), Hc.
Qed.

Lemma lock_keeps_tests faults rnd db bodyPin r db1 rnd1 :
  lock faults rnd db bodyPin = Ret (r, db1, rnd1) ->
  stored_tests db1 = stored_tests db.
Proof.
  unfold lock. intros Hrun.
  destruct (next_fault faults) as [[] faults1]; [by simplify_eq|].
  destruct (findOne_user db bodyPin) as [user|]; [|by simplify_eq].
  destruct (next_fault faults1) as [[] faults2]; [by simplify_eq|].
  destruct (findOne_course db _) as [course_|]; [|by simplify_eq].
  destruct (config_first course_ _) as [cfg|]; [|by simplify_eq].
  destruct (has_code user); [by simplify_eq|].
  destruct (generateValidationCode _ _) as [[code rnd']| | |]; try done.
  cbn in Hrun. destruct (next_fault faults2) as [[] ?]; simplify_eq; [done|].
  apply update_first_tests.
Qed.

(** C5, amended.  (1) When the user of the pin has a non-empty validation
    code and the user's course and its configuration for the journal's
    language are found, [lock] answers 200 with that code and changes
    neither the database nor the random state.  (2) When a first [lock]
    has answered with a non-empty code, a second [lock] on the resulting
    database answers 200 with the same code and changes nothing.  (3) No
    [lock] changes the stored tests of any user. *)
Theorem lock_idempotent (db : Db) (bodyPin : Z) :
  (forall faults rnd user c course_ cfg,
      served 2 faults ->
      findOne_user db bodyPin = Some user ->
      validationCode (result user) = Some c -> c <> "" ->
      findOne_course db (course (structure (journal user))) = Some course_ ->
      config_first course_ (language (structure (journal user))) = Some cfg ->
      lock faults rnd db bodyPin = Ret (respond 200 (BCode c), db, rnd))
  /\ (forall faults1 rnd1 r1 db1 rnd1' c faults2 rnd2,
        lock faults1 rnd1 db bodyPin = Ret (r1, db1, rnd1') ->
        body r1 = BCode c -> c <> "" ->
        served 2 faults2 ->
        r1 = respond 200 (BCode c)
        /\ lock faults2 rnd2 db1 bodyPin = Ret (respond 200 (BCode c), db1, rnd2))
  /\ (forall faults rnd r db1 rnd',
        lock faults rnd db bodyPin = Ret (r, db1, rnd') ->
        stored_tests db1 = stored_tests db).
Proof.
  split_and!.
  - intros. by eapply lock_returns_existing.
  - intros faults1 rnd1 r1 db1 rnd1' c faults2 rnd2 Hrun Hbody Hne Hserved.
    destruct (lock_code_inv _ _ _ _ _ _ _ _ Hrun Hbody)
      as (user & course_ & cfg & Hu & Hco & Hcfg & -> & Hcase).
    split; [done|].
    destruct Hcase as [(_ & Hc & -> & _)|(_ & ->)].
    + by eapply lock_returns_existing.
    + eapply (lock_returns_existing _ _ _ _ (set_validationCode c user));
        [done| |done|done|exact Hco|exact Hcfg].
      unfold findOne_user, updateOne. cbn [users].
      by apply find_update_first.
  - intros. by eapply lock_keeps_tests.
Qed.

Lemma served_nil n : served n [].
Proof. unfold served. rewrite take_nil. apply not_elem_of_nil. Qed.

Lemma lock_idempotent_witness :
  lock [] [] sample_db 4711
    = Ret (respond 200 (BCode "AA-130"), sample_db, [])
  /\ (respond 200 (BCode "AA-572") = respond 200 (BCode "AA-572")
      /\ lock [] [] (updateOne sample_db 4712 (set_validationCode "AA-572")) 4712
         = Ret (respond 200 (BCode "AA-572"),
                updateOne sample_db 4712 (set_validationCode "AA-572"), []))
  /\ stored_tests (updateOne sample_db 4712 (set_validationCode "AA-572"))
     = stored_tests sample_db.
Proof.
  split; [|split].
  - apply (proj1 (lock_idempotent sample_db 4711) [] [] locked_user "AA-130"
             cs_course sample_config);
      [apply served_nil|reflexivity|reflexivity|discriminate
      |reflexivity|reflexivity].
  - apply (proj1 (proj2 (lock_idempotent sample_db 4712)) [] [5; 7; 2]%nat
             (respond 200 (BCode "AA-572"))
             (updateOne sample_db 4712 (set_validationCode "AA-572"))
             [] "AA-572" [] []);
      [vm_compute; reflexivity|reflexivity|discriminate|apply served_nil].
  - apply (proj2 (proj2 (lock_idempotent sample_db 4712)) [] [5; 7; 2]%nat
             (respond 200 (BCode "AA-572"))
             (updateOne sample_db 4712 (set_validationCode "AA-572")) []).
    vm_compute; reflexivity.
Defined.

(** C5, as stated, fails: the user of pin 4711 has the validation code
    "AA-130", but the user's course is not in the database, and [lock]
    answers 404 instead of the code. *)
Lemma lock_existing_code_not_returned :
  findOne_user orphan_db 4711 = Some locked_user
  /\ validationCode (result locked_user) = Some "AA-130"
  /\ lock [] [] orphan_db 4711
     = Ret (respond 404 (BError E_DBQUERY), orphan_db, []).
Proof. repeat split. Qed.

Section UpdateFacts.
Variable Factory_create : string -> SingleTest -> outcome (option TestInstance).

(** C6, amended.  For a pin whose user has a non-empty validation code, [update]
    never changes the database, whatever the fault schedule; and when the
    lookup of the user is served it answers 200 with the stored tests,
    without calculating anything. *)
Theorem update_locked_leaves_results (faults : list bool) (db : Db)
    (bodyPin : Z) (user : User) (c : string) :
  findOne_user db bodyPin = Some user ->
  validationCode (result user) = Some c -> c <> "" ->
  (exists r, update Factory_create faults db bodyPin = Ret (r, db))
  /\ (served 1 faults ->
      update Factory_create faults db bodyPin
      = Ret (respond 200 (BTests (result_tests (result user))), db)).
Proof.
  intros Hu Hc Hne. unfold update.
  destruct (next_fault faults) as [fault faults1] eqn:Hf.
  rewrite Hu, (has_code_spec _ c) by done.
  split.
  - destruct fault; by eexists.
  - intros (f1 & Hf1 & _)%served_head. rewrite Hf in Hf1.
    by injection Hf1 as -> _.
Qed.

End UpdateFacts.

Lemma update_locked_leaves_results_witness :
  (exists r, update speed_factory [] sample_db 4711 = Ret (r, sample_db))
  /\ (served 1 [] ->
      update speed_factory [] sample_db 4711
      = Ret (respond 200 (BTests (result_tests (result locked_user))), sample_db)).
Proof.
  apply (update_locked_leaves_results speed_factory [] sample_db 4711
           locked_user "AA-130"); [reflexivity|reflexivity|discriminate].
Defined.

(** ** The journal log and its stored form *)

Lemma Obj_set_fresh {V} (k : Z) (v : V) (o : list (Z * V)) :
  k ∉ o.*1 -> Obj.set k v o = (o ++ [(k, v)])%list.
Proof.
  induction o as [|[k' v'] o IH]; [done|]. cbn [Obj.set fmap list_fmap fst].
  intros Hk. rewrite bool_decide_eq_false_2 by set_solver.
  rewrite IH by set_solver. done.
Qed.

Lemma rebuild_map (m2 : JsMap.t (list jsval)) :
  forall m1 : JsMap.t (list jsval),
  NoDup (m1 ++ m2)%list.*1 ->
  fold_left (fun protoSet obj => JsMap.set (key obj) (val obj) protoSet)
    (map (fun '(k, v) => {| key := k; val := v |}) m2) m1
  = (m1 ++ m2)%list.
Proof.
  induction m2 as [|[k v] m2 IH]; intros m1 Hnd; [by rewrite app_nil_r|].
  cbn [map fold_left key val]. unfold JsMap.set.
  rewrite fmap_app in Hnd. apply NoDup_app in Hnd as (H1 & H12 & H2).
  rewrite Obj_set_fresh by set_solver.
  rewrite IH.
  - by rewrite <- app_assoc.
  - rewrite <- app_assoc, fmap_app.
    apply NoDup_app. split_and!; [done|set_solver|done].
Qed.

(** Whatever is stored, what [extractSavedJournalLog] builds are maps. *)
Lemma extract_is_map (protoObj : SavedLog) :
  Forall JsMap.is_map (jl_sets (extractSavedJournalLog protoObj)).
Proof.
  unfold extractSavedJournalLog. cbn [jl_sets]. apply Forall_forall.
  intros m [s [-> _]]%list_elem_of_fmap.
  assert (Hgen : forall (l : list LogPair) (acc : JsMap.t (list jsval)),
             JsMap.is_map acc ->
             JsMap.is_map
               (fold_left
                  (fun protoSet obj => JsMap.set (key obj) (val obj) protoSet)
                  l acc)).
  { induction l as [|obj l IH]; intros acc Hacc; [done|].
    cbn [fold_left]. apply IH. by apply Obj_set_NoDup. }
  apply Hgen. constructor.
Qed.

(** C9.  For every journal log whose sets are maps (no key twice, as in
    any JavaScript [Map]), reading back the stored form gives the log
    itself: the same sets in the same order, each with the same entries
    in the same order. *)
Theorem journal_log_round_trip (journalLog : JournalLog) :
  Forall JsMap.is_map (jl_sets journalLog) ->
  extractSavedJournalLog (prepareJournalLogForSaving journalLog) = journalLog.
Proof.
  destruct journalLog as [ms]. unfold extractSavedJournalLog,
    prepareJournalLogForSaving. cbn [jl_sets log_sets]. intros Hmaps. f_equal.
  induction Hmaps as [|m ms Hm Hms IH]; [done|].
  cbn [map maps]. f_equal; [|exact IH].
  by apply (rebuild_map m []).
Qed.

Lemma journal_log_round_trip_witness :
  extractSavedJournalLog (prepareJournalLogForSaving sample_journal_log)
  = sample_journal_log.
Proof.
  apply (journal_log_round_trip sample_journal_log).
  unfold JsMap.is_map. cbn.
  repeat constructor; set_solver.
Defined.

(** ** [createJournalStructure] with a minimal structure *)

Lemma resolve_groups_resume all raw groups : forall acc,
  exists acc',
    forall rnd : Rand,
      resolve_groups all (Some raw) groups rnd acc = Ret (acc', rnd).
Proof.
  induction groups as [|g groups IH]; intros acc.
  - by exists acc.
  - destruct (IH (<[group_id g :=
        (all !!.) <$> filter (.∈ raw) (group_tests g)]> acc)) as [acc' Hacc'].
    exists acc'. intros rnd. cbn [resolve_groups resolve_group].
    cbn [mbind outcome_bind obind]. apply Hacc'.
Qed.

Lemma expand_group_settled pages ts : settled (expand_group pages ts).
Proof.
  induction ts as [|[t|] ts IH]; cbn [expand_group]; [done| |done].
  by destruct (expand_group pages ts).
Qed.

Lemma expand_elements_settled all pages groups els :
  settled (expand_elements all pages groups els).
Proof.
  induction els as [|e els IH]; cbn [expand_elements]; [done|].
  unfold expand_element. destruct (all !! e); cbn [mbind outcome_bind obind].
  - by destruct (expand_elements all pages groups els).
  - destruct (groups !! e) as [ts|]; [|done].
    pose proof (expand_group_settled pages ts).
    destruct (expand_group pages ts); try done; cbn [mbind outcome_bind obind].
    by destruct (expand_elements all pages groups els).
Qed.

Lemma build_sets_settled all pages groups rawSets :
  settled (build_sets all pages groups rawSets).
Proof.
  induction rawSets as [|s rawSets IH]; cbn [build_sets]; [done|].
  pose proof (expand_elements_settled all pages groups (elements s)).
  destruct (expand_elements all pages groups (elements s)); try done.
  cbn [mbind outcome_bind obind].
  by destruct (build_sets all pages groups rawSets).
Qed.

(** ** [createJournalStructure] without a minimal structure *)

Section Selection.
Variables (all : gmap Z SingleTest) (k : Z) (gtests : list Z).
Let n := length gtests.

Lemma random_index_lt d : (0 < n -> random_index n d < n)%nat.
Proof.
  intros Hn. unfold random_index.
  destruct (Nat.eqb_spec n 0); [lia|]. by apply Nat.mod_upper_bound.
Qed.

Lemma select_loop_sound rnd : forall indices ts rnd',
  (0 < n)%nat -> NoDup indices -> Forall (fun i => (i < n)%nat) indices ->
  Z.of_nat (length indices) <= k ->
  select_loop all k gtests rnd indices (pick all gtests <$> indices)
  = Ret (ts, rnd') ->
  exists indices',
    Z.of_nat (length indices') = k /\ NoDup indices'
    /\ Forall (fun i => (i < n)%nat) indices'
    /\ ts = pick all gtests <$> indices'.
Proof.
  induction rnd as [|d rnd IH]; intros indices ts rnd' Hn Hnd Hlt Hlen.
  - cbn [select_loop]. destruct (Z.ltb_spec (Z.of_nat (length indices)) k);
      cbn [negb]; [done|]. intros [= <- <-].
    exists indices. split_and!; [lia|done..].
  - cbn [select_loop]. destruct (Z.ltb_spec (Z.of_nat (length indices)) k);
      cbn [negb].
    + fold n. case_bool_decide as Hin.
      * by apply IH.
      * intros Hrun.
        apply (IH (indices ++ [random_index n d])%list ts rnd'); [done| | | |].
        -- apply NoDup_app. split_and!; [done|set_solver|apply NoDup_singleton].
        -- apply Forall_app. split; [done|].
           apply Forall_singleton. by apply random_index_lt.
        -- rewrite length_app. cbn. lia.
        -- rewrite fmap_app. exact Hrun.
    + intros [= <- <-]. exists indices. split_and!; [lia|done..].
Qed.

Lemma distinct_positions_bound indices :
  NoDup indices -> Forall (fun i => (i < n)%nat) indices ->
  (length indices <= n)%nat.
Proof.
  intros Hnd Hlt. transitivity (length (seq 0 n)); [|by rewrite length_seq].
  apply submseteq_length, NoDup_submseteq; [done|].
  intros i Hi. apply elem_of_seq. rewrite Forall_forall in Hlt.
  specialize (Hlt i Hi). lia.
Qed.

Lemma select_loop_returns rnd : forall indices temp,
  NoDup indices ->
  k <= Z.of_nat (length indices)
       + Z.of_nat (size (drawn_positions n rnd ∖ list_to_set indices)) ->
  returns (select_loop all k gtests rnd indices temp) = true.
Proof.
  induction rnd as [|d rnd IH]; intros indices temp Hnd Hk.
  - cbn [select_loop]. unfold drawn_positions in Hk. cbn in Hk.
    rewrite difference_disjoint_L in Hk by set_solver.
    rewrite size_empty in Hk.
    destruct (Z.ltb_spec (Z.of_nat (length indices)) k); [lia|done].
  - cbn [select_loop].
    destruct (Z.ltb_spec (Z.of_nat (length indices)) k); [|done].
    cbn [negb]. fold n. unfold drawn_positions in Hk.
    cbn [fmap list_fmap list_to_set] in Hk.
    fold (drawn_positions n rnd) in Hk.
    case_bool_decide as Hin.
    + apply IH; [done|].
      replace (({[random_index n d]} ∪ drawn_positions n rnd)
                 ∖ list_to_set indices)
        with (drawn_positions n rnd ∖ (list_to_set indices : gset nat))
        in Hk by set_solver.
      done.
    + apply IH.
      * apply NoDup_app. split_and!; [done|set_solver|apply NoDup_singleton].
      * rewrite length_app. cbn [length].
        assert (size (({[random_index n d]} ∪ drawn_positions n rnd)
                        ∖ list_to_set indices)
                <= 1 + size (drawn_positions n rnd
                               ∖ list_to_set (indices ++ [random_index n d])))%nat;
          [|lia].
        set (B := drawn_positions n rnd
                    ∖ list_to_set (indices ++ [random_index n d])).
        transitivity (size ({[random_index n d]} ∪ B)).
        -- apply subseteq_size. unfold B. rewrite list_to_set_app_L.
           intros x. destruct (decide (x = random_index n d)); set_solver.
        -- rewrite size_union_alt, size_singleton.
           apply Nat.add_le_mono_l, subseteq_size. set_solver.
Qed.

End Selection.

(** The whole build on the sample course with the draws 4, 4, 3: the
    positions 1 and 0 are chosen, test 2 comes with its info page. *)
Lemma fresh_structure_example :
  createJournalStructure group_config None [4; 4; 3]%nat
  = Ret ({| js_sets :=
              [ {| testset_id := 10;
                   testset_elements :=
                     [ INFOPAGE {| page_id := 500; page_text := "read first";
                                   belongs := [2] |};
                       TEST (colon_test 2); TEST (colon_test 1) ];
                   scoreIndepentText := "done";
                   scoreDependentTexts := [] |} ] |}, []).
Proof. vm_compute. reflexivity. Qed.

(** * More properties *)

Lemma StronglySorted_snoc_lt (l : list nat) (k : nat) :
  StronglySorted lt l -> (forall i, i ∈ l -> (i < k)%nat) ->
  StronglySorted lt (l ++ [k]).
Proof.
  induction l as [|a l IH]; intros Hs Hlt; cbn.
  - repeat constructor.
  - apply StronglySorted_inv in Hs as [Hs Ha]. constructor.
    + apply IH; [done|]. intros i Hi. apply Hlt. by right.
    + apply Forall_app. split; [done|]. constructor; [|done].
      apply Hlt. by left.
Qed.

Lemma scored_upto_empty : scored_upto 0 empty_result.
Proof.
  repeat split; cbn; try constructor.
  - intros i Hi. by apply elem_of_nil in Hi.
  - intros i Hi. by apply elem_of_nil in Hi.
Qed.

Lemma scored_upto_step (k : nat) (r r' : Result) :
  scored_upto k r ->
  r' = r \/ r' = award k r \/ r' = penalise k r ->
  scored_upto (S k) r'.
Proof.
  intros (Hsc & Hc & Hw & Hdis & Hlt) [-> | [-> | ->]]; unfold scored_upto; cbn.
  - split_and!; try done. intros i Hi. specialize (Hlt i Hi). lia.
  - split_and!; try done.
    + rewrite length_app. cbn. lia.
    + apply StronglySorted_snoc_lt; [done|]. intros i Hi. apply Hlt.
      apply elem_of_app. by left.
    + intros i [Hi| ->%list_elem_of_singleton]%elem_of_app; [by apply Hdis|].
      intros Hk. assert (k < k)%nat; [|lia]. apply Hlt, elem_of_app. by right.
    + intros i Hi. rewrite <- (assoc_L app) in Hi.
      apply elem_of_app in Hi as [Hi|Hi].
      * assert (i < k)%nat; [|lia]. apply Hlt, elem_of_app. by left.
      * apply elem_of_cons in Hi as [->|Hi]; [lia|].
        assert (i < k)%nat; [|lia]. apply Hlt, elem_of_app. by right.
  - split_and!; try done.
    + apply StronglySorted_snoc_lt; [done|]. intros i Hi. apply Hlt.
      apply elem_of_app. by right.
    + intros i Hi [Hw'| ->%list_elem_of_singleton]%elem_of_app;
        [by apply (Hdis i)|].
      assert (k < k)%nat; [|lia]. apply Hlt, elem_of_app. by left.
    + intros i Hi. rewrite (assoc_L app) in Hi.
      apply elem_of_app in Hi as [Hi| ->%list_elem_of_singleton]; [|lia].
      specialize (Hlt i Hi). lia.
Qed.

Lemma SpeedIncl_step_cases i o v r :
  SpeedIncl.step i o v r = r \/ SpeedIncl.step i o v r = award i r
  \/ SpeedIncl.step i o v r = penalise i r.
Proof.
  unfold SpeedIncl.step. destruct v; auto.
  destruct (Str.includes _ _); auto. destruct (_ <? _)%nat; auto.
Qed.

Lemma SpeedOcc_step_cases i o v r r' :
  SpeedOcc.step i o v r = Ret r' ->
  r' = r \/ r' = award i r \/ r' = penalise i r.
Proof.
  unfold SpeedOcc.step. destruct (negb (isArray v)); [intros [= <-]; auto|].
  destruct (Str.parseInt (index o)); [|intros [= <-]; auto].
  destruct (js_elem v 0); try (intros [= <-]; auto).
  destruct (js_elem v 1); try (intros [= <-]; auto).
  destruct (_ || _); [intros [= <-]; auto|].
  destruct (SpeedOcc.find_occurences _ _ _ _); try done.
  cbn. destruct (_ && _); intros [= <-]; auto.
Qed.

Lemma SpeedIncl_loop_scored opts log : forall k r r',
  scored_upto k r ->
  SpeedIncl.loop opts k log r = Ret r' ->
  scored_upto (k + length log) r' /\ (k + length log <= length opts)%nat
  \/ (log = [] /\ r' = r).
Proof.
  induction log as [|v log IH]; intros k r r' Hinv Hrun; [right; by injection Hrun|].
  left. cbn [SpeedIncl.loop] in Hrun.
  destruct (opts !! k) as [o|] eqn:Ho; [|done].
  apply lookup_lt_Some in Ho.
  apply IH in Hrun as [[H1 H2] | [-> ->]].
  - cbn [length]. by rewrite Nat.add_succ_r.
  - cbn [length]. rewrite Nat.add_1_r. split; [|lia]. 
    eapply scored_upto_step; [done|]. apply SpeedIncl_step_cases.
  - eapply scored_upto_step; [done|]. apply SpeedIncl_step_cases.
Qed.

(** ** The substring-inclusion scorer, entry by entry *)

Lemma incl_result_step opts log k o v :
  opts !! k = Some o -> log !! k = Some v ->
  SpeedIncl.step k o v (incl_result opts log k) = incl_result opts log (S k).
Proof.
  intros Ho Hv.
  assert (marked_correct opts log k
          = match v with JStr s => Str.includes s (correct o) | _ => false end)
    as Hc by (unfold marked_correct; rewrite Ho, Hv; by destruct v).
  assert (marked_wrong opts log k
          = match v with
            | JStr s => negb (Str.includes s (correct o))
                        && (0 <? String.length s)%nat
            | _ => false
            end)
    as Hw by (unfold marked_wrong; rewrite Ho, Hv; by destruct v).
  unfold incl_result. rewrite !seq_S, !List.filter_app.
  cbn [List.filter Nat.add]. rewrite Hc, Hw. unfold SpeedIncl.step.
  destruct v as [| | | |s|]; rewrite ?app_nil_r; try done.
  destruct (Str.includes s (correct o)); cbn [negb andb].
  - unfold award; cbn. rewrite app_nil_r, length_app. cbn.
    f_equal. lia.
  - destruct (0 <? String.length s)%nat; unfold penalise; cbn;
      by rewrite ?app_nil_r.
Qed.

Lemma SpeedIncl_loop_spec opts log : forall rest k,
  drop k log = rest -> (k <= length log)%nat -> (k <= length opts)%nat ->
  SpeedIncl.loop opts k rest (incl_result opts log k)
  = if decide (length log <= length opts)%nat
    then Ret (incl_result opts log (length log))
    else Throws.
Proof.
  induction rest as [|v rest IH]; intros k Hdrop Hk Hko.
  - cbn. apply drop_nil_inv in Hdrop. assert (k = length log) as -> by lia.
    by rewrite decide_True.
  - assert (log !! k = Some v) as Hv.
    { rewrite <- (Nat.add_0_r k), <- lookup_drop, Hdrop. done. }
    assert (drop (S k) log = rest) as Hdrop'.
    { replace (S k) with (k + 1)%nat by lia.
      rewrite <- drop_drop, Hdrop. done. }
    apply lookup_lt_Some in Hv as Hlt.
    cbn [SpeedIncl.loop]. destruct (opts !! k) as [o|] eqn:Ho.
    + rewrite (incl_result_step _ _ _ _ _ Ho Hv).
      apply lookup_lt_Some in Ho. apply IH; [done|lia..].
    + apply lookup_ge_None in Ho. rewrite decide_False by lia. done.
Qed.

(** X2.  The substring-inclusion scorer, in full: on a log longer than the
    list of options it throws; otherwise it returns the positions whose
    entry is a string including the option's [correct] string as correct,
    the positions whose entry is a non-empty string not including it as
    wrong, both in ascending order, and the number of the former as the
    score.  Entries that are not strings, and empty strings that do not
    include [correct], are in neither list. *)
Theorem SpeedIncl_calculateResult_spec (opts : list SpeedOption)
    (log : list jsval) :
  SpeedIncl.calculateResult (Some opts) log
  = if decide (length log <= length opts)%nat
    then Ret {| score :=
                  Z.of_nat (length (List.filter (marked_correct opts log)
                                      (seq 0 (length log))));
                correct_idx :=
                  List.filter (marked_correct opts log) (seq 0 (length log));
                wrong_idx :=
                  List.filter (marked_wrong opts log) (seq 0 (length log)) |}
    else Throws.
Proof.
  unfold SpeedIncl.calculateResult.
  change empty_result with (incl_result opts log 0).
  apply SpeedIncl_loop_spec; [done|lia..].
Qed.

(** ** The occurrence scorer: when it returns *)

Lemma SpeedOcc_loop_literal opts : forall log k r,
  literal_options opts ->
  if decide (k + length log <= length opts)%nat
  then returns (SpeedOcc.loop opts k log r) = true
  else (k <= length opts)%nat -> SpeedOcc.loop opts k log r = Throws.
Proof.
  intros log k r Hlit. revert k r.
  induction log as [|v log IH]; intros k r.
  - cbn. destruct (decide _); [done|lia].
  - cbn [SpeedOcc.loop length]. destruct (opts !! k) as [o|] eqn:Ho.
    + pose proof (proj1 (Forall_forall _ _) Hlit o
                    (list_elem_of_lookup_2 _ _ _ Ho)) as [Hne Hl].
      pose proof (SpeedOcc_step_returns k o v r Hne Hl) as Hs.
      destruct (SpeedOcc.step k o v r) as [r'| | |]; try done. cbn.
      specialize (IH (S k) r'). apply lookup_lt_Some in Ho.
      destruct (decide (S k + length log <= length opts)%nat).
      * rewrite decide_True by lia. done.
      * rewrite decide_False by lia. intros _. apply IH. lia.
    + apply lookup_ge_None in Ho. rewrite decide_False by lia. done.
Qed.

(** X3.  When every option's [correct] string is non-empty and free of
    regular-expression metacharacters, the occurrence scorer returns
    exactly when the log is no longer than the list of options; on a
    longer log it throws. *)
Theorem SpeedOcc_returns_iff_log_fits (opts : list SpeedOption)
    (log : list jsval) :
  literal_options opts ->
  if decide (length log <= length opts)%nat
  then returns (SpeedOcc.calculateResult opts log) = true
  else SpeedOcc.calculateResult opts log = Throws.
Proof.
  intros Hlit. pose proof (SpeedOcc_loop_literal opts log 0 empty_result Hlit) as H.
  cbn [Nat.add] in H. unfold SpeedOcc.calculateResult.
  destruct (decide _); [done|]. apply H. lia.
Qed.

Lemma SpeedOcc_returns_iff_log_fits_witness :
  returns (SpeedOcc.calculateResult [colons] [JArr [JNum 5; JNum 6]]) = true
  /\ SpeedOcc.calculateResult [colons] [JBool false; JBool false] = Throws.
Proof.
  assert (literal_options [colons]) as H.
  { repeat constructor. done. }
  split.
  - apply (SpeedOcc_returns_iff_log_fits [colons] [JArr [JNum 5; JNum 6]] H).
  - apply (SpeedOcc_returns_iff_log_fits [colons] [JBool false; JBool false] H).
Defined.

Lemma SpeedOcc_step_empty_correct i o v r n :
  correct o = "" -> Str.parseInt (index o) = Some n -> is_span v = true ->
  SpeedOcc.step i o v r = Loops.
Proof.
  intros Hc Hn Hv. unfold SpeedOcc.step. rewrite Hn, Hc.
  destruct v as [| | | | |l]; try done. cbn [isArray negb].
  cbn [is_span] in Hv.
  destruct (js_elem (JArr l) 0); try done.
  destruct (js_elem (JArr l) 1); try done.
  apply negb_true_iff in Hv. rewrite Hv.
  by rewrite find_occurences_empty_pattern.
Qed.

(** X4.  An option whose [correct] is the empty string hangs the
    occurrence scorer: if the log holds a span of two numbers other than
    [-1] at the position of such an option (whose [index] parses), the
    scorer never returns, and it is the scan for occurrences that loops
    forever when all earlier entries are unanswered. *)
Theorem SpeedOcc_empty_correct_never_returns (opts : list SpeedOption)
    (log : list jsval) (i : nat) (o : SpeedOption) (v : jsval) (n : Z) :
  opts !! i = Some o -> log !! i = Some v ->
  correct o = "" -> Str.parseInt (index o) = Some n -> is_span v = true ->
  returns (SpeedOcc.calculateResult opts log) = false
  /\ (forallb unanswered (take i log) = true ->
      SpeedOcc.calculateResult opts log = Loops).
Proof.
  intros Ho Hv Hc Hn Hs. unfold SpeedOcc.calculateResult.
  assert (forall (pre : list jsval) k r,
            k + length pre = i -> drop k log = (pre ++ drop i log)%list ->
            returns (SpeedOcc.loop opts k (drop k log) r) = false
            /\ (forallb unanswered pre = true ->
                SpeedOcc.loop opts k (drop k log) r = Loops))%nat as Hgen.
  { induction pre as [|w pre IH]; intros k r Hk Hdrop.
    - cbn in Hk. replace k with i by lia.
      rewrite (drop_S _ _ _ Hv). cbn [SpeedOcc.loop]. rewrite Ho.
      by rewrite (SpeedOcc_step_empty_correct _ _ _ _ _ Hc Hn Hs).
    - rewrite Hdrop. cbn [app SpeedOcc.loop forallb].
      cbn [length] in Hk.
      assert (log !! k = Some w) as Hw.
      { rewrite <- (Nat.add_0_r k), <- lookup_drop, Hdrop. done. }
      assert (drop (S k) log = (pre ++ drop i log)%list) as Hdrop'.
      { replace (S k) with (k + 1)%nat by lia.
        rewrite <- drop_drop, Hdrop. done. }
      destruct (opts !! k) as [ok|]eqn:Hok.
      2:{ apply lookup_ge_None in Hok. apply lookup_lt_Some in Ho. lia. }
      specialize (IH (S k)). rewrite Hdrop' in IH. split.
      + destruct (SpeedOcc.step k ok w r) as [r'| | |]; try done. cbn.
        apply IH; [lia|done].
      + intros [Hw' Hpre]%andb_prop.
        rewrite SpeedOcc_step_unanswered by done. cbn.
        apply IH; [lia|done|done]. }
  specialize (Hgen (take i log) 0%nat empty_result).
  rewrite drop_0 in Hgen. apply Hgen.
  - cbn. rewrite length_take. apply lookup_lt_Some in Hv. lia.
  - by rewrite take_drop.
Qed.

Lemma SpeedOcc_empty_correct_never_returns_witness :
  returns (SpeedOcc.calculateResult [colons; blank]
             [JArr [JNum 5; JNum 6]; JArr [JNum 0; JNum 1]]) = false
  /\ (forallb unanswered (take 1 [JArr [JNum 5; JNum 6]; JArr [JNum 0; JNum 1]])
      = true ->
      SpeedOcc.calculateResult [colons; blank]
        [JArr [JNum 5; JNum 6]; JArr [JNum 0; JNum 1]] = Loops).
Proof.
  apply (SpeedOcc_empty_correct_never_returns [colons; blank]
           [JArr [JNum 5; JNum 6]; JArr [JNum 0; JNum 1]] 1 blank
           (JArr [JNum 0; JNum 1]) 0); reflexivity.
Defined.

(** ** The score against [maxScore] *)

Lemma sorted_lt_NoDup (l : list nat) : StronglySorted lt l -> NoDup l.
Proof.
  induction 1 as [|a l Hs IH Ha]; constructor; [|done].
  intros Hin. pose proof (proj1 (Forall_forall _ _) Ha a Hin). lia.
Qed.

Lemma NoDup_bounded_length (l : list nat) (n : nat) :
  NoDup l -> (forall i, i ∈ l -> (i < n)%nat) -> (length l <= n)%nat.
Proof.
  intros Hnd Hlt.
  transitivity (length (seq 0 n)); [|by rewrite length_seq].
  apply submseteq_length, NoDup_submseteq; [done|].
  intros i Hi. apply elem_of_seq. specialize (Hlt i Hi). lia.
Qed.

Lemma maxScore_fold (options : list TestOption) : forall acc,
  fold_left (fun score opt =>
               match o_correct opt with
               | Some _ => score + 1
               | None => score
               end) options acc
  = acc + Z.of_nat (length (List.filter
                              (fun opt => bool_decide (is_Some (o_correct opt)))
                              options)).
Proof.
  induction options as [|o options IH]; intros acc; cbn [fold_left List.filter].
  - cbn. lia.
  - rewrite IH. destruct (o_correct o); cbn [bool_decide]. 
    + rewrite bool_decide_eq_true_2 by done. cbn [length]. lia.
    + rewrite bool_decide_eq_false_2 by (by intros [? [=]]). lia.
Qed.

(** ** [calculate]: when it gives up, and where its results come from *)

Lemma find_config_no_config config singleTestID :
  find_config config singleTestID = None -> no_config config singleTestID.
Proof.
  unfold find_config. intros Hf t Ht%list_elem_of_In Hid.
  pose proof (find_none _ _ Hf t Ht) as Hn. cbn in Hn.
  by rewrite bool_decide_eq_true_2 in Hn.
Qed.

Lemma find_log_no_log journal singleTestID :
  find_log journal singleTestID = None -> no_log journal singleTestID.
Proof.
  unfold no_log, find_log. generalize (log_sets (log journal)).
  intros ss.
  assert (forall acc : option (list jsval),
    fold_left
      (fun testLog s =>
         match List.find (fun m => bool_decide (key m = singleTestID)) (maps s) with
         | Some m => Some (val m)
         | None => testLog
         end) ss acc = None ->
    acc = None /\
    forall s m, s ∈ ss -> m ∈ maps s -> key m <> singleTestID) as Hgen.
  { induction ss as [|s ss IH]; intros acc Hrun.
    - split; [done|]. intros s m Hs. by apply elem_of_nil in Hs.
    - cbn [fold_left] in Hrun. apply IH in Hrun as [Hacc Hss].
      destruct (List.find _ (maps s)) as [m|] eqn:Hf; [done|].
      split; [done|]. intros s' m' [->|Hs']%elem_of_cons Hm'.
      + intros Hk. apply list_elem_of_In in Hm'.
        pose proof (find_none _ _ Hf m' Hm') as Hn. cbn in Hn.
        by rewrite bool_decide_eq_true_2 in Hn.
      + by apply (Hss s'). }
  intros Hrun. by apply Hgen in Hrun as [_ ?].
Qed.

Lemma gather_tests_None config journal ids : forall testsData,
  gather_tests config journal ids testsData = None ->
  exists singleTestID, singleTestID ∈ ids /\ lacks_data config journal singleTestID.
Proof.
  induction ids as [|i ids IH]; intros td Hrun; [done|].
  cbn [gather_tests] in Hrun.
  destruct (find_config config i) as [t|] eqn:Ht.
  2:{ exists i. split; [by left|]. by left. }
  destruct (evaluated t) eqn:Hev; cbn [negb] in Hrun.
  - destruct (find_log journal i) as [l|] eqn:Hl.
    + apply IH in Hrun as (k & Hk & Hbad). exists k. split; [by right|done].
    + exists i. split; [by left|]. right. by exists t.
  - apply IH in Hrun as (k & Hk & Hbad). exists k. split; [by right|done].
Qed.

Lemma gather_sets_None config journal ss : forall testsData,
  gather_sets config journal ss testsData = None ->
  exists singleTestID,
    singleTestID ∈ structure_ids ss /\ lacks_data config journal singleTestID.
Proof.
  induction ss as [|s ss IH]; intros td Hrun; [done|].
  cbn [gather_sets] in Hrun. unfold structure_ids. cbn [map concat].
  destruct (gather_tests config journal (min_tests s) td) as [td'|] eqn:Hg.
  - apply IH in Hrun as (k & Hk & Hbad). exists k. split; [|done].
    apply elem_of_app. by right.
  - apply gather_tests_None in Hg as (k & Hk & Hbad). exists k. split; [|done].
    apply elem_of_app. by left.
Qed.

Lemma elem_of_structure_ids (ss : list TestSetMinimal) (k : Z) :
  k ∈ structure_ids ss <-> exists s, s ∈ ss /\ k ∈ min_tests s.
Proof.
  unfold structure_ids. induction ss as [|s ss IH]; cbn [map concat].
  - split; [by intros ?%elem_of_nil|]. by intros (s & ?%elem_of_nil & _).
  - rewrite elem_of_app, IH. split.
    + intros [Hk|(s' & Hs' & Hk)]; [exists s|exists s']; split; try done.
      * by left.
      * by right.
    + intros (s' & [->|Hs']%elem_of_cons & Hk); [by left|].
      right. by exists s'.
Qed.

Section CalculateMore.
Variable Factory_create : string -> SingleTest -> outcome (option TestInstance).
Variables (config : CourseConfig) (journal : Journal).

(** X6.  [calculate] returns [null] exactly when some test id listed in
    the journal structure has no test in the configuration, or has a test
    that is to be evaluated and no pair in the journal log.  In
    particular a failing scorer never produces [null]. *)
Theorem calculate_null_iff_data_missing :
  calculate Factory_create config journal = Ret None
  <-> exists singleTestID,
        singleTestID ∈ structure_ids (min_sets (structure journal))
        /\ (no_config config singleTestID
            \/ exists t, find_config config singleTestID = Some t
                         /\ evaluated t = true /\ no_log journal singleTestID).
Proof.
  unfold calculate. split.
  - destruct (gather_sets _ _ _ _) as [td|] eqn:Hg.
    + destruct (score_tests _ _ _); done.
    + intros _. apply gather_sets_None in Hg as (k & Hk & Hbad).
      exists k. split; [done|].
      destruct Hbad as [Hc|(t & Ht & Hev & Hl)].
      * left. by apply find_config_no_config.
      * right. exists t. split_and!; [done..|]. by apply find_log_no_log.
  - intros (k & Hk & Hbad).
    apply elem_of_structure_ids in Hk as (s & Hs & Hk).
    rewrite (gather_sets_lacking config journal _ s k); [done..|].
    destruct Hbad as [Hc|(t & Ht & Hev & Hl)].
    + left. by apply find_config_None.
    + right. exists t. split_and!; [done..|]. by apply find_log_None.
Qed.

Lemma gather_tests_from ids : forall td td',
  (forall k, k ∈ ids -> k ∈ structure_ids (min_sets (structure journal))) ->
  gathered_from config journal td ->
  gather_tests config journal ids td = Some td' ->
  gathered_from config journal td'.
Proof.
  induction ids as [|i ids IH]; intros td td' Hids Hg Hrun.
  - cbn in Hrun. by injection Hrun as <-.
  - cbn [gather_tests] in Hrun.
    destruct (find_config config i) as [t|] eqn:Ht; [|done].
    destruct (evaluated t) eqn:Hev; cbn [negb] in Hrun.
    + destruct (find_log journal i) as [l|] eqn:Hl; [|done].
      eapply IH; [| |exact Hrun].
      * intros k Hk. apply Hids. by right.
      * intros k d [[= -> ->]|Hin]%Obj_set_elem; [|by apply Hg].
        cbn. split_and!; try done. apply Hids. by left.
    + eapply IH; [| |exact Hrun]; [|done].
      intros k Hk. apply Hids. by right.
Qed.

Lemma gather_sets_from ss : forall td td',
  (forall k, k ∈ structure_ids ss ->
             k ∈ structure_ids (min_sets (structure journal))) ->
  gathered_from config journal td ->
  gather_sets config journal ss td = Some td' ->
  gathered_from config journal td'.
Proof.
  induction ss as [|s ss IH]; intros td td' Hids Hg Hrun.
  - cbn in Hrun. by injection Hrun as <-.
  - cbn [gather_sets] in Hrun. unfold structure_ids in Hids.
    cbn [map concat] in Hids.
    destruct (gather_tests config journal (min_tests s) td) as [td1|] eqn:H1;
      [|done].
    eapply IH; [| |exact Hrun].
    + intros k Hk. apply Hids, elem_of_app. by right.
    + eapply gather_tests_from; [|exact Hg|exact H1].
      intros k Hk. apply Hids, elem_of_app. by left.
Qed.

Lemma score_tests_from entries : forall acc rs r,
  score_tests Factory_create entries acc = Ret rs -> r ∈ rs ->
  r ∈ acc
  \/ exists k d inst m res,
       (k, d) ∈ entries
       /\ Factory_create (category (td_config d)) (td_config d) = Ret (Some inst)
       /\ inst_maxScore inst = Ret m
       /\ inst_calculateResult inst (td_log d) = Ret res
       /\ r = {| res_id := Str.of_Z k; res_score := score res; maxScore := m;
                 correctOptions := correct_idx res;
                 wrongOptions := wrong_idx res |}.
Proof.
  induction entries as [|[k test] entries IH]; intros acc rs r Hrun Hr.
  - cbn in Hrun. injection Hrun as <-. by left.
  - cbn [score_tests] in Hrun.
    destruct (Factory_create (category (td_config test)) (td_config test))
      as [[inst|]| | |] eqn:HF; try done; cbn in Hrun.
    + destruct (inst_maxScore inst) as [m| | |] eqn:Hm; try done; cbn in Hrun.
      destruct (inst_calculateResult inst (td_log test)) as [res| | |] eqn:Hres;
        try done; cbn in Hrun.
      destruct (IH _ _ _ Hrun Hr) as [Hacc|(k' & d & inst' & m' & res' & Hin & ?)].
      * apply elem_of_app in Hacc as [Hacc| ->%list_elem_of_singleton];
          [by left|].
        right. exists k, test, inst, m, res. split; [by left|done].
      * right. exists k', d, inst', m', res'. split; [by right|done].
    + destruct (IH _ _ _ Hrun Hr) as [Hacc|(k' & d & inst' & m' & res' & Hin & ?)];
        [by left|].
      right. exists k', d, inst', m', res'. split; [by right|done].
Qed.

(** X7.  Where every result of [calculate] comes from: its id is a test id
    of the journal structure; the test is the first one with that id in
    the configuration and is to be evaluated; the log is the one that the
    last set holding the id gives; and [maxScore], score and index lists
    are what the instance made by the factory for that test returns. *)
Theorem calculate_results_provenance (rs : list TestResult) (r : TestResult) :
  calculate Factory_create config journal = Ret (Some rs) -> r ∈ rs ->
  exists singleTestID testConfig testLog testInstance m testResult,
    singleTestID ∈ structure_ids (min_sets (structure journal))
    /\ find_config config singleTestID = Some testConfig
    /\ evaluated testConfig = true
    /\ find_log journal singleTestID = Some testLog
    /\ Factory_create (category testConfig) testConfig = Ret (Some testInstance)
    /\ inst_maxScore testInstance = Ret m
    /\ inst_calculateResult testInstance testLog = Ret testResult
    /\ r = {| res_id := Str.of_Z singleTestID;
              res_score := score testResult;
              maxScore := m;
              correctOptions := correct_idx testResult;
              wrongOptions := wrong_idx testResult |}.
Proof.
  unfold calculate. intros Hrun Hr.
  destruct (gather_sets _ _ _ _) as [td|] eqn:Hg; [|done].
  destruct (score_tests _ _ _) as [rs'| | |] eqn:Hs; try done.
  cbn in Hrun. injection Hrun as ->.
  apply (gather_sets_from _ []) in Hg; [|done|].
  2:{ intros k d Hin. by apply elem_of_nil in Hin. }
  destruct (score_tests_from _ _ _ _ Hs Hr)
    as [Hacc|(k & d & inst & m & res & Hin & HF & Hm & Hres & ->)];
    [by apply elem_of_nil in Hacc|].
  assert ((k, d) ∈ td) as Hin'.
  { by rewrite <- (for_in_Permutation td). }
  destruct (Hg _ _ Hin') as (Hk & Hc & Hev & Hl).
  by exists k, (td_config d), (td_log d), inst, m, res.
Qed.

End CalculateMore.

Lemma calculate_results_provenance_witness :
  exists singleTestID testConfig testLog testInstance m testResult,
    singleTestID ∈ structure_ids (min_sets (structure sample_journal))
    /\ find_config sample_config singleTestID = Some testConfig
    /\ evaluated testConfig = true
    /\ find_log sample_journal singleTestID = Some testLog
    /\ speed_factory (category testConfig) testConfig = Ret (Some testInstance)
    /\ inst_maxScore testInstance = Ret m
    /\ inst_calculateResult testInstance testLog = Ret testResult
    /\ {| res_id := "2"; res_score := 1; maxScore := 1;
          correctOptions := [0%nat]; wrongOptions := [] |}
       = {| res_id := Str.of_Z singleTestID;
              res_score := score testResult;
              maxScore := m;
              correctOptions := correct_idx testResult;
              wrongOptions := wrong_idx testResult |}.
Proof.
  apply (calculate_results_provenance speed_factory sample_config sample_journal
           [ {| res_id := "1"; res_score := 0; maxScore := 1;
                correctOptions := []; wrongOptions := [0%nat] |};
             {| res_id := "2"; res_score := 1; maxScore := 1;
                correctOptions := [0%nat]; wrongOptions := [] |} ]).
  - vm_compute. reflexivity.
  - apply list_elem_of_further, list_elem_of_here.
Defined.


(** ** [lock], [update] and [load] together *)

(** what a call of [lock] can have done to the database *)
Lemma lock_db_inv faults rnd db bodyPin r db1 rnd1 :
  lock faults rnd db bodyPin = Ret (r, db1, rnd1) ->
  db1 = db
  \/ exists user code,
       findOne_user db bodyPin = Some user /\ has_code user = false
       /\ r = respond 200 (BCode code)
       /\ db1 = updateOne db bodyPin (set_validationCode code).
Proof.
  unfold lock. intros Hrun.
  destruct (next_fault faults) as [[] faults1]; [left; by simplify_eq|].
  destruct (findOne_user db bodyPin) as [user|] eqn:Hu; [|left; by simplify_eq].
  destruct (next_fault faults1) as [[] faults2]; [left; by simplify_eq|].
  destruct (findOne_course db _) as [course_|]; [|left; by simplify_eq].
  destruct (config_first course_ _) as [cfg|]; [|left; by simplify_eq].
  destruct (has_code user) eqn:Hc; [left; by simplify_eq|].
  destruct (generateValidationCode _ _) as [[code rnd']| | |]; try done.
  cbn in Hrun. destruct (next_fault faults2) as [[] ?];
    injection Hrun as <- <- <-; [by left|].
  right. by exists user, code.
Qed.

Section Requests.
Variable Factory_create : string -> SingleTest -> outcome (option TestInstance).

(** what a call of [update] can have done to the database *)
Lemma update_db_inv faults db bodyPin r db1 :
  update Factory_create faults db bodyPin = Ret (r, db1) ->
  (db1 = db /\ (r = db_failure \/ r = respond 404 (BError E_DBQUERY)
                \/ exists user, findOne_user db bodyPin = Some user
                     /\ has_code user = true
                     /\ r = respond 200 (BTests (result_tests (result user)))))
  \/ exists user course_ cfg testResults,
       findOne_user db bodyPin = Some user /\ has_code user = false
       /\ findOne_course db (course (structure (journal user))) = Some course_
       /\ config_last course_ (language (structure (journal user))) = Some cfg
       /\ calculate Factory_create cfg (journal user) = Ret (Some testResults)
       /\ r = respond 200 BEmpty
       /\ db1 = updateOne db bodyPin (set_tests testResults).
Proof.
  unfold update. intros Hrun.
  destruct (next_fault faults) as [[] faults1];
    [left; injection Hrun as <- <-; auto|].
  destruct (findOne_user db bodyPin) as [user|] eqn:Hu;
    [|left; injection Hrun as <- <-; auto].
  destruct (has_code user) eqn:Hc.
  { left. injection Hrun as <- <-. split; [done|]. right. right. by exists user. }
  destruct (next_fault faults1) as [[] faults2];
    [left; injection Hrun as <- <-; auto|].
  destruct (findOne_course db _) as [course_|] eqn:Hco;
    [|left; injection Hrun as <- <-; auto].
  destruct (config_last course_ _) as [cfg|] eqn:Hcfg;
    [|left; injection Hrun as <- <-; auto].
  destruct (calculate _ _ _) as [[ts|]| | |] eqn:Hcalc; cbn in Hrun; try done;
    [|left; injection Hrun as <- <-; auto].
  destruct (next_fault faults2) as [[] ?]; injection Hrun as <- <-;
    [left; auto|].
  right. by exists user, course_, cfg, ts.
Qed.



Lemma update_first_frame bodyPin f (h : User -> Z * Journal) us :
  (forall u, h (f u) = h u) ->
  h <$> update_first bodyPin f us = h <$> us.
Proof.
  intros Hf. induction us as [|u us IH]; [done|]. cbn [update_first].
  case_bool_decide; cbn; [by rewrite Hf|]. by rewrite IH.
Qed.

Lemma update_first_codes bodyPin ts us :
  (fun u => validationCode (result u)) <$> update_first bodyPin (set_tests ts) us
  = (fun u => validationCode (result u)) <$> us.
Proof.
  induction us as [|u us IH]; [done|]. cbn [update_first].
  case_bool_decide; cbn; [done|]. by rewrite IH.
Qed.

(** X9.  [lock] and [update] leave the courses, and the pin and journal
    of every user, as they are; [update] changes no validation code; and
    a call that does not answer 200 changes nothing at all. *)
Theorem requests_touch_results_only (db : Db) (bodyPin : Z) :
  (forall faults rnd r db1 rnd1,
      lock faults rnd db bodyPin = Ret (r, db1, rnd1) ->
      courses db1 = courses db
      /\ (fun u => (pin u, journal u)) <$> users db1
         = (fun u => (pin u, journal u)) <$> users db
      /\ (status r <> 200 -> db1 = db))
  /\ (forall faults r db1,
        update Factory_create faults db bodyPin = Ret (r, db1) ->
        courses db1 = courses db
        /\ (fun u => (pin u, journal u)) <$> users db1
           = (fun u => (pin u, journal u)) <$> users db
        /\ (fun u => validationCode (result u)) <$> users db1
           = (fun u => validationCode (result u)) <$> users db
        /\ (status r <> 200 -> db1 = db)).
Proof.
  split.
  - intros faults rnd r db1 rnd1 Hrun.
    apply lock_db_inv in Hrun as [->|(user & code & _ & _ & -> & ->)]; [done|].
    split_and!; [done| |done].
    unfold updateOne. cbn [users].
    by apply update_first_frame.
  - intros faults r db1 Hrun.
    apply update_db_inv in Hrun
      as [[-> _]|(user & ? & ? & ts & _ & _ & _ & _ & _ & -> & ->)]; [done|].
    split_and!; [done| | |done].
    + unfold updateOne. cbn [users].
      by apply update_first_frame.
    + apply update_first_codes.
Qed.

(** X10.  After an [update] answered 200, [load] for the same pin answers
    200 with the tests that the update made current: the stored tests of a
    locked user (which [update] itself sent), or else the results that
    [calculate] gave for the user's journal and the last configuration of
    the user's course in the journal's language. *)
Theorem load_after_update (faults faults' : list bool) (db db1 : Db)
    (bodyPin : Z) (r : Response) :
  update Factory_create faults db bodyPin = Ret (r, db1) ->
  status r = 200 -> served 1 faults' ->
  exists user testResults,
    findOne_user db bodyPin = Some user
    /\ load faults' db1 bodyPin = respond 200 (BTests testResults)
    /\ ((has_code user = true /\ r = respond 200 (BTests testResults)
         /\ testResults = result_tests (result user) /\ db1 = db)
        \/ (has_code user = false /\ r = respond 200 BEmpty
            /\ exists course_ cfg,
                 findOne_course db (course (structure (journal user)))
                 = Some course_
                 /\ config_last course_ (language (structure (journal user)))
                    = Some cfg
                 /\ calculate Factory_create cfg (journal user)
                    = Ret (Some testResults))).
Proof.
  intros Hrun Hst (f1 & Hf1 & _)%served_head.
  unfold load. rewrite Hf1.
  apply update_db_inv in Hrun
    as [[-> [->|[->|(user & Hu & Hc & ->)]]]
       |(user & course_ & cfg & ts & Hu & Hc & Hco & Hcfg & Hcalc & -> & ->)];
    try done.
  - exists user, (result_tests (result user)). rewrite Hu.
    split_and!; [done..|]. left. by split_and!.
  - exists user, ts. split; [done|]. split.
    + unfold findOne_user, updateOne. cbn [users].
      by rewrite (find_update_first _ _ _ user).
    + right. split_and!; [done..|]. by exists course_, cfg.
Qed.

(** X11.  After a [lock] answered with a non-empty code, an [update] for
    the same pin changes nothing, whatever the fault schedule; when its
    lookup is served, it answers 200 with the tests the user had before
    the lock, and so does [load]. *)
Theorem update_after_lock (faults faults' : list bool) (rnd rnd1 : Rand)
    (db db1 : Db) (bodyPin : Z) (r : Response) (c : string) :
  lock faults rnd db bodyPin = Ret (r, db1, rnd1) ->
  body r = BCode c -> c <> "" ->
  exists user,
    findOne_user db bodyPin = Some user
    /\ (exists r', update Factory_create faults' db1 bodyPin = Ret (r', db1))
    /\ (served 1 faults' ->
        update Factory_create faults' db1 bodyPin
        = Ret (respond 200 (BTests (result_tests (result user))), db1)
        /\ load faults' db1 bodyPin
           = respond 200 (BTests (result_tests (result user)))).
Proof.
  intros Hrun Hbody Hne.
  destruct (lock_code_inv _ _ _ _ _ _ _ _ Hrun Hbody)
    as (user & course_ & cfg & Hu & Hco & Hcfg & -> & Hcase).
  exists user. split; [done|].
  assert (exists user1, findOne_user db1 bodyPin = Some user1
            /\ has_code user1 = true
            /\ result_tests (result user1) = result_tests (result user))
    as (user1 & Hu1 & Hc1 & Hts).
  { destruct Hcase as [(Hc & _ & -> & _)|(_ & ->)].
    - by exists user.
    - exists (set_validationCode c user). split_and!; [|by apply (has_code_spec _ c)|done].
      unfold findOne_user, updateOne. cbn [users].
      by apply find_update_first. }
  unfold update, load. destruct (next_fault faults') as [fault faults1] eqn:Hf.
  rewrite Hu1, Hc1, Hts. split.
  - destruct fault; by eexists.
  - intros (f1 & Hf1 & _)%served_head. rewrite Hf in Hf1.
    by injection Hf1 as -> _.
Qed.

End Requests.

Lemma requests_touch_results_only_witness :
  (forall faults rnd r db1 rnd1,
      lock faults rnd sample_db 4712 = Ret (r, db1, rnd1) ->
      courses db1 = courses sample_db
      /\ (fun u => (pin u, journal u)) <$> users db1
         = (fun u => (pin u, journal u)) <$> users sample_db
      /\ (status r <> 200 -> db1 = sample_db))
  /\ (forall faults r db1,
        update speed_factory faults sample_db 4712 = Ret (r, db1) ->
        courses db1 = courses sample_db
        /\ (fun u => (pin u, journal u)) <$> users db1
           = (fun u => (pin u, journal u)) <$> users sample_db
        /\ (fun u => validationCode (result u)) <$> users db1
           = (fun u => validationCode (result u)) <$> users sample_db
        /\ (status r <> 200 -> db1 = sample_db)).
Proof. apply (requests_touch_results_only speed_factory sample_db 4712). Defined.


Lemma load_after_update_witness :
  exists user testResults,
    findOne_user sample_db 4712 = Some user
    /\ load [] (updateOne sample_db 4712 (set_tests sample_results)) 4712
       = respond 200 (BTests testResults)
    /\ ((has_code user = true
         /\ respond 200 BEmpty = respond 200 (BTests testResults)
         /\ testResults = result_tests (result user)
         /\ updateOne sample_db 4712 (set_tests sample_results) = sample_db)
        \/ (has_code user = false /\ respond 200 BEmpty = respond 200 BEmpty
            /\ exists course_ cfg,
                 findOne_course sample_db (course (structure (journal user)))
                 = Some course_
                 /\ config_last course_ (language (structure (journal user)))
                    = Some cfg
                 /\ calculate speed_factory cfg (journal user)
                    = Ret (Some testResults))).
Proof.
  apply (load_after_update speed_factory [] [] sample_db
           (updateOne sample_db 4712 (set_tests sample_results)) 4712
           (respond 200 BEmpty)).
  - vm_compute. reflexivity.
  - reflexivity.
  - apply served_nil.
Defined.

Lemma update_after_lock_witness :
  exists user,
    findOne_user sample_db 4712 = Some user
    /\ (exists r', update speed_factory []
                     (updateOne sample_db 4712 (set_validationCode "AA-572")) 4712
                   = Ret (r', updateOne sample_db 4712 (set_validationCode "AA-572")))
    /\ (served 1 [] ->
        update speed_factory []
          (updateOne sample_db 4712 (set_validationCode "AA-572")) 4712
        = Ret (respond 200 (BTests (result_tests (result user))),
               updateOne sample_db 4712 (set_validationCode "AA-572"))
        /\ load [] (updateOne sample_db 4712 (set_validationCode "AA-572")) 4712
           = respond 200 (BTests (result_tests (result user)))).
Proof.
  apply (update_after_lock speed_factory [] [] [5; 7; 2]%nat [] sample_db
           (updateOne sample_db 4712 (set_validationCode "AA-572")) 4712
           (respond 200 (BCode "AA-572")) "AA-572").
  - vm_compute. reflexivity.
  - reflexivity.
  - discriminate.
Defined.


(** X12.  [lock] takes the first configuration of the course for the
    language, [update] the last one; they are the same when no language
    occurs twice among the configurations of the course. *)
Theorem lock_and_update_read_same_config (c : Course) (lang : string) :
  NoDup (lc_language <$> configs c) ->
  config_first c lang = config_last c lang.
Proof.
  unfold config_first, config_last. generalize (configs c). intros l Hnd.
  assert (forall acc : option CourseConfig,
            fold_left
              (fun courseConfig o =>
                 if bool_decide (lc_language o = lang) then Some (lc_config o)
                 else courseConfig) l acc
            = match List.find (fun o => bool_decide (lc_language o = lang)) l with
              | Some o => Some (lc_config o)
              | None => acc
              end) as Hgen.
  { induction l as [|o l IH]; intros acc; [done|].
    cbn [fmap list_fmap] in Hnd. apply NoDup_cons in Hnd as [Ho Hnd].
    cbn [fold_left List.find]. rewrite IH by done.
    destruct (bool_decide_reflect (lc_language o = lang)) as [Heq|Hne]; [|done].
    destruct (List.find _ l) as [o'|] eqn:Hf; [|done].
    apply find_some in Hf as [Hin Ho'%bool_decide_eq_true].
    destruct Ho. apply list_elem_of_fmap. exists o'.
    split; [congruence|by apply list_elem_of_In]. }
  rewrite Hgen. by destruct (List.find _ l).
Qed.

Lemma lock_and_update_read_same_config_witness :
  config_first cs_course "en" = config_last cs_course "en".
Proof.
  apply (lock_and_update_read_same_config cs_course "en").
  cbn. repeat constructor; set_solver.
Defined.

(** a [lock] that answers with a code, with where the code comes from *)
Lemma lock_code_source faults rnd db bodyPin r db1 rnd1 c :
  lock faults rnd db bodyPin = Ret (r, db1, rnd1) ->
  body r = BCode c ->
  exists user course_ cfg,
    findOne_user db bodyPin = Some user
    /\ findOne_course db (course (structure (journal user))) = Some course_
    /\ config_first course_ (language (structure (journal user))) = Some cfg
    /\ ((has_code user = true /\ validationCode (result user) = Some c
         /\ db1 = db /\ rnd1 = rnd)
        \/ (has_code user = false
            /\ generateValidationCode (validationSchema cfg) rnd = Ret (c, rnd1)
            /\ db1 = updateOne db bodyPin (set_validationCode c))).
Proof.
  unfold lock. intros Hrun Hbody.
  destruct (next_fault faults) as [[] faults1]; [by simplify_eq|].
  destruct (findOne_user db bodyPin) as [user|] eqn:Hu; [|by simplify_eq].
  destruct (next_fault faults1) as [[] faults2]; [by simplify_eq|].
  destruct (findOne_course db _) as [course_|] eqn:Hco; [|by simplify_eq].
  destruct (config_first course_ _) as [cfg|] eqn:Hcfg; [|by simplify_eq].
  exists user, course_, cfg. split_and!; [done..|].
  destruct (has_code user) eqn:Hc.
  - left. injection Hrun as <- <- <-. cbn in Hbody. injection Hbody as <-.
    unfold has_code in Hc. destruct (validationCode (result user)); [|done].
    by split_and!.
  - right. split; [done|].
    destruct (generateValidationCode _ _) as [[code rnd']| | |]; try done.
    cbn in Hrun. destruct (next_fault faults2) as [[] ?];
      injection Hrun as <- <- <-; cbn in Hbody; [done|].
    by injection Hbody as <-.
Qed.

(** X13.  When [lock] answers with a code, the user found for the pin
    afterwards carries exactly this code, with journal and tests
    unchanged, and counts as locked exactly when the code is not empty;
    for a user that had no code, the code is what
    [generateValidationCode] yields for the template of the first
    configuration in the journal's language. *)
Theorem lock_stores_what_it_answers (faults : list bool) (rnd rnd1 : Rand)
    (db db1 : Db) (bodyPin : Z) (r : Response) (c : string) :
  lock faults rnd db bodyPin = Ret (r, db1, rnd1) ->
  body r = BCode c ->
  exists user user1 course_ cfg,
    findOne_user db bodyPin = Some user
    /\ findOne_course db (course (structure (journal user))) = Some course_
    /\ config_first course_ (language (structure (journal user))) = Some cfg
    /\ findOne_user db1 bodyPin = Some user1
    /\ validationCode (result user1) = Some c
    /\ has_code user1 = negb (bool_decide (c = ""))
    /\ journal user1 = journal user
    /\ result_tests (result user1) = result_tests (result user)
    /\ (has_code user = false ->
        generateValidationCode (validationSchema cfg) rnd = Ret (c, rnd1)).
Proof.
  intros Hrun Hbody.
  destruct (lock_code_source _ _ _ _ _ _ _ _ Hrun Hbody)
    as (user & course_ & cfg & Hu & Hco & Hcfg & Hcase).
  destruct Hcase as [(Hc & Hv & -> & ->)|(Hc & Hgen & ->)].
  - exists user, user, course_, cfg. split_and!; try done.
    + unfold has_code in Hc |- *. by rewrite Hv in Hc |- *.
    + congruence.
  - exists user, (set_validationCode c user), course_, cfg.
    split_and!; try done.
    unfold findOne_user, updateOne. cbn [users]. by apply find_update_first.
Qed.

Lemma lock_stores_what_it_answers_witness :
  exists user user1 course_ cfg,
    findOne_user sample_db 4712 = Some user
    /\ findOne_course sample_db (course (structure (journal user))) = Some course_
    /\ config_first course_ (language (structure (journal user))) = Some cfg
    /\ findOne_user (updateOne sample_db 4712 (set_validationCode "AA-572")) 4712
       = Some user1
    /\ validationCode (result user1) = Some "AA-572"
    /\ has_code user1 = negb (bool_decide ("AA-572" = ""))
    /\ journal user1 = journal user
    /\ result_tests (result user1) = result_tests (result user)
    /\ (has_code user = false ->
        generateValidationCode (validationSchema cfg) [5; 7; 2]%nat
        = Ret ("AA-572", [])).
Proof.
  apply (lock_stores_what_it_answers [] [5; 7; 2]%nat [] sample_db
           (updateOne sample_db 4712 (set_validationCode "AA-572")) 4712
           (respond 200 (BCode "AA-572")) "AA-572").
  - vm_compute. reflexivity.
  - reflexivity.
Defined.


(** ** [generateValidationCode] on arbitrary templates *)

Lemma chars_append (s1 s2 : string) :
  chars (s1 +:+ s2) = (chars s1 ++ chars s2)%list.
Proof. induction s1 as [|c s1 IH]; simpl; [done|]. unfold chars in *. simpl. by rewrite IH. Qed.

Lemma chars_substring (s : string) : forall n m c,
  c ∈ chars (String.substring n m s) -> c ∈ chars s.
Proof.
  induction s as [|a s IH]; intros n m c.
  - by destruct n, m.
  - destruct n as [|n]; cbn [String.substring].
    + destruct m as [|m]; [by intros ?%elem_of_nil|].
      unfold chars. cbn [String.list_ascii_of_string].
      intros [->|Hc]%elem_of_cons; [by left|]. right. by apply (IH 0%nat m).
    + intros Hc. unfold chars. cbn [String.list_ascii_of_string]. right.
      by apply (IH n m).
Qed.

Lemma includes_char (s : string) (c : ascii) :
  Str.includes s (String c "") = true <-> c ∈ chars s.
Proof.
  unfold Str.includes, chars. induction s as [|a s IH].
  - cbn. split; [done|]. by intros ?%elem_of_nil.
  - cbn [String.index String.prefix String.list_ascii_of_string].
    destruct (Ascii.ascii_dec c a) as [->|Hne].
    + replace (String.prefix "" s) with true by by destruct s.
      split; [|done]. intros _. by left.
    + rewrite elem_of_cons. destruct (String.index 0 (String c "") s).
      * split; [|done]. intros _. right. by apply IH.
      * split; [done|]. intros [?|?%IH]; done.
Qed.

Lemma includes_chars (s pat : string) (c : ascii) :
  Str.includes s pat = true -> c ∈ chars pat -> c ∈ chars s.
Proof.
  unfold Str.includes. destruct (String.index 0 pat s) as [i|] eqn:Hi; [|done].
  intros _ Hc. apply String.index_correct1 in Hi.
  apply (chars_substring s i (String.length pat)). by rewrite Hi.
Qed.

Lemma chars_replace (s pat r : string) (c : ascii) :
  c ∈ chars (Str.replace s pat r) -> c ∈ chars s \/ c ∈ chars r.
Proof.
  unfold Str.replace, Str.slice. destruct (String.index 0 pat s); [|by left].
  rewrite !chars_append, !elem_of_app.
  intros [?%chars_substring|[?|?%chars_substring]]; auto.
Qed.

(** X14.  A template without any of the characters [[], [%], [(] and [)]
    is returned as it is, and no random number is drawn. *)
Theorem generate_plain_template (schema : string) (rnd : Rand) :
  (forall c, c ∈ chars "[%()" -> c ∉ chars schema) ->
  generateValidationCode schema rnd = Ret (schema, rnd).
Proof.
  intros Hfree.
  assert (forall token c, c ∈ chars "[%()" -> c ∈ chars token ->
            Str.includes schema token = false) as Hno.
  { intros token c Hc Htok. destruct (Str.includes schema token) eqn:Hi; [|done].
    destruct (Hfree c Hc). by eapply includes_chars. }
  assert (forall token, token ∈ (replaceTokens ++ metaTokens)%list ->
            Str.includes schema token = false) as Htok.
  { intros token Htok. unfold replaceTokens, metaTokens in Htok. cbn in Htok.
    repeat (apply elem_of_cons in Htok as [->|Htok];
            [first [ apply (Hno _ "["%char); vm_compute; set_solver
                   | apply (Hno _ "%"%char); vm_compute; set_solver
                   | apply (Hno _ "("%char); vm_compute; set_solver
                   | apply (Hno _ ")"%char); vm_compute; set_solver ]|]).
    by apply elem_of_nil in Htok. }
  unfold generateValidationCode, replaceTokens, metaTokens. cbn [for_tokens].
  do 3 (rewrite replace_token_done
          by (apply Htok; unfold replaceTokens, metaTokens; set_solver);
        cbn [mbind outcome_bind obind]).
  do 3 (rewrite handle_meta_done
          by (apply Htok; unfold replaceTokens, metaTokens; set_solver);
        cbn [mbind outcome_bind obind]).
  done.
Qed.

Lemma generate_plain_template_witness :
  generateValidationCode "TAN-2019" [3; 1]%nat = Ret ("TAN-2019", [3; 1]%nat).
Proof.
  apply (generate_plain_template "TAN-2019" [3; 1]%nat).
  intros c Hc. vm_compute in Hc.
  repeat (apply elem_of_cons in Hc as [->|Hc]; [vm_compute; set_solver|]).
  by apply elem_of_nil in Hc.
Defined.

(** the loops never make the code longer *)
Lemma replace_token_shrinks (token : string) (fuel : nat) :
  forall code rnd code' rnd',
    (1 <= String.length token)%nat ->
    replace_token fuel token code rnd = Ret (code', rnd') ->
    (String.length code' <= String.length code)%nat.
Proof.
  induction fuel as [|fuel IH]; intros code rnd code' rnd' Htok; [done|].
  cbn [replace_token]. unfold Str.includes.
  destruct (String.index 0 token code) as [i|] eqn:Hi;
    [|by intros [= <- <-]].
  destruct (replacement token rnd) as [[r rnd1]| | |] eqn:Hr; try done.
  cbn [mbind outcome_bind obind]. intros Hrun.
  apply IH in Hrun; [|done].
  pose proof (replacement_length _ _ _ _ Hr).
  pose proof (index_bound _ _ _ Hi).
  pose proof (replace_length code token r i Hi). lia.
Qed.

Lemma replace_tokens_shrink schema rnd c0 r0 :
  for_tokens replace_token replaceTokens schema rnd = Ret (c0, r0) ->
  (String.length c0 <= String.length schema)%nat.
Proof.
  unfold replaceTokens. cbn [for_tokens].
  destruct (replace_token _ "[0-9]" _ _) as [[a ra]| | |] eqn:Ha; try done.
  cbn [mbind outcome_bind obind].
  destruct (replace_token _ "[A-Z]" _ _) as [[b rb]| | |] eqn:Hb; try done.
  cbn [mbind outcome_bind obind].
  destruct (replace_token _ "[a-z]" _ _) as [[c rc]| | |] eqn:Hc; try done.
  cbn [mbind outcome_bind obind]. intros [= <- <-].
  apply replace_token_shrinks in Ha, Hb, Hc; cbn; lia.
Qed.

(** ** Templates that never yield a code *)

Lemma index_char_append (body : string) (c : ascii) (rest : string) :
  c ∉ chars body ->
  String.index 0 (String c "") (body +:+ String c rest)
  = Some (String.length body).
Proof.
  unfold chars. induction body as [|a body IH]; intros Hc.
  - simpl. destruct (Ascii.ascii_dec c c); [|done]. by destruct rest.
  - simpl. cbn [String.list_ascii_of_string] in Hc.
    apply not_elem_of_cons in Hc as [Hne Hc].
    destruct (Ascii.ascii_dec c a); [done|].
    fold (body +:+ String c rest). by rewrite IH.
Qed.

Lemma append_substring_tail (body tail : string) (m : nat) :
  String.substring (String.length body) m (body +:+ tail)
  = String.substring 0 m tail.
Proof. induction body as [|a body IH]; simpl; [done|]. apply IH. Qed.

Lemma append_assoc (s1 s2 s3 : string) :
  (s1 +:+ s2) +:+ s3 = s1 +:+ (s2 +:+ s3).
Proof.
  induction s1 as [|a s1 IH]; [done|].
  change (String a ((s1 +:+ s2) +:+ s3) = String a (s1 +:+ (s2 +:+ s3))).
  by rewrite IH.
Qed.

Lemma reroll_0 (rnd : Rand) : reroll 0 rnd = Loops.
Proof. induction rnd as [|d rnd IH]; [done|]. cbn. apply IH. Qed.

Lemma replace_tokens_plain (schema : string) (rnd : Rand) :
  "["%char ∉ chars schema ->
  for_tokens replace_token replaceTokens schema rnd = Ret (schema, rnd).
Proof.
  intros Hfree.
  assert (forall token, "["%char ∈ chars token ->
            Str.includes schema token = false) as Hno.
  { intros token Htok. destruct (Str.includes schema token) eqn:Hi; [|done].
    destruct Hfree. by eapply includes_chars. }
  unfold replaceTokens. cbn [for_tokens].
  do 3 (rewrite replace_token_done by (apply Hno; vm_compute; set_solver);
        cbn [mbind outcome_bind obind]).
  done.
Qed.

(** X16.  Templates that never yield a code: when the only [%] of a
    template is its last character, or is followed by just [0], and the
    template has no [[], [generateValidationCode] loops forever, whatever
    is drawn. *)
Theorem generate_never_ends (body : string) (rnd : Rand) :
  "["%char ∉ chars body -> "%"%char ∉ chars body ->
  generateValidationCode (body +:+ "%") rnd = Loops
  /\ generateValidationCode (body +:+ "%0") rnd = Loops.
Proof.
  intros Hb Hp. split.
  - unfold generateValidationCode. rewrite replace_tokens_plain.
    2:{ rewrite chars_append. apply not_elem_of_app. split; [done|].
        vm_compute. set_solver. }
    cbn [mbind outcome_bind obind metaTokens for_tokens].
    rewrite (handle_meta_stuck _ "%" _ _ (String.length body));
      [reflexivity| | |done..].
    + by apply index_char_append.
    + rewrite append_length. cbn [String.length bool_decide].
      rewrite bool_decide_eq_true_2 by done. cbn [andb].
      apply Z.ltb_ge. lia.
  - unfold generateValidationCode. rewrite replace_tokens_plain.
    2:{ rewrite chars_append. apply not_elem_of_app. split; [done|].
        vm_compute. set_solver. }
    cbn [mbind outcome_bind obind metaTokens for_tokens].
    erewrite handle_meta_percent.
    + by rewrite reroll_0.
    + by apply index_char_append.
    + rewrite append_length. cbn [String.length]. apply Z.ltb_lt. lia.
    + unfold Str.substr. rewrite append_length. cbn [String.length].
      replace (Nat.min _ _) with 1%nat by lia.
      replace (String.length body + 1)%nat with (String.length (body +:+ "%")).
      2:{ rewrite append_length. cbn. lia. }
      replace (body +:+ "%0") with ((body +:+ "%") +:+ "0").
      2:{ by rewrite append_assoc. }
      rewrite append_substring_tail. reflexivity.
Qed.

Lemma generate_never_ends_witness :
  generateValidationCode ("TAN-" +:+ "%") [2; 4; 6]%nat = Loops
  /\ generateValidationCode ("TAN-" +:+ "%0") [2; 4; 6]%nat = Loops.
Proof.
  apply (generate_never_ends "TAN-" [2; 4; 6]%nat); vm_compute; set_solver.
Defined.


Lemma check_loop_spec {A} (get_id : A -> Z) (ok : A -> bool) (l : list A) :
  forall seen, NoDup seen ->
    match check_loop get_id ok l seen with
    | Some ids =>
        ids = (seen ++ (get_id <$> l))%list
        /\ NoDup (seen ++ (get_id <$> l)) /\ Forall (fun x => ok x = true) l
    | None =>
        ~ (NoDup (seen ++ (get_id <$> l)) /\ Forall (fun x => ok x = true) l)
    end.
Proof.
  induction l as [|x l IH]; intros seen Hnd.
  - cbn. rewrite app_nil_r. by split_and!.
  - cbn [check_loop fmap list_fmap].
    replace (seen ++ get_id x :: (get_id <$> l))%list
      with ((seen ++ [get_id x]) ++ (get_id <$> l))%list
      by by rewrite <- (assoc_L app).
    destruct (bool_decide_reflect (get_id x ∈ seen)) as [Hin|Hnin].
    { intros [Hnd' _]. apply NoDup_app in Hnd' as [Hnd' _].
      apply NoDup_app in Hnd' as (_ & Hdis & _).
      apply (Hdis _ Hin). by left. }
    destruct (ok x) eqn:Hok; cbn [negb].
    2:{ intros [_ Hall]. apply Forall_cons in Hall as [Hx _]. congruence. }
    assert (NoDup (seen ++ [get_id x])) as Hnd'.
    { apply NoDup_app. split_and!; [done| |apply NoDup_singleton].
      intros y Hy ->%list_elem_of_singleton. done. }
    specialize (IH _ Hnd').
    destruct (check_loop get_id ok l (seen ++ [get_id x])) as [ids|].
    + destruct IH as (-> & Hnd'' & Hall). split_and!; [done..|].
      by constructor.
    + intros [Hnd'' Hall]. apply IH. split; [done|].
      by apply Forall_cons in Hall as [_ ?].
Qed.

Lemma check_tests_loop ts : forall testIDs,
  check_tests ts testIDs = check_loop id test_ok ts testIDs.
Proof.
  induction ts as [|t ts IH]; intros testIDs; [done|].
  cbn [check_tests check_loop]. unfold test_ok.
  destruct (bool_decide (id t ∈ testIDs)); [done|].
  destruct (bool_decide (category t = "multiple-options")
            && negb (options_have_correct t)); [done|].
  destruct (bool_decide (category t = "speed")
            && negb (options_have_correct t)); [done|].
  cbn. apply IH.
Qed.

Lemma check_groups_loop testIDs gs : forall testgroupIDs,
  check_groups testIDs gs testgroupIDs
  = check_loop group_id
      (fun group => forallb (fun testID => bool_decide (testID ∈ testIDs))
                            (group_tests group))
      gs testgroupIDs.
Proof.
  induction gs as [|g gs IH]; intros ids; [done|].
  cbn [check_groups check_loop].
  destruct (bool_decide (group_id g ∈ ids)); [done|].
  destruct (negb _); [done|]. apply IH.
Qed.

Lemma check_sets_loop testIDs testgroupIDs ss : forall testsetIDs,
  check_sets testIDs testgroupIDs ss testsetIDs
  = check_loop rawset_id
      (fun s => forallb (fun elemID => bool_decide (elemID ∈ testIDs)
                                       || bool_decide (elemID ∈ testgroupIDs))
                        (elements s))
      ss testsetIDs.
Proof.
  induction ss as [|s ss IH]; intros ids; [done|].
  cbn [check_sets check_loop].
  destruct (bool_decide (rawset_id s ∈ ids)); [done|].
  destruct (negb _); [done|]. apply IH.
Qed.

Lemma check_pages_loop testIDs testgroupIDs testsetIDs ps : forall infopageIDs,
  check_pages testIDs testgroupIDs testsetIDs ps infopageIDs
  = check_loop pagedoc_id
      (fun page => match pagedoc_belongs page with
                   | Some elems =>
                       forallb (fun elemID =>
                                  bool_decide (elemID ∈ testIDs)
                                  || bool_decide (elemID ∈ testgroupIDs)
                                  || bool_decide (elemID ∈ testsetIDs))
                               elems
                   | None => true
                   end)
      ps infopageIDs.
Proof.
  induction ps as [|p ps IH]; intros ids; [done|].
  cbn [check_pages check_loop].
  destruct (bool_decide (pagedoc_id p ∈ ids)); [done|].
  destruct (negb _); [done|]. apply IH.
Qed.

Lemma test_ok_spec (test : SingleTest) :
  test_ok test = true
  <-> (category test = "multiple-options" \/ category test = "speed" ->
       forall option, option ∈ options test -> is_Some (o_correct option)).
Proof.
  unfold test_ok, options_have_correct.
  assert (forallb (fun option : TestOption => bool_decide (is_Some (o_correct option)))
            (options test) = true
          <-> forall option, option ∈ options test -> is_Some (o_correct option))
    as Hall.
  { rewrite forallb_forall. split.
    - intros H o Ho%list_elem_of_In. eapply bool_decide_eq_true_1. by apply H.
    - intros H o Ho%list_elem_of_In. apply bool_decide_eq_true_2. by apply H. }
  destruct (forallb _ (options test)).
  - rewrite !andb_false_r. cbn. split; [|done]. intros _ _. by apply Hall.
  - cbn [negb]. rewrite !andb_true_r.
    destruct (bool_decide_reflect (category test = "multiple-options")) as [Hm|Hm];
      cbn [negb andb].
    + split; [done|]. intros H. apply Hall, H. by left.
    + destruct (bool_decide_reflect (category test = "speed")) as [Hs|Hs];
        cbn [negb].
      * split; [done|]. intros H. apply Hall, H. by right.
      * split; [|done]. intros _ [?|?]; done.
Qed.

Lemma forallb_elem_of {A} (p : A -> bool) (l : list A) :
  forallb p l = true <-> forall x, x ∈ l -> p x = true.
Proof.
  rewrite forallb_forall. split; intros H x Hx; apply H; by apply list_elem_of_In.
Qed.

Section ValidateFacts.
Variable validate : ConfigDoc -> bool.

Lemma validateConfig_checks (config : ConfigDoc) :
  validateConfig validate config = true
  <-> validate config = true /\ well_formed config.
Proof.
  unfold validateConfig, well_formed.
  destruct (validate config); cbn [negb]; [|by split; [|intros [? _]]].
  rewrite check_tests_loop.
  pose proof (check_loop_spec id test_ok (doc_tests config) [] (NoDup_nil_2)) as Ht.
  cbn [app] in Ht.
  destruct (check_loop id test_ok (doc_tests config) []) as [testIDs|].
  2:{ split; [done|]. intros (_ & Hnd & Hopt & _). destruct Ht. split; [done|].
      apply Forall_forall. intros t Hin. apply test_ok_spec. intros Hc o Ho.
      by eapply Hopt. }
  destruct Ht as (-> & HndT & HokT).
  set (testIDs := id <$> doc_tests config) in *.
  (* test groups *)
  assert (match match doc_testgroups config with
                | Some testgroups => check_groups testIDs testgroups []
                | None => Some []
                end with
          | Some ids =>
              ids = group_id <$> present (doc_testgroups config)
              /\ NoDup (group_id <$> present (doc_testgroups config))
              /\ (forall group testID,
                    group ∈ present (doc_testgroups config) ->
                    testID ∈ group_tests group -> testID ∈ testIDs)
          | None =>
              ~ (NoDup (group_id <$> present (doc_testgroups config))
                 /\ (forall group testID,
                       group ∈ present (doc_testgroups config) ->
                       testID ∈ group_tests group -> testID ∈ testIDs))
          end) as Hg.
  { destruct (doc_testgroups config) as [gs|]; cbn [present].
    2:{ split_and!; [done|constructor|]. intros g i Hg. by apply elem_of_nil in Hg. }
    rewrite check_groups_loop.
    pose proof (check_loop_spec group_id
                  (fun group => forallb (fun testID => bool_decide (testID ∈ testIDs))
                                        (group_tests group)) gs [] (NoDup_nil_2)) as H.
    cbn [app] in H. destruct (check_loop _ _ gs []) as [ids|].
    - destruct H as (-> & Hnd & Hok). split_and!; [done..|].
      intros g i Hg Hi. rewrite Forall_forall in Hok.
      specialize (Hok g Hg). rewrite forallb_elem_of in Hok.
      eapply bool_decide_eq_true_1. by apply Hok.
    - intros [Hnd Hok]. apply H. split; [done|]. apply Forall_forall.
      intros g Hg. apply forallb_elem_of. intros i Hi.
      apply bool_decide_eq_true_2. by eapply Hok. }
  destruct (match doc_testgroups config with
            | Some testgroups => check_groups testIDs testgroups []
            | None => Some []
            end) as [testgroupIDs|].
  2:{ split; [done|]. intros (_ & _ & _ & ? & ? & _). by destruct Hg. }
  destruct Hg as (-> & HndG & HokG).
  set (testgroupIDs := group_id <$> present (doc_testgroups config)) in *.
  (* sets *)
  assert (match match doc_sets config with
                | Some testsets => check_sets testIDs testgroupIDs testsets []
                | None => Some []
                end with
          | Some ids =>
              ids = rawset_id <$> present (doc_sets config)
              /\ NoDup (rawset_id <$> present (doc_sets config))
              /\ (forall s elemID,
                    s ∈ present (doc_sets config) -> elemID ∈ elements s ->
                    elemID ∈ testIDs \/ elemID ∈ testgroupIDs)
          | None =>
              ~ (NoDup (rawset_id <$> present (doc_sets config))
                 /\ (forall s elemID,
                       s ∈ present (doc_sets config) -> elemID ∈ elements s ->
                       elemID ∈ testIDs \/ elemID ∈ testgroupIDs))
          end) as Hs.
  { destruct (doc_sets config) as [ss|]; cbn [present].
    2:{ split_and!; [done|constructor|]. intros s i Hs. by apply elem_of_nil in Hs. }
    rewrite check_sets_loop.
    pose proof (check_loop_spec rawset_id
                  (fun s => forallb (fun elemID => bool_decide (elemID ∈ testIDs)
                                       || bool_decide (elemID ∈ testgroupIDs))
                                    (elements s)) ss [] (NoDup_nil_2)) as H.
    cbn [app] in H. destruct (check_loop _ _ ss []) as [ids|].
    - destruct H as (-> & Hnd & Hok). split_and!; [done..|].
      intros s i Hs Hi. rewrite Forall_forall in Hok.
      specialize (Hok s Hs). rewrite forallb_elem_of in Hok.
      specialize (Hok i Hi). apply orb_prop in Hok as [?%bool_decide_eq_true|?%bool_decide_eq_true]; auto.
    - intros [Hnd Hok]. apply H. split; [done|]. apply Forall_forall.
      intros s Hs. apply forallb_elem_of. intros i Hi.
      apply orb_true_iff. rewrite !bool_decide_eq_true. by eapply Hok. }
  destruct (match doc_sets config with
            | Some testsets => check_sets testIDs testgroupIDs testsets []
            | None => Some []
            end) as [testsetIDs|].
  2:{ split; [done|]. intros (_ & _ & _ & _ & _ & ? & ? & _). by destruct Hs. }
  destruct Hs as (-> & HndS & HokS).
  set (testsetIDs := rawset_id <$> present (doc_sets config)) in *.
  (* info pages *)
  assert (match match doc_infopages config with
                | Some infopages =>
                    check_pages testIDs testgroupIDs testsetIDs infopages []
                | None => Some []
                end with
          | Some _ =>
              NoDup (pagedoc_id <$> present (doc_infopages config))
              /\ (forall page elems elemID,
                    page ∈ present (doc_infopages config) ->
                    pagedoc_belongs page = Some elems -> elemID ∈ elems ->
                    elemID ∈ testIDs \/ elemID ∈ testgroupIDs
                    \/ elemID ∈ testsetIDs)
          | None =>
              ~ (NoDup (pagedoc_id <$> present (doc_infopages config))
                 /\ (forall page elems elemID,
                       page ∈ present (doc_infopages config) ->
                       pagedoc_belongs page = Some elems -> elemID ∈ elems ->
                       elemID ∈ testIDs \/ elemID ∈ testgroupIDs
                       \/ elemID ∈ testsetIDs))
          end) as Hp.
  { destruct (doc_infopages config) as [ps|]; cbn [present].
    2:{ split_and!; [constructor|]. intros p ? ? Hp. by apply elem_of_nil in Hp. }
    rewrite check_pages_loop.
    pose proof (check_loop_spec pagedoc_id
                  (fun page => match pagedoc_belongs page with
                   | Some elems =>
                       forallb (fun elemID =>
                                  bool_decide (elemID ∈ testIDs)
                                  || bool_decide (elemID ∈ testgroupIDs)
                                  || bool_decide (elemID ∈ testsetIDs))
                               elems
                   | None => true
                   end) ps [] (NoDup_nil_2)) as H.
    cbn [app] in H. destruct (check_loop _ _ ps []) as [ids|].
    - destruct H as (-> & Hnd & Hok). split_and!; [done..|].
      intros p bs i Hp Hbs Hi. rewrite Forall_forall in Hok.
      specialize (Hok p Hp). rewrite Hbs, forallb_elem_of in Hok.
      specialize (Hok i Hi).
      apply orb_prop in Hok as [Hok|?%bool_decide_eq_true]; auto.
      apply orb_prop in Hok as [?%bool_decide_eq_true|?%bool_decide_eq_true]; auto.
    - intros [Hnd Hok]. apply H. split; [done|]. apply Forall_forall.
      intros p Hp. destruct (pagedoc_belongs p) as [bs|] eqn:Hbs; [|done].
      apply forallb_elem_of. intros i Hi.
      rewrite !orb_true_iff, !bool_decide_eq_true.
      destruct (Hok p bs i Hp Hbs Hi) as [?|[?|?]]; auto. }
  destruct (match doc_infopages config with
            | Some infopages =>
                check_pages testIDs testgroupIDs testsetIDs infopages []
            | None => Some []
            end) as [infopageIDs|].
  2:{ split; [done|]. intros (_ & _ & _ & _ & _ & _ & _ & ? & ?). by destruct Hp. }
  destruct Hp as (HndP & HokP).
  split; [|done]. intros _. split; [done|]. split_and!; try done.
  intros t o Ht Hc Ho. rewrite Forall_forall in HokT.
  by apply (proj1 (test_ok_spec t) (HokT t Ht) Hc).
Qed.

(** X17.  [validateConfig] accepts a document exactly when the schemas
    accept it, no two tests, no two groups, no two sets and no two pages
    share an id, every option of a multiple-options or speed test carries
    'correct', every group lists test ids, every set lists test or group
    ids, and every page belongs to test, group or set ids. *)
Theorem validateConfig_spec (config : ConfigDoc) :
  validateConfig validate config = true
  <-> validate config = true /\ well_formed config.
Proof. apply validateConfig_checks. Qed.

End ValidateFacts.


(** ** [createJournalStructure]: what the structure is made of *)

Lemma tests_fold_lookup (ts : list SingleTest) : forall (m : gmap Z SingleTest) i t,
  fold_left (fun m rawTest => <[id rawTest := rawTest]> m) ts m !! i = Some t ->
  (t ∈ ts /\ id t = i) \/ m !! i = Some t.
Proof.
  induction ts as [|x ts IH]; intros m i t; cbn [fold_left]; [by right|].
  intros [[Hin Hid]|Hm]%IH.
  - left. split; [by right|done].
  - destruct (decide (id x = i)) as [<-|Hne].
    + rewrite lookup_insert in Hm. 
      rewrite decide_True in Hm by done. injection Hm as <-. left. split; [by left|done].
    + rewrite lookup_insert_ne in Hm by done. by right.
Qed.

Lemma tests_fold_is_Some (ts : list SingleTest) : forall (m : gmap Z SingleTest) i,
  i ∈ id <$> ts \/ is_Some (m !! i) ->
  is_Some (fold_left (fun m rawTest => <[id rawTest := rawTest]> m) ts m !! i).
Proof.
  induction ts as [|x ts IH]; intros m i; cbn [fold_left fmap list_fmap].
  - intros [?%elem_of_nil|?]; done.
  - intros [[->|Hin]%elem_of_cons|Hm]; apply IH.
    + right. rewrite lookup_insert, decide_True by done. by eexists.
    + by left.
    + right. rewrite lookup_insert. case_decide; [by eexists|done].
Qed.

Lemma allSingleTests_lookup (course_ : CourseConfig) (i : Z) (t : SingleTest) :
  allSingleTests course_ !! i = Some t -> t ∈ tests course_ /\ id t = i.
Proof.
  unfold allSingleTests. intros [?|Hm]%tests_fold_lookup; [done|].
  by rewrite lookup_empty in Hm.
Qed.

Lemma allSingleTests_is_Some (course_ : CourseConfig) (i : Z) :
  i ∈ id <$> tests course_ -> is_Some (allSingleTests course_ !! i).
Proof. intros Hi. apply tests_fold_is_Some. by left. Qed.

Lemma allInfopages_lookup (course_ : CourseConfig) (i : Z) (p : Infopage) :
  allInfopages course_ !! i = Some p -> p ∈ infopages course_ /\ i ∈ belongs p.
Proof.
  unfold allInfopages.
  assert (forall (ps : list Infopage) (m : gmap Z Infopage),
            fold_left
              (fun m page => fold_left (fun m belongsId => <[belongsId := page]> m)
                                       (belongs page) m) ps m !! i = Some p ->
            (p ∈ ps /\ i ∈ belongs p) \/ m !! i = Some p) as Hgen.
  { induction ps as [|x ps IH]; intros m; cbn [fold_left]; [by right|].
    intros [[Hin Hb]|Hm]%IH; [left; split; [by right|done]|].
    assert (forall (bs : list Z) (m : gmap Z Infopage),
              fold_left (fun m belongsId => <[belongsId := x]> m) bs m !! i
              = Some p -> (p = x /\ i ∈ bs) \/ m !! i = Some p) as Hin.
    { induction bs as [|b bs IHb]; intros m'; cbn [fold_left]; [by right|].
      intros [[-> Hi]|Hm']%IHb; [left; split; [done|by right]|].
      rewrite lookup_insert in Hm'. case_decide as Hb.
      - injection Hm' as <-. subst b. left. split; [done|by left].
      - by right. }
    apply Hin in Hm as [[-> Hi]|Hm]; [|by right].
    left. split; [by left|done]. }
  intros [?|Hm]%Hgen; [done|]. by rewrite lookup_empty in Hm.
Qed.

Lemma select_loop_from (course_ : CourseConfig) k gtests rnd :
  forall indices temp ts rnd',
    (forall t, Some t ∈ temp -> allSingleTests course_ !! id t = Some t) ->
    select_loop (allSingleTests course_) k gtests rnd indices temp
    = Ret (ts, rnd') ->
    forall t, Some t ∈ ts -> allSingleTests course_ !! id t = Some t.
Proof.
  induction rnd as [|d rnd IH]; intros indices temp ts rnd' Htemp;
    cbn [select_loop]; destruct (negb _); try done.
  - by intros [= <- <-].
  - by intros [= <- <-].
  - case_bool_decide; [by apply IH|]. apply IH.
    intros t [Ht|Ht%list_elem_of_singleton]%elem_of_app; [by apply Htemp|].
    destruct (gtests !! _) as [i|]; [|done]. cbn in Ht.
    symmetry in Ht. destruct (allSingleTests_lookup _ _ _ Ht) as [_ <-]. done.
Qed.

Lemma resolve_group_from (course_ : CourseConfig) raw group rnd ts rnd' :
  resolve_group (allSingleTests course_) raw group rnd = Ret (ts, rnd') ->
  forall t, Some t ∈ ts -> allSingleTests course_ !! id t = Some t.
Proof.
  assert (forall (l : list Z) t,
            Some t ∈ (allSingleTests course_ !!.) <$> l ->
            allSingleTests course_ !! id t = Some t) as Hmap.
  { intros l t [i [Ht _]]%list_elem_of_fmap. symmetry in Ht.
    destruct (allSingleTests_lookup _ _ _ Ht) as [_ <-]. done. }
  unfold resolve_group. destruct raw as [rawTests|].
  { intros [= <- <-]. apply Hmap. }
  destruct (select group) as [n|]; [|intros [= <- <-]; apply Hmap].
  case_bool_decide; [intros [= <- <-]; apply Hmap|].
  apply select_loop_from. by intros t ?%elem_of_nil.
Qed.

Lemma resolve_groups_from (course_ : CourseConfig) raw groups :
  forall rnd G G' rnd',
    from_course (allSingleTests course_) G ->
    resolve_groups (allSingleTests course_) raw groups rnd G = Ret (G', rnd') ->
    from_course (allSingleTests course_) G'.
Proof.
  induction groups as [|g groups IH]; intros rnd G G' rnd' HG;
    cbn [resolve_groups].
  - by intros [= <- <-].
  - destruct (resolve_group _ raw g rnd) as [[temp rnd1]| | |] eqn:Hg; try done.
    cbn [mbind outcome_bind obind]. apply IH.
    intros gid ts t Hts Ht. rewrite lookup_insert in Hts.
    case_decide; [|by eapply HG]. injection Hts as <-.
    by eapply resolve_group_from.
Qed.

Lemma page_before_of_course course_ i e :
  e ∈ page_before (allInfopages course_) i -> element_of_course course_ e.
Proof.
  unfold page_before. destruct (allInfopages course_ !! i) as [p|] eqn:Hp;
    [|by intros ?%elem_of_nil].
  intros ->%list_elem_of_singleton. cbn.
  by apply allInfopages_lookup in Hp as [? _].
Qed.

Lemma expand_group_of_course course_ ts : forall es,
  (forall t, Some t ∈ ts -> allSingleTests course_ !! id t = Some t) ->
  expand_group (allInfopages course_) ts = Ret es ->
  Forall (element_of_course course_) es.
Proof.
  induction ts as [|[t|] ts IH]; intros es Hts; cbn [expand_group]; [|  |done].
  - intros [= <-]. constructor.
  - destruct (expand_group _ ts) as [rest| | |] eqn:Hr; try done.
    cbn [mbind outcome_bind obind]. intros [= <-].
    apply Forall_app. split.
    + apply Forall_forall. intros e. apply page_before_of_course.
    + apply Forall_cons. split; [apply Hts; by left|].
      apply IH; [|done]. intros t' Ht'. apply Hts. by right.
Qed.

Lemma expand_elements_of_course course_ G els : forall es,
  from_course (allSingleTests course_) G ->
  expand_elements (allSingleTests course_) (allInfopages course_) G els = Ret es ->
  Forall (element_of_course course_) es.
Proof.
  induction els as [|e els IH]; intros es HG; cbn [expand_elements].
  - intros [= <-]. constructor.
  - destruct (expand_element _ _ G e) as [es1| | |] eqn:H1; try done.
    cbn [mbind outcome_bind obind].
    destruct (expand_elements _ _ G els) as [rest| | |] eqn:Hr; try done.
    cbn [mbind outcome_bind obind]. intros [= <-].
    apply Forall_app. split; [|by apply IH].
    unfold expand_element in H1.
    destruct (allSingleTests course_ !! e) as [t|] eqn:Ht.
    + injection H1 as <-. apply Forall_app. split.
      * apply Forall_forall. intros x. apply page_before_of_course.
      * apply Forall_singleton. cbn.
        destruct (allSingleTests_lookup _ _ _ Ht) as [_ <-]. done.
    + destruct (G !! e) as [ts|] eqn:Hts; [|done].
      destruct (expand_group _ ts) as [es2| | |] eqn:H2; try done.
      cbn in H1. injection H1 as <-. apply Forall_app. split.
      * apply Forall_forall. intros x. apply page_before_of_course.
      * eapply expand_group_of_course; [|done]. intros t' Ht'. by eapply HG.
Qed.

Lemma build_sets_of_course course_ G rawSets : forall ss,
  from_course (allSingleTests course_) G ->
  build_sets (allSingleTests course_) (allInfopages course_) G rawSets = Ret ss ->
  testset_id <$> ss = rawset_id <$> rawSets
  /\ Forall (fun s => Forall (element_of_course course_) (testset_elements s)) ss.
Proof.
  induction rawSets as [|r rawSets IH]; intros ss HG; cbn [build_sets].
  - intros [= <-]. split; [done|constructor].
  - destruct (expand_elements _ _ G (elements r)) as [es| | |] eqn:He; try done.
    cbn [mbind outcome_bind obind].
    destruct (build_sets _ _ G rawSets) as [rest| | |] eqn:Hr; try done.
    cbn [mbind outcome_bind obind]. intros [= <-].
    destruct (IH rest HG eq_refl) as [Hids Hall]. split.
    + cbn. by rewrite Hids.
    + constructor; [|done]. cbn. by eapply expand_elements_of_course.
Qed.

Lemma createJournalStructure_of_course course_ journalStrucMin rnd js rnd' :
  createJournalStructure course_ journalStrucMin rnd = Ret (js, rnd') ->
  testset_id <$> js_sets js = rawset_id <$> sets course_
  /\ Forall (fun s => Forall (element_of_course course_) (testset_elements s))
            (js_sets js).
Proof.
  unfold createJournalStructure.
  destruct (resolve_groups _ _ _ _ _) as [[G rnd1]| | |] eqn:HG; try done.
  cbn [mbind outcome_bind obind].
  destruct (build_sets _ _ G _) as [ss| | |] eqn:Hs; try done.
  cbn [mbind outcome_bind obind]. intros [= <- <-]. cbn [js_sets].
  eapply build_sets_of_course; [|done].
  eapply resolve_groups_from; [|done].
  intros gid ts t Hts. by rewrite lookup_empty in Hts.
Qed.

Lemma find_config_is_Some (config : CourseConfig) (t : SingleTest) :
  t ∈ tests config -> exists t', find_config config (id t) = Some t'.
Proof.
  intros Ht. unfold find_config.
  destruct (List.find _ (tests config)) as [t'|] eqn:Hf; [by exists t'|].
  apply list_elem_of_In in Ht.
  pose proof (find_none _ _ Hf t Ht) as Hn. cbn in Hn.
  by rewrite bool_decide_eq_true_2 in Hn.
Qed.

Section Built.
Variable Factory_create : string -> SingleTest -> outcome (option TestInstance).

(** X20.  Whatever [createJournalStructure] returns is made of the
    course: it has the sets of the course, in order and by id; its tests
    are tests of the course and its pages pages of the course.  Hence
    every test id of the structure saved for it has a test in the
    configuration, and [calculate] on a journal with this structure
    returns [null] only when a test to be evaluated has no pair in the
    log. *)
Theorem built_structure_is_of_course (course_ : CourseConfig)
    (journalStrucMin : option JournalStructureMinimal) (rnd rnd' : Rand)
    (js : JournalStructure) (courseName courseLanguage : string)
    (savedLog : SavedLog) :
  createJournalStructure course_ journalStrucMin rnd = Ret (js, rnd') ->
  let saved := prepareJournalStructureForSaving courseName courseLanguage js in
  testset_id <$> js_sets js = rawset_id <$> sets course_
  /\ set <$> min_sets saved = rawset_id <$> sets course_
  /\ (forall s e, s ∈ js_sets js -> e ∈ testset_elements s ->
        match e with
        | TEST t => t ∈ tests course_
        | INFOPAGE p => p ∈ infopages course_
        end)
  /\ (forall singleTestID,
        singleTestID ∈ structure_ids (min_sets saved) ->
        exists t, find_config course_ singleTestID = Some t)
  /\ (calculate Factory_create course_
        {| log := savedLog; structure := saved |} = Ret None ->
      exists singleTestID t,
        singleTestID ∈ structure_ids (min_sets saved)
        /\ find_config course_ singleTestID = Some t
        /\ evaluated t = true
        /\ no_log {| log := savedLog; structure := saved |} singleTestID).
Proof.
  intros Hrun saved.
  apply createJournalStructure_of_course in Hrun as [Hids Hall].
  assert (forall singleTestID,
            singleTestID ∈ structure_ids (min_sets saved) ->
            exists t, find_config course_ singleTestID = Some t) as Hcfg.
  { intros i (ms & Hms & Hi)%elem_of_structure_ids.
    unfold saved, prepareJournalStructureForSaving in Hms. cbn [min_sets] in Hms.
    apply list_elem_of_fmap in Hms as (s & -> & Hs). cbn [min_tests] in Hi.
    apply list_elem_of_omap in Hi as (e & He & Hei).
    rewrite Forall_forall in Hall. specialize (Hall s Hs).
    rewrite Forall_forall in Hall. specialize (Hall e He).
    destruct e as [t|p]; [|done]. injection Hei as <-. cbn in Hall.
    apply allSingleTests_lookup in Hall as [Ht _].
    by apply find_config_is_Some. }
  split_and!; [done| | |done|].
  - rewrite <- Hids. unfold saved, prepareJournalStructureForSaving.
    cbn [min_sets]. rewrite <- list_fmap_compose. done.
  - intros s e Hs He. rewrite Forall_forall in Hall. specialize (Hall s Hs).
    rewrite Forall_forall in Hall. specialize (Hall e He).
    destruct e as [t|p]; [|done]. cbn in Hall.
    by apply allSingleTests_lookup in Hall as [Ht _].
  - intros Hnull. unfold calculate in Hnull. cbn [structure] in Hnull.
    destruct (gather_sets _ _ _ _) as [td|] eqn:Hg.
    { by destruct (score_tests _ _ _). }
    apply gather_sets_None in Hg as (i & Hi & Hbad).
    destruct Hbad as [Hnone|(t & Ht & Hev & Hl)].
    + destruct (Hcfg i Hi) as [t Ht]. congruence.
    + exists i, t. split_and!; [done..|]. by apply find_log_no_log.
Qed.

End Built.

Lemma built_structure_is_of_course_witness :
  let saved := prepareJournalStructureForSaving "cs" "en" sample_structure in
  testset_id <$> js_sets sample_structure = rawset_id <$> sets group_config
  /\ set <$> min_sets saved = rawset_id <$> sets group_config
  /\ (forall s e, s ∈ js_sets sample_structure -> e ∈ testset_elements s ->
        match e with
        | TEST t => t ∈ tests group_config
        | INFOPAGE p => p ∈ infopages group_config
        end)
  /\ (forall singleTestID,
        singleTestID ∈ structure_ids (min_sets saved) ->
        exists t, find_config group_config singleTestID = Some t)
  /\ (calculate speed_factory group_config
        {| log := sample_log; structure := saved |} = Ret None ->
      exists singleTestID t,
        singleTestID ∈ structure_ids (min_sets saved)
        /\ find_config group_config singleTestID = Some t
        /\ evaluated t = true
        /\ no_log {| log := sample_log; structure := saved |} singleTestID).
Proof.
  apply (built_structure_is_of_course speed_factory group_config None
           [4; 4; 3]%nat [] sample_structure "cs" "en" sample_log).
  vm_compute. reflexivity.
Defined.


(** ** A validated course can be built *)

Section Buildable.
Variable all : gmap Z SingleTest.
Variable pages : gmap Z Infopage.

Lemma select_loop_defined k gtests rnd : forall indices temp,
  gtests <> [] -> (forall i, i ∈ gtests -> is_Some (all !! i)) ->
  Forall is_Some temp ->
  no_throw true (select_loop all k gtests rnd indices temp)
    (fun '(ts, _) => Forall is_Some ts).
Proof.
  intros indices temp Hne Hdom. revert indices temp.
  induction rnd as [|d rnd IH]; intros indices temp Htemp;
    cbn [select_loop]; destruct (negb _); try done.
  case_bool_decide; [by apply IH|]. apply IH.
  apply Forall_app. split; [done|]. apply Forall_singleton.
  assert (random_index (length gtests) d < length gtests)%nat as Hlt.
  { apply random_index_lt. destruct gtests; [done|cbn; lia]. }
  destruct (lookup_lt_is_Some_2 gtests _ Hlt) as [i Hi]. rewrite Hi. cbn.
  apply Hdom. by eapply list_elem_of_lookup_2.
Qed.

Lemma resolve_group_defined raw group rnd :
  (forall i, i ∈ group_tests group -> is_Some (all !! i)) ->
  (raw = None -> (exists k, select group = Some k /\ k <> 0) ->
   group_tests group <> []) ->
  no_throw (bool_decide (raw = None)) (resolve_group all raw group rnd)
    (fun '(ts, _) => Forall is_Some ts).
Proof.
  intros Hdom Hne.
  assert (forall l : list Z, (forall i, i ∈ l -> i ∈ group_tests group) ->
            Forall is_Some ((all !!.) <$> l)) as Hmap.
  { intros l Hl. apply Forall_fmap, Forall_forall. intros i Hi. cbn. auto. }
  unfold resolve_group. destruct raw as [rawTests|]; cbn.
  { apply Hmap. by intros i [_ ?]%list_elem_of_filter. }
  destruct (select group) as [k|]; [|by apply Hmap].
  case_bool_decide as Hk; [by apply Hmap|].
  apply select_loop_defined; [|done|constructor].
  apply Hne; [done|]. by exists k.
Qed.

Lemma resolve_groups_defined raw groups : forall rnd G,
  (forall g i, g ∈ groups -> i ∈ group_tests g -> is_Some (all !! i)) ->
  (raw = None ->
   forall g, g ∈ groups -> (exists k, select g = Some k /\ k <> 0) ->
             group_tests g <> []) ->
  defined_groups G ->
  no_throw (bool_decide (raw = None)) (resolve_groups all raw groups rnd G)
    (fun '(G', _) =>
       defined_groups G'
       /\ forall gid, is_Some (G !! gid) \/ gid ∈ group_id <$> groups ->
                      is_Some (G' !! gid)).
Proof.
  induction groups as [|g groups IH]; intros rnd G Hdom Hne HG;
    cbn [resolve_groups].
  - cbn. split; [done|]. intros gid [?|?%elem_of_nil]; done.
  - assert (no_throw (bool_decide (raw = None)) (resolve_group all raw g rnd)
              (fun '(ts, _) => Forall is_Some ts)) as Hg.
    { apply resolve_group_defined.
      - intros i Hi. apply (Hdom g); [by left|done].
      - intros Hraw. apply Hne; [done|by left]. }
    destruct (resolve_group all raw g rnd) as [[temp rnd1]| | |];
      cbn in Hg |- *; try done.
    assert (no_throw (bool_decide (raw = None))
              (resolve_groups all raw groups rnd1 (<[group_id g := temp]> G))
              (fun '(G', _) =>
                 defined_groups G'
                 /\ forall gid,
                      is_Some (<[group_id g := temp]> G !! gid)
                      \/ gid ∈ group_id <$> groups -> is_Some (G' !! gid)))
      as Hrest.
    { apply IH.
      - intros g' i Hg' Hi. apply (Hdom g'); [by right|done].
      - intros Hraw g' Hg'. apply Hne; [done|by right].
      - intros gid ts Hts. rewrite lookup_insert in Hts.
        case_decide; [|by eapply HG]. by injection Hts as <-. }
    destruct (resolve_groups all raw groups rnd1 _) as [[G' rnd2]| | |];
      cbn in Hrest |- *; try done.
    destruct Hrest as [HG' Hdom']. split; [done|].
    intros gid Hgid. apply Hdom'.
    rewrite lookup_insert. case_decide; [left; by eexists|].
    destruct Hgid as [?|[->|?]%elem_of_cons]; [by left|done|by right].
Qed.

Lemma expand_group_returns ts :
  Forall is_Some ts -> returns (expand_group pages ts) = true.
Proof.
  induction 1 as [|[t|] ts [? Ht] _ IH]; cbn [expand_group]; [done| |done].
  destruct (expand_group pages ts); done.
Qed.

Lemma expand_elements_returns G els :
  defined_groups G ->
  (forall e, e ∈ els -> is_Some (all !! e) \/ is_Some (G !! e)) ->
  returns (expand_elements all pages G els) = true.
Proof.
  intros HG. induction els as [|e els IH]; intros Hels; [done|].
  cbn [expand_elements]. unfold expand_element.
  assert (returns (expand_elements all pages G els) = true) as Hrest.
  { apply IH. intros e' He'. apply Hels. by right. }
  destruct (all !! e) as [t|] eqn:Ht; cbn [mbind outcome_bind obind].
  - destruct (expand_elements all pages G els); done.
  - destruct (Hels e) as [[? ?]|[ts Hts]]; [by left|congruence|].
    rewrite Hts. pose proof (expand_group_returns ts (HG _ _ Hts)) as Hg.
    destruct (expand_group pages ts); try done. cbn.
    destruct (expand_elements all pages G els); done.
Qed.

Lemma build_sets_returns G rawSets :
  defined_groups G ->
  (forall s e, s ∈ rawSets -> e ∈ elements s ->
               is_Some (all !! e) \/ is_Some (G !! e)) ->
  returns (build_sets all pages G rawSets) = true.
Proof.
  intros HG. induction rawSets as [|s rawSets IH]; intros Hels; [done|].
  cbn [build_sets].
  assert (returns (expand_elements all pages G (elements s)) = true) as He.
  { apply expand_elements_returns; [done|].
    intros e Hin. apply (Hels s); [by left|done]. }
  assert (returns (build_sets all pages G rawSets) = true) as Hrest.
  { apply IH. intros s' e' Hs'. apply Hels. by right. }
  destruct (expand_elements all pages G (elements s)); try done. cbn.
  destruct (build_sets all pages G rawSets); done.
Qed.

End Buildable.

(** ** Saving a fresh structure and resuming from it *)

Section Resume.
Variable all : gmap Z SingleTest.
Variable pages : gmap Z Infopage.
Variable raw : list Z.

Lemma resolve_groups_all groups : forall rnd G,
  Forall takes_all groups ->
  resolve_groups all None groups rnd G
  = Ret (fold_left (fun G g => <[group_id g := (all !!.) <$> group_tests g]> G)
           groups G, rnd).
Proof.
  induction groups as [|g groups IH]; intros rnd G Hall; [done|].
  apply Forall_cons in Hall as [Hg Hall].
  cbn [resolve_groups fold_left].
  assert (resolve_group all None g rnd = Ret ((all !!.) <$> group_tests g, rnd)) as ->.
  { unfold resolve_group. destruct Hg as [->| ->]; [done|].
    by rewrite bool_decide_eq_true_2. }
  cbn [mbind outcome_bind obind]. by apply IH.
Qed.

Lemma resolve_groups_raw groups : forall rnd G,
  resolve_groups all (Some raw) groups rnd G
  = Ret (fold_left
           (fun G g => <[group_id g :=
                           (all !!.) <$> filter (.∈ raw) (group_tests g)]> G)
           groups G, rnd).
Proof.
  induction groups as [|g groups IH]; intros rnd G; [done|].
  cbn [resolve_groups resolve_group fold_left mbind outcome_bind obind].
  apply IH.
Qed.

Lemma fold_paired groups : forall Gf Gr,
  paired all raw Gf Gr ->
  paired all raw
    (fold_left (fun G g => <[group_id g := (all !!.) <$> group_tests g]> G)
       groups Gf)
    (fold_left
       (fun G g => <[group_id g :=
                       (all !!.) <$> filter (.∈ raw) (group_tests g)]> G)
       groups Gr).
Proof.
  induction groups as [|g groups IH]; intros Gf Gr HP; [done|].
  cbn [fold_left]. apply IH. intros e. rewrite !lookup_insert.
  case_decide; [by exists g|apply HP].
Qed.

Lemma expand_group_tests (ids : list Z) : forall es,
  expand_group pages ((all !!.) <$> ids) = Ret es ->
  forall i, i ∈ ids -> exists t, all !! i = Some t /\ TEST t ∈ es.
Proof.
  induction ids as [|j ids IH]; intros es; cbn [fmap list_fmap expand_group].
  - intros _ i Hi. by apply elem_of_nil in Hi.
  - destruct (all !! j) as [t|] eqn:Ht; [|done].
    destruct (expand_group pages _) as [rest| | |] eqn:Hr; try done.
    cbn [mbind outcome_bind obind]. intros [= <-] i [->|Hi]%elem_of_cons.
    + exists t. split; [done|]. apply elem_of_app. right. by left.
    + destruct (IH rest eq_refl i Hi) as (t' & Ht' & Hin).
      exists t'. split; [done|]. apply elem_of_app. right. by right.
Qed.

Lemma filter_all (l : list Z) :
  (forall i, i ∈ l -> i ∈ raw) -> filter (.∈ raw) l = l.
Proof.
  induction l as [|i l IH]; intros Hl; [done|].
  rewrite filter_cons, decide_True by (apply Hl; by left).
  rewrite IH; [done|]. intros j Hj. apply Hl. by right.
Qed.

(** the ids of the tests are their keys in [all] *)
Hypothesis all_keys : forall i t, all !! i = Some t -> id t = i.

Lemma expand_element_paired Gf Gr e es :
  paired all raw Gf Gr ->
  expand_element all pages Gf e = Ret es ->
  (forall t, TEST t ∈ es -> id t ∈ raw) ->
  expand_element all pages Gr e = Ret es.
Proof.
  intros HP Hrun Hraw. unfold expand_element in *.
  destruct (all !! e) as [t|]; [done|].
  specialize (HP e). destruct (Gf !! e) as [tf|]; [|done].
  destruct (Gr !! e) as [tr|]; [|done].
  destruct HP as (g & -> & ->).
  destruct (expand_group pages _) as [es'| | |] eqn:He; try done.
  cbn in Hrun. injection Hrun as <-.
  rewrite filter_all, He; [done|].
  intros i Hi. destruct (expand_group_tests _ _ He i Hi) as (t & Ht & Hin).
  rewrite <- (all_keys _ _ Ht). apply Hraw. apply elem_of_app. by right.
Qed.

Lemma expand_elements_paired Gf Gr els : forall es,
  paired all raw Gf Gr ->
  expand_elements all pages Gf els = Ret es ->
  (forall t, TEST t ∈ es -> id t ∈ raw) ->
  expand_elements all pages Gr els = Ret es.
Proof.
  induction els as [|e els IH]; intros es HP; cbn [expand_elements]; [done|].
  destruct (expand_element all pages Gf e) as [es1| | |] eqn:H1; try done.
  cbn [mbind outcome_bind obind].
  destruct (expand_elements all pages Gf els) as [rest| | |] eqn:Hr; try done.
  cbn [mbind outcome_bind obind]. intros [= <-] Hraw.
  rewrite (expand_element_paired Gf Gr e es1); [|done..|].
  2:{ intros t Ht. apply Hraw, elem_of_app. by left. }
  cbn [mbind outcome_bind obind]. rewrite (IH rest); [done..|].
  intros t Ht. apply Hraw, elem_of_app. by right.
Qed.

Lemma build_sets_paired Gf Gr rawSets : forall ss,
  paired all raw Gf Gr ->
  build_sets all pages Gf rawSets = Ret ss ->
  (forall s t, s ∈ ss -> TEST t ∈ testset_elements s -> id t ∈ raw) ->
  build_sets all pages Gr rawSets = Ret ss.
Proof.
  induction rawSets as [|r rawSets IH]; intros ss HP; cbn [build_sets]; [done|].
  destruct (expand_elements all pages Gf (elements r)) as [es| | |] eqn:He;
    try done.
  cbn [mbind outcome_bind obind].
  destruct (build_sets all pages Gf rawSets) as [rest| | |] eqn:Hr; try done.
  cbn [mbind outcome_bind obind]. intros [= <-] Hraw.
  rewrite (expand_elements_paired Gf Gr _ es); [|done..|].
  2:{ intros t Ht. eapply Hraw; [by left|done]. }
  cbn [mbind outcome_bind obind]. rewrite (IH rest); [done..|].
  intros s t Hs Ht. eapply Hraw; [by right|done].
Qed.

End Resume.

(** X21.  In a course whose groups all take all their tests, a fresh
    build draws nothing, and building again from the minimal structure
    saved for its result gives the same structure. *)
Theorem resume_rebuilds_fresh_structure (course_ : CourseConfig)
    (rnd rnd' rnd2 : Rand) (js : JournalStructure)
    (courseName courseLanguage : string) :
  Forall takes_all (testgroups course_) ->
  createJournalStructure course_ None rnd = Ret (js, rnd') ->
  rnd' = rnd
  /\ createJournalStructure course_
       (Some (prepareJournalStructureForSaving courseName courseLanguage js))
       rnd2
     = Ret (js, rnd2).
Proof.
  intros Hall. unfold createJournalStructure.
  cbn [fmap option_fmap option_map].
  rewrite resolve_groups_all by done. rewrite resolve_groups_raw.
  cbn [mbind outcome_bind obind].
  destruct (build_sets _ _ _ (sets course_)) as [ss| | |] eqn:Hb; try done.
  cbn [mbind outcome_bind obind]. intros [= <- <-]. split; [done|].
  erewrite build_sets_paired; [done| | |exact Hb|].
  - intros i t Ht. by apply allSingleTests_lookup in Ht as [_ ?].
  - apply fold_paired. intros e. by rewrite !lookup_empty.
  - intros s t Hs Ht. unfold journalStrucRawTests.
    apply elem_of_structure_ids.
    exists {| set := testset_id s;
              min_tests := omap (fun element =>
                                   match element with
                                   | TEST t => Some (id t)
                                   | INFOPAGE _ => None
                                   end) (testset_elements s) |}.
    split.
    + unfold prepareJournalStructureForSaving. cbn [min_sets js_sets].
      apply list_elem_of_fmap. by exists s.
    + cbn [min_tests]. apply list_elem_of_omap. by exists (TEST t).
Qed.

Lemma resume_rebuilds_fresh_structure_witness :
  ([] : Rand) = []
  /\ createJournalStructure whole_group_config
       (Some (prepareJournalStructureForSaving "cs" "en" whole_group_structure))
       [9]%nat
     = Ret (whole_group_structure, [9]%nat).
Proof.
  apply (resume_rebuilds_fresh_structure whole_group_config [] [] [9]%nat
           whole_group_structure "cs" "en").
  - repeat constructor.
  - vm_compute. reflexivity.
Defined.


(** ** The stored log: the other round trip, and what the backend reads *)

Lemma rebuild_pairs (l : list LogPair) : forall m1 : JsMap.t (list jsval),
  NoDup ((m1.*1 ++ (key <$> l))%list) ->
  fold_left (fun protoSet obj => JsMap.set (key obj) (val obj) protoSet) l m1
  = (m1 ++ ((fun obj => (key obj, val obj)) <$> l))%list.
Proof.
  induction l as [|obj l IH]; intros m1 Hnd; [by rewrite app_nil_r|].
  cbn [fold_left fmap list_fmap]. unfold JsMap.set.
  cbn [fmap list_fmap] in Hnd.
  apply NoDup_app in Hnd as (H1 & H12 & H2).
  apply NoDup_cons in H2 as [Hk H2].
  rewrite Obj_set_fresh.
  2:{ intros Hin. apply (H12 _ Hin). by left. }
  rewrite IH.
  - by rewrite <- (assoc_L app).
  - rewrite fmap_app. cbn. rewrite <- (assoc_L app). cbn.
    apply NoDup_app. split_and!; [done| |by constructor].
    intros x Hx. apply (H12 x Hx).
Qed.

(** X22.  The round trip from the stored side: when no set of a stored
    log holds a key twice, extracting the journal log and preparing it
    for saving gives the stored log back. *)
Theorem saved_log_round_trip (protoObj : SavedLog) :
  Forall (fun s => NoDup (key <$> maps s)) (log_sets protoObj) ->
  prepareJournalLogForSaving (extractSavedJournalLog protoObj) = protoObj.
Proof.
  destruct protoObj as [ss]. unfold extractSavedJournalLog,
    prepareJournalLogForSaving. cbn [jl_sets log_sets]. intros Hsets. f_equal.
  induction Hsets as [|s ss Hs Hss IH]; [done|].
  cbn [map]. f_equal; [|exact IH].
  rewrite (rebuild_pairs (maps s) []) by done. cbn [app].
  destruct s as [l]. cbn [maps]. f_equal. clear.
  induction l as [|[k v] l IH]; [done|]. cbn. by rewrite IH.
Qed.

Lemma saved_log_round_trip_witness :
  prepareJournalLogForSaving (extractSavedJournalLog sample_log) = sample_log.
Proof.
  apply (saved_log_round_trip sample_log).
  cbn. repeat constructor; set_solver.
Defined.

Lemma find_pair (m : JsMap.t (list jsval)) (k : Z) (v : list jsval) :
  JsMap.is_map m -> (k, v) ∈ m ->
  List.find (fun o => bool_decide (key o = k))
    (map (fun '(k, v) => {| key := k; val := v |}) m)
  = Some {| key := k; val := v |}.
Proof.
  unfold JsMap.is_map. induction m as [|[k' v'] m IH]; intros Hnd Hin.
  - by apply elem_of_nil in Hin.
  - cbn [fmap list_fmap fst] in Hnd. apply NoDup_cons in Hnd as [Hk Hnd].
    cbn [map List.find key].
    apply elem_of_cons in Hin as [[= <- <-]|Hin].
    + by rewrite bool_decide_eq_true_2.
    + rewrite bool_decide_eq_false_2; [by apply IH|].
      intros ->. apply Hk. apply list_elem_of_fmap. by exists (k, v).
Qed.

Lemma find_no_pair (m : JsMap.t (list jsval)) (k : Z) :
  k ∉ m.*1 ->
  List.find (fun o => bool_decide (key o = k))
    (map (fun '(k, v) => {| key := k; val := v |}) m) = None.
Proof.
  induction m as [|[k' v'] m IH]; intros Hk; [done|].
  cbn [fmap list_fmap fst] in Hk. apply not_elem_of_cons in Hk as [Hne Hk].
  cbn [map List.find key]. rewrite bool_decide_eq_false_2 by done. by apply IH.
Qed.

(** X23.  What the backend reads from a log that the frontend prepared:
    for a test id, the value that the last set holding the id maps it to,
    and nothing when no set holds the id. *)
Theorem backend_reads_last_logged (journalLog : JournalLog)
    (st : JournalStructureMinimal) (singleTestID : Z) :
  let journal := {| log := prepareJournalLogForSaving journalLog;
                    structure := st |} in
  (forall (before after : list (JsMap.t (list jsval))) m v,
      jl_sets journalLog = (before ++ m :: after)%list ->
      JsMap.is_map m -> (singleTestID, v) ∈ m ->
      (forall m', m' ∈ after -> singleTestID ∉ m'.*1) ->
      find_log journal singleTestID = Some v)
  /\ ((forall m, m ∈ jl_sets journalLog -> singleTestID ∉ m.*1) ->
      find_log journal singleTestID = None).
Proof.
  cbn zeta. unfold find_log, prepareJournalLogForSaving. cbn [log log_sets maps].
  assert (forall (after : list (JsMap.t (list jsval))) acc,
            (forall m', m' ∈ after -> singleTestID ∉ m'.*1) ->
            fold_left
              (fun testLog s =>
                 match List.find (fun m => bool_decide (key m = singleTestID))
                         (maps s) with
                 | Some m => Some (val m)
                 | None => testLog
                 end)
              (map (fun element =>
                      {| maps := map (fun '(k, v) => {| key := k; val := v |})
                                     element |}) after) acc = acc) as Hafter.
  { induction after as [|m' after IH]; intros acc Hno; [done|].
    cbn [map fold_left maps]. rewrite find_no_pair by (apply Hno; by left).
    apply IH. intros m'' Hm''. apply Hno. by right. }
  split.
  - intros before after m v -> Hm Hin Hno.
    rewrite map_app, fold_left_app. cbn [map fold_left maps].
    rewrite (find_pair m singleTestID v) by done. cbn [val].
    by apply Hafter.
  - intros Hno. by apply Hafter.
Qed.

Lemma backend_reads_last_logged_witness :
  let journal := {| log := prepareJournalLogForSaving sample_journal_log;
                    structure := structure sample_journal |} in
  (forall (before after : list (JsMap.t (list jsval))) m v,
      jl_sets sample_journal_log = (before ++ m :: after)%list ->
      JsMap.is_map m -> (1001, v) ∈ m ->
      (forall m', m' ∈ after -> 1001 ∉ m'.*1) ->
      find_log journal 1001 = Some v)
  /\ ((forall m, m ∈ jl_sets sample_journal_log -> 1001 ∉ m.*1) ->
      find_log journal 1001 = None).
Proof.
  apply (backend_reads_last_logged sample_journal_log
           (structure sample_journal) 1001).
Defined.


Lemma tests_fold_find (ts : list SingleTest) (i : Z) :
  NoDup (id <$> ts) ->
  forall m : gmap Z SingleTest,
    fold_left (fun m rawTest => <[id rawTest := rawTest]> m) ts m !! i
    = match List.find (fun test => bool_decide (id test = i)) ts with
      | Some t => Some t
      | None => m !! i
      end.
Proof.
  induction ts as [|x ts IH]; intros Hnd m; [done|].
  cbn [fmap list_fmap] in Hnd. apply NoDup_cons in Hnd as [Hx Hnd].
  cbn [fold_left List.find]. rewrite IH by done.
  destruct (bool_decide_reflect (id x = i)) as [Heq|Hne].
  - destruct (List.find _ ts) as [t|] eqn:Hf.
    + apply find_some in Hf as [Hin Ht%bool_decide_eq_true].
      destruct Hx. apply list_elem_of_fmap. exists t.
      split; [congruence|by apply list_elem_of_In].
    + rewrite lookup_insert. by rewrite decide_True.
  - destruct (List.find _ ts); [done|]. by rewrite lookup_insert_ne.
Qed.

(** X19.  On a course that [validateConfig] accepts, the frontend's
    [allSingleTests] (the last test with an id wins) and the backend's
    lookup in [calculate] (the first one wins) resolve every id to the
    same test. *)
Theorem frontend_and_backend_resolve_alike (validate : ConfigDoc -> bool)
    (course_ : CourseConfig) (singleTestID : Z) :
  validateConfig validate (config_doc course_) = true ->
  allSingleTests course_ !! singleTestID = find_config course_ singleTestID.
Proof.
  intros [_ (Hnd & _)]%validateConfig_checks.
  cbn [config_doc doc_tests] in Hnd.
  unfold allSingleTests, find_config. rewrite tests_fold_find by done.
  destruct (List.find _ _); [done|]. apply lookup_empty.
Qed.

Lemma frontend_and_backend_resolve_alike_witness :
  allSingleTests group_config !! 2 = find_config group_config 2.
Proof.
  apply (frontend_and_backend_resolve_alike (fun _ => true) group_config 2).
  vm_compute. reflexivity.
Defined.

(** * The code over its library calls, and the course file *)

(** ** The occurrence scorer over any regular-expression engine *)

Lemma search_index s pat index :
  Str.search s pat = Some index -> -1 <= index.
Proof.
  unfold Str.search, Str.indexOf. destruct (Str.all_chars _ pat); [|done].
  destruct (String.index 0 pat s); intros [= <-]; lia.
Qed.

(** [SpeedOcc] is the scorer with the engine for literal patterns. *)
Lemma SpeedRe_find_occurences_literal fuel : forall s pat acc,
  SpeedOcc.find_occurences fuel s pat acc
  = SpeedRe.find_occurences literal_search fuel s pat acc.
Proof.
  induction fuel as [|fuel IH]; intros s pat acc; [done|].
  cbn [SpeedOcc.find_occurences SpeedRe.find_occurences].
  unfold literal_search. destruct (Str.search s pat) as [i|] eqn:Hs; [|done].
  apply search_index in Hs.
  cbn [mbind outcome_bind obind]. destruct (Z.eqb_spec i (-1)); [done|].
  unfold SpeedRe.slice_from.
  destruct (Z.ltb_spec (i + Z.of_nat (String.length pat)) 0); [lia|]. apply IH.
Qed.

Lemma SpeedRe_step_literal i o v r :
  SpeedOcc.step i o v r = SpeedRe.step literal_search i o v r.
Proof.
  unfold SpeedOcc.step, SpeedRe.step.
  by rewrite SpeedRe_find_occurences_literal.
Qed.

Lemma SpeedRe_calculateResult_literal opts log :
  SpeedOcc.calculateResult opts log
  = SpeedRe.calculateResult literal_search opts log.
Proof.
  unfold SpeedOcc.calculateResult, SpeedRe.calculateResult.
  generalize 0%nat empty_result. induction log as [|v log IH]; intros i r; [done|].
  cbn [SpeedOcc.loop SpeedRe.loop]. destruct (opts !! i) as [o|]; [|done].
  rewrite SpeedRe_step_literal.
  destruct (SpeedRe.step literal_search i o v r); try done. cbn. apply IH.
Qed.

Section Engine.
Variable search : string -> string -> outcome Z.

(** a round that leaves the text as it is (a match of length [0] at
    offset [0], or any match in the empty text) is repeated for ever *)
Lemma SpeedRe_find_occurences_stuck fuel s pat index : forall acc,
  search s pat = Ret index -> index <> -1 ->
  SpeedRe.slice_from s (index + Z.of_nat (String.length pat)) = s ->
  SpeedRe.find_occurences search fuel s pat acc = Loops.
Proof.
  intros acc Hs Hne Hsame. revert acc.
  induction fuel as [|fuel IH]; intros acc; [done|].
  cbn [SpeedRe.find_occurences]. rewrite Hs. cbn [mbind outcome_bind obind].
  destruct (Z.eqb_spec index (-1)); [done|]. rewrite Hsame. apply IH.
Qed.

Lemma slice_shorter (s : string) (n : nat) :
  Str.slice s n = s
  \/ (String.length (Str.slice s n) < String.length s)%nat.
Proof.
  destruct n as [|n]; [left; apply slice_0|].
  destruct s as [|c s]; [left; reflexivity|].
  right. unfold Str.slice. rewrite substring_length. cbn [String.length]. lia.
Qed.

(** With any engine, every round of the scan either shortens the text or
    is repeated for ever: fuel beyond the length of the text changes no
    outcome, so [Loops] always stands for a scan that never ends. *)
Lemma SpeedRe_find_occurences_fuel (pat : string) (fuel1 : nat) :
  forall fuel2 s acc,
    (String.length s < fuel1)%nat -> (String.length s < fuel2)%nat ->
    SpeedRe.find_occurences search fuel1 s pat acc
    = SpeedRe.find_occurences search fuel2 s pat acc.
Proof.
  induction fuel1 as [|fuel1 IH]; intros fuel2 s acc H1 H2; [lia|].
  destruct fuel2 as [|fuel2]; [lia|]. cbn [SpeedRe.find_occurences].
  destruct (search s pat) as [i| | |] eqn:Hs; try done.
  cbn [mbind outcome_bind obind].
  destruct (Z.eqb_spec i (-1)) as [->|Hne]; [done|].
  unfold SpeedRe.slice_from at 1 2.
  destruct (slice_shorter s
              (Z.to_nat (if i + Z.of_nat (String.length pat) <? 0
                         then Z.of_nat (String.length s)
                              + (i + Z.of_nat (String.length pat))
                         else i + Z.of_nat (String.length pat))))
    as [Hsame|Hlt].
  - rewrite Hsame.
    by rewrite !(SpeedRe_find_occurences_stuck _ _ _ _ _ Hs Hne Hsame).
  - apply IH; lia.
Qed.

Lemma SpeedRe_step_cases i o v r r' :
  SpeedRe.step search i o v r = Ret r' ->
  r' = r \/ r' = award i r \/ r' = penalise i r.
Proof.
  unfold SpeedRe.step. destruct (negb (isArray v)); [intros [= <-]; auto|].
  destruct (Str.parseInt (index o)); [|intros [= <-]; auto].
  destruct (js_elem v 0); try (intros [= <-]; auto).
  destruct (js_elem v 1); try (intros [= <-]; auto).
  destruct (_ || _); [intros [= <-]; auto|].
  destruct (SpeedRe.find_occurences _ _ _ _ _); try done.
  cbn. destruct (_ && _); intros [= <-]; auto.
Qed.

Lemma SpeedRe_loop_scored opts log : forall k r r',
  scored_upto k r ->
  SpeedRe.loop search opts k log r = Ret r' ->
  scored_upto (k + length log) r' /\ (k + length log <= length opts)%nat
  \/ (log = [] /\ r' = r).
Proof.
  induction log as [|v log IH]; intros k r r' Hinv Hrun; [right; by injection Hrun|].
  left. cbn [SpeedRe.loop] in Hrun.
  destruct (opts !! k) as [o|] eqn:Ho; [|done].
  apply lookup_lt_Some in Ho.
  destruct (SpeedRe.step search k o v r) as [r1| | |] eqn:Hstep; try done.
  cbn in Hrun. apply SpeedRe_step_cases in Hstep.
  apply IH in Hrun as [[H1 H2] | [-> ->]].
  - cbn [length]. by rewrite Nat.add_succ_r.
  - cbn [length]. rewrite Nat.add_1_r. split; [|lia].
    by eapply scored_upto_step.
  - by eapply scored_upto_step.
Qed.

Lemma SpeedRe_scored opts log r :
  SpeedIncl.calculateResult (Some opts) log = Ret r
  \/ SpeedRe.calculateResult search opts log = Ret r ->
  scored_upto (length log) r /\ (length log <= length opts)%nat.
Proof.
  intros Hrun.
  assert (scored_upto (length log) r /\ (length log <= length opts)%nat
          \/ log = [] /\ r = empty_result) as Hinv.
  { destruct Hrun as [Hrun|Hrun].
    - by apply (SpeedIncl_loop_scored opts log 0 _ _ scored_upto_empty) in Hrun.
    - by apply (SpeedRe_loop_scored opts log 0 _ _ scored_upto_empty) in Hrun. }
  destruct Hinv as [?|[-> ->]]; [done|]. split; [apply scored_upto_empty|cbn; lia].
Qed.

End Engine.

Section EngineAgreement.
Variable search : string -> string -> outcome Z.

Lemma SpeedRe_step_unanswered i o v r :
  unanswered v = true -> SpeedRe.step search i o v r = Ret r.
Proof.
  unfold SpeedRe.step. destruct v as [| | | |s|l]; try done.
  intros Hv. cbn [isArray negb]. destruct (Str.parseInt (index o)); [|done].
  cbn [unanswered] in Hv.
  destruct (js_elem (JArr l) 0); try done.
  destruct (js_elem (JArr l) 1); try done.
  by rewrite Hv.
Qed.

Lemma SpeedRe_loop_unanswered opts log : forall i r,
  forallb unanswered log = true ->
  SpeedIncl.loop opts i log r = SpeedRe.loop search opts i log r.
Proof.
  induction log as [|v log IH]; intros i r Hlog; [done|].
  cbn [forallb] in Hlog. apply andb_prop in Hlog as [Hv Hlog].
  cbn [SpeedIncl.loop SpeedRe.loop]. destruct (opts !! i) as [o|]; [|done].
  rewrite SpeedIncl_step_unanswered, SpeedRe_step_unanswered by done.
  cbn. by apply IH.
Qed.

(** the scorer changes the result only on a span of two numbers other
    than [-1], for an option whose [index] parses *)
Lemma SpeedRe_step_span i o v r r' :
  SpeedRe.step search i o v r = Ret r' ->
  r' = r
  \/ (is_span v = true /\ (r' = award i r \/ r' = penalise i r)).
Proof.
  unfold SpeedRe.step, is_span. destruct v as [| | | | |l];
    try (intros [= <-]; by left).
  cbn [isArray negb].
  destruct (Str.parseInt (index o)); [|intros [= <-]; by left].
  destruct (js_elem (JArr l) 0); try (intros [= <-]; by left).
  destruct (js_elem (JArr l) 1); try (intros [= <-]; by left).
  destruct (_ || _); [intros [= <-]; by left|].
  destruct (SpeedRe.find_occurences _ _ _ _ _); try done.
  cbn. destruct (_ && _); intros [= <-]; right; auto.
Qed.

(** every index that the occurrence scorer lists is the position of a
    span in the log *)
Lemma SpeedRe_loop_spans opts log : forall rest k r r',
  drop k log = rest ->
  (forall i, i ∈ (correct_idx r ++ wrong_idx r)%list ->
             exists v, log !! i = Some v /\ is_span v = true) ->
  SpeedRe.loop search opts k rest r = Ret r' ->
  forall i, i ∈ (correct_idx r' ++ wrong_idx r')%list ->
            exists v, log !! i = Some v /\ is_span v = true.
Proof.
  induction rest as [|v rest IH]; intros k r r' Hdrop Hinv Hrun.
  - by injection Hrun as <-.
  - assert (log !! k = Some v) as Hv.
    { rewrite <- (Nat.add_0_r k), <- lookup_drop, Hdrop. done. }
    assert (drop (S k) log = rest) as Hdrop'.
    { replace (S k) with (k + 1)%nat by lia.
      rewrite <- drop_drop, Hdrop. done. }
    cbn [SpeedRe.loop] in Hrun. destruct (opts !! k) as [o|]; [|done].
    destruct (SpeedRe.step search k o v r) as [r1| | |] eqn:Hstep; try done.
    cbn in Hrun. apply (IH (S k) r1 r' Hdrop'); [|done].
    apply SpeedRe_step_span in Hstep as [->|[Hspan [->| ->]]]; [done| |];
      cbn [award penalise correct_idx wrong_idx]; intros i Hi.
    + rewrite <- (assoc_L app) in Hi.
      apply elem_of_app in Hi as [Hi|Hi].
      * apply Hinv, elem_of_app. by left.
      * apply elem_of_cons in Hi as [->|Hi]; [by exists v|].
        apply Hinv, elem_of_app. by right.
    + rewrite (assoc_L app) in Hi.
      apply elem_of_app in Hi as [Hi| ->%list_elem_of_singleton];
        [by apply Hinv|by exists v].
Qed.

Lemma incl_result_strings opts log k i :
  i ∈ (correct_idx (incl_result opts log k)
       ++ wrong_idx (incl_result opts log k))%list ->
  exists s, log !! i = Some (JStr s).
Proof.
  unfold incl_result. cbn [correct_idx wrong_idx].
  intros [Hi|Hi]%elem_of_app; apply list_elem_of_In, filter_In in Hi as [_ Hm].
  - unfold marked_correct in Hm. destruct (log !! i) as [[| | | |s|]|]; try done.
    by exists s.
  - unfold marked_wrong in Hm. destruct (log !! i) as [[| | | |s|]|]; try done.
    by exists s.
Qed.

(** on a log without answers both scorers do the same, and return the
    empty result when the log is no longer than the options *)
Lemma SpeedRe_agree_unanswered (opts : list SpeedOption) (log : list jsval) :
  forallb unanswered log = true ->
  SpeedIncl.calculateResult (Some opts) log
  = SpeedRe.calculateResult search opts log
  /\ ((length log <= length opts)%nat ->
      SpeedRe.calculateResult search opts log = Ret empty_result).
Proof.
  intros Hlog. split; [by apply SpeedRe_loop_unanswered|].
  unfold SpeedRe.calculateResult.
  change (length log <= length opts)%nat
    with (0 + length log <= length opts)%nat.
  generalize 0%nat empty_result.
  induction log as [|v log' IH]; intros i r Hlen; [done|].
  cbn [forallb] in Hlog. apply andb_prop in Hlog as [Hv Hlog].
  cbn [SpeedRe.loop]. cbn [length] in Hlen.
  destruct (lookup_lt_is_Some_2 opts i) as [o Ho]; [lia|]. rewrite Ho.
  rewrite SpeedRe_step_unanswered by done. cbn.
  apply IH; [done|lia].
Qed.

(** the entries that one scorer lists are strings, those that the other
    lists are spans: equal results are empty *)
Lemma SpeedRe_scores_apart (opts : list SpeedOption) (log : list jsval)
    (r1 r2 : Result) :
  SpeedIncl.calculateResult (Some opts) log = Ret r1 ->
  SpeedRe.calculateResult search opts log = Ret r2 ->
  (forall i, i ∈ (correct_idx r1 ++ wrong_idx r1)%list ->
             exists s, log !! i = Some (JStr s))
  /\ (forall i, i ∈ (correct_idx r2 ++ wrong_idx r2)%list ->
                exists v, log !! i = Some v /\ is_span v = true)
  /\ (r1 = r2 <-> r1 = empty_result /\ r2 = empty_result).
Proof.
  intros H1 H2.
  assert (forall i, i ∈ (correct_idx r1 ++ wrong_idx r1)%list ->
                    exists s, log !! i = Some (JStr s)) as Hstr.
  { unfold SpeedIncl.calculateResult in H1.
    change empty_result with (incl_result opts log 0) in H1.
    rewrite (SpeedIncl_loop_spec opts log log 0) in H1 by (done || lia).
    case_decide; [|done]. injection H1 as <-. apply incl_result_strings. }
  assert (forall i, i ∈ (correct_idx r2 ++ wrong_idx r2)%list ->
                    exists v, log !! i = Some v /\ is_span v = true) as Hspan.
  { apply (SpeedRe_loop_spans opts log log 0 empty_result r2); [done| |done].
    intros i Hi. by apply elem_of_nil in Hi. }
  split_and!; [done|done|]. split; [|by intros [-> ->]].
  intros <-.
  assert (correct_idx r1 ++ wrong_idx r1 = [])%list as Hnil.
  { destruct (correct_idx r1 ++ wrong_idx r1)%list as [|i l] eqn:Hl; [done|].
    destruct (Hstr i) as [s Hs]; [by left|].
    destruct (Hspan i) as (v & Hv & Hsp); [by left|].
    rewrite Hs in Hv. by injection Hv as <-. }
  apply app_eq_nil in Hnil as [Hc Hw].
  destruct (SpeedRe_scored search opts log r1 (or_introl H1)) as [(Hsc & _) _].
  rewrite Hc in Hsc. cbn in Hsc.
  assert (r1 = empty_result); [|done].
  destruct r1 as [sc c w]. cbn in *. by subst.
Qed.

(** C10, amended.  The two scorers read different logs and agree only
    where neither scores, whatever the regular-expression engine:
    - on a log whose entries are all unanswered the two do the same, and
      return the empty result when the log is no longer than the options;
    - whenever the two do the same, no result with a score or an index
      comes out: both return the empty result, or neither returns;
    - of two returned results, the one lists positions of strings of the
      log only, the other positions of spans only, and the two are equal
      only if both are empty. *)
Theorem speed_scorers_agree_only_unscored (opts : list SpeedOption)
    (log : list jsval) :
  (forallb unanswered log = true ->
   SpeedIncl.calculateResult (Some opts) log
   = SpeedRe.calculateResult search opts log
   /\ ((length log <= length opts)%nat ->
       SpeedRe.calculateResult search opts log = Ret empty_result))
  /\ (SpeedIncl.calculateResult (Some opts) log
      = SpeedRe.calculateResult search opts log ->
      SpeedRe.calculateResult search opts log = Ret empty_result
      \/ returns (SpeedRe.calculateResult search opts log) = false)
  /\ (forall r1 r2,
        SpeedIncl.calculateResult (Some opts) log = Ret r1 ->
        SpeedRe.calculateResult search opts log = Ret r2 ->
        (forall i, i ∈ (correct_idx r1 ++ wrong_idx r1)%list ->
                   exists s, log !! i = Some (JStr s))
        /\ (forall i, i ∈ (correct_idx r2 ++ wrong_idx r2)%list ->
                      exists v, log !! i = Some v /\ is_span v = true)
        /\ (r1 = r2 <-> r1 = empty_result /\ r2 = empty_result)).
Proof.
  split_and!.
  - apply SpeedRe_agree_unanswered.
  - intros Heq.
    destruct (SpeedRe.calculateResult search opts log) as [r| | |] eqn:Hr;
      [left|by right..].
    destruct (SpeedRe_scores_apart opts log r r Heq Hr) as (_ & _ & [He _]).
    destruct He as [-> _]; done.
  - apply SpeedRe_scores_apart.
Qed.

End EngineAgreement.

Lemma speed_scorers_agree_only_unscored_witness :
  (SpeedIncl.calculateResult (Some [colons; colons])
      [JBool false; JArr [JNum (-1); JNum (-1)]]
   = SpeedRe.calculateResult literal_search [colons; colons]
       [JBool false; JArr [JNum (-1); JNum (-1)]]
   /\ SpeedRe.calculateResult literal_search [colons; colons]
        [JBool false; JArr [JNum (-1); JNum (-1)]] = Ret empty_result)
  /\ (SpeedRe.calculateResult literal_search [unindexed]
        [JArr [JNum 2; JNum 3]] = Ret empty_result
      \/ returns (SpeedRe.calculateResult literal_search [unindexed]
                    [JArr [JNum 2; JNum 3]]) = false)
  /\ (let log := [JStr ":"; JArr [JNum 5; JNum 6]] in
      let r1 := {| score := 1; correct_idx := [0%nat]; wrong_idx := [] |} in
      let r2 := {| score := 0; correct_idx := []; wrong_idx := [1%nat] |} in
      (forall i, i ∈ (correct_idx r1 ++ wrong_idx r1)%list ->
                 exists s, log !! i = Some (JStr s))
      /\ (forall i, i ∈ (correct_idx r2 ++ wrong_idx r2)%list ->
                    exists v, log !! i = Some v /\ is_span v = true)
      /\ (r1 = r2 <-> r1 = empty_result /\ r2 = empty_result)).
Proof.
  split; [|split].
  - destruct (proj1 (speed_scorers_agree_only_unscored literal_search
                       [colons; colons]
                       [JBool false; JArr [JNum (-1); JNum (-1)]]) eq_refl)
      as [H1 H2].
    split; [exact H1|]. apply H2. cbn. lia.
  - apply (proj1 (proj2 (speed_scorers_agree_only_unscored literal_search
                           [unindexed] [JArr [JNum 2; JNum 3]]))).
    vm_compute. reflexivity.
  - apply (proj2 (proj2 (speed_scorers_agree_only_unscored literal_search
                           [colons; colons]
                           [JStr ":"; JArr [JNum 5; JNum 6]]))
             {| score := 1; correct_idx := [0%nat]; wrong_idx := [] |}
             {| score := 0; correct_idx := []; wrong_idx := [1%nat] |});
      vm_compute; reflexivity.
Defined.

(** X1.  Whatever either scorer returns is well formed, whatever the
    regular-expression engine answers: the score is the number of
    indices in [correct], [correct] and [wrong] ascend strictly, no index
    is in both, and every index is below the length of the log and below
    the number of options. *)
Theorem speed_result_well_formed (search : string -> string -> outcome Z)
    (opts : list SpeedOption) (log : list jsval) (r : Result) :
  SpeedIncl.calculateResult (Some opts) log = Ret r
  \/ SpeedRe.calculateResult search opts log = Ret r ->
  score r = Z.of_nat (length (correct_idx r))
  /\ StronglySorted lt (correct_idx r)
  /\ StronglySorted lt (wrong_idx r)
  /\ (forall i, i ∈ correct_idx r -> i ∉ wrong_idx r)
  /\ (forall i, i ∈ (correct_idx r ++ wrong_idx r)%list ->
        (i < length log)%nat /\ (i < length opts)%nat).
Proof.
  intros [(H1 & H2 & H3 & H4 & H5) Hlen]%SpeedRe_scored.
  split_and!; try done. intros j Hj. specialize (H5 j Hj). lia.
Qed.

Lemma speed_result_well_formed_witness :
  let r := {| score := 1; correct_idx := [0%nat]; wrong_idx := [1%nat] |} in
  score r = Z.of_nat (length (correct_idx r))
  /\ StronglySorted lt (correct_idx r)
  /\ StronglySorted lt (wrong_idx r)
  /\ (forall i, i ∈ correct_idx r -> i ∉ wrong_idx r)
  /\ (forall i, i ∈ (correct_idx r ++ wrong_idx r)%list ->
        (i < length [JArr [JNum 0; JNum 2]; JArr [JNum 0; JNum 1]])%nat
        /\ (i < length [dotted_option; dot_option])%nat).
Proof.
  apply (speed_result_well_formed any_char_search [dotted_option; dot_option]
           [JArr [JNum 0; JNum 2]; JArr [JNum 0; JNum 1]]).
  right. vm_compute. reflexivity.
Defined.

(** X5.  For a configuration whose options all carry the [correct]
    string that the scorer reads, [maxScore] is the number of options in
    both classes, every score returned lies between [0] and [maxScore],
    and the score plus the number of wrong indices does not exceed the
    length of the log, whatever the regular-expression engine answers. *)
Theorem speed_score_within_maxScore (search : string -> string -> outcome Z)
    (options : list TestOption)
    (opts : list SpeedOption) (log : list jsval) (r : Result) :
  Forall2 (fun option o => o_correct option = Some (JStr (correct o)))
          options opts ->
  SpeedIncl.calculateResult (Some opts) log = Ret r
  \/ SpeedRe.calculateResult search opts log = Ret r ->
  InclTest.maxScore (Some options) = Ret (OccTest.maxScore options)
  /\ OccTest.maxScore options = Z.of_nat (length options)
  /\ 0 <= score r <= OccTest.maxScore options
  /\ score r + Z.of_nat (length (wrong_idx r)) <= Z.of_nat (length log).
Proof.
  intros Hcfg [(H1 & H2 & H3 & H4 & H5) Hlen]%SpeedRe_scored.
  assert (OccTest.maxScore options = Z.of_nat (length options)) as Hmax.
  { unfold OccTest.maxScore. rewrite maxScore_fold.
    rewrite (List.forallb_filter_id _ options); [lia|].
    apply forallb_forall. intros o Ho%list_elem_of_In.
    apply list_elem_of_lookup in Ho as [i Hi].
    destruct (Forall2_lookup_l _ _ _ _ _ Hcfg Hi) as (so & _ & Hso).
    apply bool_decide_eq_true_2. by rewrite Hso. }
  split; [done|]. split; [done|]. rewrite Hmax.
  apply Forall2_length in Hcfg.
  assert (length (correct_idx r ++ wrong_idx r) <= length log)%nat as Hall.
  { apply NoDup_bounded_length; [|done].
    apply NoDup_app. split_and!; [by apply sorted_lt_NoDup|done|
                                   by apply sorted_lt_NoDup]. }
  rewrite length_app in Hall. lia.
Qed.

Lemma speed_score_within_maxScore_witness :
  let r := {| score := 1; correct_idx := [0%nat]; wrong_idx := [1%nat] |} in
  InclTest.maxScore (Some [dotted_test_option; dot_test_option])
  = Ret (OccTest.maxScore [dotted_test_option; dot_test_option])
  /\ OccTest.maxScore [dotted_test_option; dot_test_option]
     = Z.of_nat (length [dotted_test_option; dot_test_option])
  /\ 0 <= score r <= OccTest.maxScore [dotted_test_option; dot_test_option]
  /\ score r + Z.of_nat (length (wrong_idx r))
     <= Z.of_nat (length [JArr [JNum 0; JNum 2]; JArr [JNum 0; JNum 1]]).
Proof.
  apply (speed_score_within_maxScore any_char_search
           [dotted_test_option; dot_test_option] [dotted_option; dot_option]
           [JArr [JNum 0; JNum 2]; JArr [JNum 0; JNum 1]]).
  - repeat constructor.
  - right. vm_compute. reflexivity.
Defined.

(** ** [generateValidationCode] over any modulus *)

(** On the moduli that are strings of digits, and whenever [handle_meta]
    does not leave the modelled fragment, the two agree. *)
Lemma AnyModulus_reroll_digits modulo m rnd :
  Str.toNumber modulo = Some m ->
  reroll m rnd = AnyModulus.reroll digits_rem_is_zero modulo rnd.
Proof.
  intros Hm. induction rnd as [|d rnd IH]; [done|].
  cbn [reroll AnyModulus.reroll]. unfold digits_rem_is_zero. rewrite Hm.
  destruct (_ && _); [done|]. apply IH.
Qed.

Lemma AnyModulus_handle_meta_digits fuel token : forall code rnd,
  handle_meta fuel token code rnd <> Unmodelled ->
  handle_meta fuel token code rnd
  = AnyModulus.handle_meta digits_rem_is_zero fuel token code rnd.
Proof.
  induction fuel as [|fuel IH]; intros code rnd; [done|].
  cbn [handle_meta AnyModulus.handle_meta].
  destruct (Str.includes code token); [|done].
  destruct (_ && _).
  - destruct (Str.toNumber _) as [m|] eqn:Hm; [|done].
    rewrite <- (AnyModulus_reroll_digits _ m) by done.
    destruct (reroll m rnd) as [[number rnd']| | |]; try done.
    cbn [mbind outcome_bind obind]. apply IH.
  - repeat case_bool_decide; apply IH.
Qed.

Section Modulus.
Variable rem_is_zero : Z -> string -> bool.

Lemma AnyModulus_reroll_digit modulo rnd : forall number rnd',
  AnyModulus.reroll rem_is_zero modulo rnd = Ret (number, rnd') ->
  exists d : nat, number = Z.of_nat (d mod 10).
Proof.
  induction rnd as [|d rnd IH]; intros number rnd'; [done|].
  cbn [AnyModulus.reroll]. destruct (rem_is_zero _ _); [|by apply IH].
  intros [= <- <-]. by exists d.
Qed.

Lemma AnyModulus_handle_meta_stuck fuel token code rnd i :
  String.index 0 token code = Some i ->
  bool_decide (token = "%")
    && (Z.of_nat i <? Z.of_nat (String.length code) - 1) = false ->
  token <> "(" -> token <> ")" ->
  AnyModulus.handle_meta rem_is_zero fuel token code rnd = Loops.
Proof.
  intros Hi Hlast Hopen Hclose. induction fuel as [|fuel IH]; [done|].
  cbn [AnyModulus.handle_meta]. unfold Str.includes. rewrite Hi.
  cbn [default from_option]. unfold Datatypes.id. rewrite Hlast.
  by rewrite !bool_decide_eq_false_2.
Qed.

(** Every round of the loop but a stuck one shortens the code: fuel
    beyond the length of the code changes no outcome. *)
Lemma AnyModulus_handle_meta_fuel (token : string) (fuel1 : nat) :
  forall fuel2 code rnd,
    token ∈ metaTokens ->
    (String.length code < fuel1)%nat -> (String.length code < fuel2)%nat ->
    AnyModulus.handle_meta rem_is_zero fuel1 token code rnd
    = AnyModulus.handle_meta rem_is_zero fuel2 token code rnd.
Proof.
  induction fuel1 as [|fuel1 IH]; intros fuel2 code rnd Htok H1 H2; [lia|].
  destruct fuel2 as [|fuel2]; [lia|]. cbn [AnyModulus.handle_meta].
  unfold Str.includes. destruct (String.index 0 token code) as [i|] eqn:Hi;
    [|done].
  cbn [default from_option]. unfold Datatypes.id.
  pose proof (index_bound _ _ _ Hi) as Hb.
  destruct (bool_decide (token = "%")
            && (Z.of_nat i <? Z.of_nat (String.length code) - 1)) eqn:Hpc.
  - apply andb_prop in Hpc as [->%bool_decide_eq_true Hlt%Z.ltb_lt].
    destruct (AnyModulus.reroll _ _ rnd) as [[number rnd']| | |] eqn:Hr;
      try done.
    cbn [mbind outcome_bind obind].
    destruct (AnyModulus_reroll_digit _ _ _ _ Hr) as [d ->].
    destruct (modulo_found code i Hi) as (j & Hj & Hm); [lia|].
    pose proof (replace_length code _ (Str.of_Z (Z.of_nat (d mod 10))) j Hj)
      as Hlen.
    pose proof (index_bound _ _ _ Hj) as Hbj.
    rewrite digit_length in Hlen. rewrite append_length in Hlen, Hbj.
    cbn [String.length] in Hlen, Hbj.
    apply IH; [done|lia..].
  - unfold metaTokens in Htok.
    apply elem_of_cons in Htok as [->|Htok].
    { rewrite !bool_decide_eq_false_2 by done.
      by rewrite !(AnyModulus_handle_meta_stuck _ "%" code rnd i). }
    apply elem_of_cons in Htok as [->|Htok].
    { rewrite bool_decide_eq_true_2 by done.
      pose proof (replace_length code "(" "" i Hi) as Hlen.
      cbn [String.length] in Hlen, Hb. apply IH; [set_solver|lia..]. }
    apply elem_of_cons in Htok as [->|Htok]; [|by apply elem_of_nil in Htok].
    rewrite bool_decide_eq_false_2 by done.
    rewrite bool_decide_eq_true_2 by done.
    pose proof (replace_length code ")" "" i Hi) as Hlen.
    cbn [String.length] in Hlen, Hb. apply IH; [set_solver|lia..].
Qed.

Lemma AnyModulus_handle_meta_shrinks (token : string) (fuel : nat) :
  forall code rnd code' rnd',
    token ∈ metaTokens ->
    AnyModulus.handle_meta rem_is_zero fuel token code rnd = Ret (code', rnd') ->
    (String.length code' <= String.length code)%nat
    /\ Str.includes code' token = false
    /\ (forall c, c ∈ chars code' ->
          c ∈ chars code \/ (token = "%" /\ Str.is_digit c = true)).
Proof.
  induction fuel as [|fuel IH]; intros code rnd code' rnd' Htok; [done|].
  cbn [AnyModulus.handle_meta]. unfold Str.includes at 1.
  destruct (String.index 0 token code) as [i|] eqn:Hi.
  2:{ intros [= <- <-]. split; [done|]. split; [|by left].
      unfold Str.includes. by rewrite Hi. }
  cbn [default from_option]. unfold Datatypes.id.
  pose proof (index_bound _ _ _ Hi) as Hb.
  destruct (bool_decide (token = "%")
            && (Z.of_nat i <? Z.of_nat (String.length code) - 1)) eqn:Hpc.
  - apply andb_prop in Hpc as [->%bool_decide_eq_true Hlt%Z.ltb_lt].
    destruct (AnyModulus.reroll _ _ rnd) as [[number rnd1]| | |] eqn:Hr;
      try done.
    cbn [mbind outcome_bind obind].
    destruct (AnyModulus_reroll_digit _ _ _ _ Hr) as [d ->].
    destruct (modulo_found code i Hi) as (j & Hj & Hm); [lia|].
    pose proof (replace_length code _ (Str.of_Z (Z.of_nat (d mod 10))) j Hj)
      as Hlen.
    pose proof (index_bound _ _ _ Hj) as Hbj.
    rewrite digit_length in Hlen. rewrite append_length in Hlen, Hbj.
    cbn [String.length] in Hlen, Hbj.
    intros Hrun. apply IH in Hrun as (Hl & Hinc & Hch); [|done].
    split; [lia|]. split; [done|].
    intros c Hc. destruct (Hch c Hc) as [Hc'|Hc']; [|by right].
    apply chars_replace in Hc' as [Hc'|Hc']; [by left|]. right. split; [done|].
    destruct (draw_digit_cases d) as (x & Hx & Hin). rewrite Hx in Hc'.
    repeat (apply elem_of_cons in Hin as [->|Hin];
            [vm_compute in Hc'; apply list_elem_of_singleton in Hc' as ->;
             reflexivity|]).
    by apply elem_of_nil in Hin.
  - unfold metaTokens in Htok.
    apply elem_of_cons in Htok as [->|Htok].
    { rewrite !bool_decide_eq_false_2 by done.
      by rewrite !(AnyModulus_handle_meta_stuck _ "%" code rnd i). }
    apply elem_of_cons in Htok as [->|Htok].
    { rewrite bool_decide_eq_true_2 by done.
      pose proof (replace_length code "(" "" i Hi) as Hlen.
      cbn [String.length] in Hlen, Hb.
      intros Hrun. apply IH in Hrun as (Hl & Hinc & Hch); [|set_solver].
      split; [lia|]. split; [done|].
      intros c Hc. destruct (Hch c Hc) as [Hc'|[? _]]; [|done].
      apply chars_replace in Hc' as [Hc'|Hc']; [by left|].
      by apply elem_of_nil in Hc'. }
    apply elem_of_cons in Htok as [->|Htok]; [|by apply elem_of_nil in Htok].
    rewrite bool_decide_eq_false_2 by done.
    rewrite bool_decide_eq_true_2 by done.
    pose proof (replace_length code ")" "" i Hi) as Hlen.
    cbn [String.length] in Hlen, Hb.
    intros Hrun. apply IH in Hrun as (Hl & Hinc & Hch); [|set_solver].
    split; [lia|]. split; [done|].
    intros c Hc. destruct (Hch c Hc) as [Hc'|[? _]]; [|done].
    apply chars_replace in Hc' as [Hc'|Hc']; [by left|].
    by apply elem_of_nil in Hc'.
Qed.

Lemma AnyModulus_generate_inv schema rnd code rnd' :
  AnyModulus.generateValidationCode rem_is_zero schema rnd = Ret (code, rnd') ->
  exists c0 r0 c1 r1 c2 r2,
    for_tokens replace_token replaceTokens schema rnd = Ret (c0, r0)
    /\ AnyModulus.handle_meta rem_is_zero (S (String.length c0)) "%" c0 r0
       = Ret (c1, r1)
    /\ AnyModulus.handle_meta rem_is_zero (S (String.length c1)) "(" c1 r1
       = Ret (c2, r2)
    /\ AnyModulus.handle_meta rem_is_zero (S (String.length c2)) ")" c2 r2
       = Ret (code, rnd').
Proof.
  unfold AnyModulus.generateValidationCode, metaTokens.
  destruct (for_tokens replace_token _ _ _) as [[c0 r0]| | |]; try done.
  cbn [mbind outcome_bind obind for_tokens].
  destruct (AnyModulus.handle_meta _ _ "%" _ _) as [[c1 r1]| | |] eqn:H1;
    try done.
  cbn [mbind outcome_bind obind].
  destruct (AnyModulus.handle_meta _ _ "(" _ _) as [[c2 r2]| | |] eqn:H2;
    try done.
  cbn [mbind outcome_bind obind].
  destruct (AnyModulus.handle_meta _ _ ")" _ _) as [[c3 r3]| | |] eqn:H3;
    try done.
  cbn [mbind outcome_bind obind]. intros [= <- <-].
  by exists c0, r0, c1, r1, c2, r2.
Qed.

(** X15.  Every code that [generateValidationCode] returns is no longer
    than the schema and contains none of the meta tokens "%", "(" and
    ")", whatever follows a "%" in the schema and whatever the test
    [number % modulo === 0] makes of it. *)
Theorem generated_code_is_clean (schema : string) (rnd rnd' : Rand)
    (code : string) :
  AnyModulus.generateValidationCode rem_is_zero schema rnd = Ret (code, rnd') ->
  (String.length code <= String.length schema)%nat
  /\ Str.includes code "%" = false
  /\ Str.includes code "(" = false
  /\ Str.includes code ")" = false.
Proof.
  intros (c0 & r0 & c1 & r1 & c2 & r2 & H0 & H1 & H2 & H3)%AnyModulus_generate_inv.
  apply replace_tokens_shrink in H0.
  apply AnyModulus_handle_meta_shrinks in H1 as (L1 & I1 & C1); [|set_solver].
  apply AnyModulus_handle_meta_shrinks in H2 as (L2 & I2 & C2); [|set_solver].
  apply AnyModulus_handle_meta_shrinks in H3 as (L3 & I3 & C3); [|set_solver].
  assert (forall c, c ∈ chars code -> c ∈ chars c2) as C3'.
  { intros c Hc. by destruct (C3 c Hc) as [?|[? _]]. }
  assert (forall c, c ∈ chars c2 -> c ∈ chars c1) as C2'.
  { intros c Hc. by destruct (C2 c Hc) as [?|[? _]]. }
  split; [lia|]. split_and!; [| |done].
  - destruct (Str.includes code "%") eqn:Hi; [|done].
    apply includes_char, C3', C2', includes_char in Hi. congruence.
  - destruct (Str.includes code "(") eqn:Hi; [|done].
    apply includes_char, C3', includes_char in Hi. congruence.
Qed.

End Modulus.

(** [generateValidationCode] is the generator with the test for moduli
    that are strings of digits, wherever it stays in its fragment. *)
Lemma AnyModulus_generate_digits schema rnd :
  generateValidationCode schema rnd <> Unmodelled ->
  generateValidationCode schema rnd
  = AnyModulus.generateValidationCode digits_rem_is_zero schema rnd.
Proof.
  unfold generateValidationCode, AnyModulus.generateValidationCode, metaTokens.
  destruct (for_tokens replace_token _ _ _) as [[c0 r0]| | |]; try done.
  cbn [mbind outcome_bind obind for_tokens].
  intros Hne.
  rewrite <- (AnyModulus_handle_meta_digits _ "%").
  2:{ intros H. by rewrite H in Hne. }
  destruct (handle_meta _ "%" _ _) as [[c1 r1]| | |]; try done.
  cbn [mbind outcome_bind obind] in *.
  rewrite <- (AnyModulus_handle_meta_digits _ "(").
  2:{ intros H. by rewrite H in Hne. }
  destruct (handle_meta _ "(" _ _) as [[c2 r2]| | |]; try done.
  cbn [mbind outcome_bind obind] in *.
  rewrite <- (AnyModulus_handle_meta_digits _ ")").
  2:{ intros H. by rewrite H in Hne. }
  done.
Qed.

Lemma generated_code_is_clean_witness :
  (String.length "KX-46" <= String.length "[A-Z](X)-[0-9]% 2")%nat
  /\ Str.includes "KX-46" "%" = false
  /\ Str.includes "KX-46" "(" = false
  /\ Str.includes "KX-46" ")" = false.
Proof.
  apply (generated_code_is_clean spaced_rem_is_zero "[A-Z](X)-[0-9]% 2"
           [4; 10; 3; 6]%nat []).
  vm_compute. reflexivity.
Defined.

(** ** [createJournalStructure] on the course file *)

Lemma OnFile_allInfopages_complete (infopages_ : list PageFile) :
  forall pages m,
    mapM page_complete infopages_ = Some pages ->
    OnFile.allInfopages infopages_ m
    = Ret (fold_left
             (fun m page =>
                fold_left (fun m belongsId => <[belongsId := page]> m)
                          (belongs page) m)
             pages m).
Proof.
  induction infopages_ as [|page ps IH]; intros pages m; cbn [mapM].
  - by intros [= <-].
  - destruct (page_complete page) as [p|] eqn:Hpage; cbn [mbind option_bind];
      [|done].
    unfold page_complete in Hpage.
    destruct (pf_belongs page) as [bs|] eqn:Hb; [|done].
    cbn in Hpage. injection Hpage as <-.
    destruct (mapM page_complete ps) as [pages'|]; cbn [mbind option_bind];
      [|done].
    cbn [mret option_ret]. intros [= <-].
    cbn [OnFile.allInfopages fold_left belongs]. rewrite Hb.
    cbn [OnFile.read mbind outcome_bind obind]. by apply IH.
Qed.

Lemma OnFile_allInfopages_incomplete (infopages_ : list PageFile) :
  forall m,
    mapM page_complete infopages_ = None ->
    OnFile.allInfopages infopages_ m = Throws.
Proof.
  induction infopages_ as [|page ps IH]; intros m; cbn [mapM]; [done|].
  cbn [OnFile.allInfopages].
  destruct (page_complete page) as [p|] eqn:Hpage; cbn [mbind option_bind].
  - unfold page_complete in Hpage.
    destruct (pf_belongs page) as [bs|] eqn:Hb; [|done].
    cbn [OnFile.read mbind outcome_bind obind].
    destruct (mapM page_complete ps) as [pages'|];
      cbn [mbind option_bind mret option_ret]; [done|].
    intros _. by apply IH.
  - unfold page_complete in Hpage.
    by destruct (pf_belongs page) as [bs|] eqn:Hb.
Qed.

Lemma OnFile_build_sets_complete all pages G (sets_ : list SetFile) :
  forall rawSets,
    mapM set_complete sets_ = Some rawSets ->
    OnFile.build_sets all pages G sets_ = build_sets all pages G rawSets.
Proof.
  induction sets_ as [|s ss IH]; intros rawSets; cbn [mapM].
  - by intros [= <-].
  - destruct (set_complete s) as [r|] eqn:Hset; cbn [mbind option_bind];
      [|done].
    unfold set_complete in Hset.
    destruct (sf_evaluationTexts s) as [texts|] eqn:Ht; [|done].
    cbn in Hset. injection Hset as <-.
    destruct (mapM set_complete ss) as [rest|]; cbn [mbind option_bind];
      [|done].
    cbn [mret option_ret]. intros [= <-].
    cbn [OnFile.build_sets build_sets]. rewrite Ht.
    cbn [OnFile.read mbind outcome_bind obind elements rawset_id
         scoreIndependent scoreDependent].
    by rewrite (IH rest).
Qed.

Lemma OnFile_build_sets_incomplete all pages G (sets_ : list SetFile) :
  mapM set_complete sets_ = None ->
  OnFile.build_sets all pages G sets_ = Throws.
Proof.
  induction sets_ as [|s ss IH]; cbn [mapM]; [done|].
  cbn [OnFile.build_sets].
  destruct (set_complete s) as [r|] eqn:Hset; cbn [mbind option_bind].
  2:{ unfold set_complete in Hset.
      by destruct (sf_evaluationTexts s) as [texts|] eqn:Ht. }
  unfold set_complete in Hset.
  destruct (sf_evaluationTexts s) as [texts|] eqn:Ht; [|done].
  cbn [OnFile.read mbind outcome_bind obind].
  destruct (mapM set_complete ss) as [rest|];
    cbn [mbind option_bind mret option_ret]; [done|].
  intros _. rewrite IH by done.
  pose proof (expand_elements_settled all pages G (sf_elements s)) as He.
  by destruct (expand_elements all pages G (sf_elements s)).
Qed.

(** the selection loops neither throw nor leave the model *)
Lemma select_loop_draws all k gtests rnd : forall indices temp,
  select_loop all k gtests rnd indices temp <> Throws
  /\ select_loop all k gtests rnd indices temp <> Unmodelled.
Proof.
  induction rnd as [|d rnd IH]; intros indices temp; cbn [select_loop];
    destruct (negb _); try done.
  case_bool_decide; apply IH.
Qed.

Lemma resolve_groups_draws all raw groups : forall rnd G,
  resolve_groups all raw groups rnd G <> Throws
  /\ resolve_groups all raw groups rnd G <> Unmodelled.
Proof.
  induction groups as [|g groups IH]; intros rnd G; cbn [resolve_groups];
    [done|].
  assert (resolve_group all raw g rnd <> Throws
          /\ resolve_group all raw g rnd <> Unmodelled) as Hg.
  { unfold resolve_group. destruct raw; [done|].
    destruct (select g); [|done]. case_bool_decide; [done|].
    apply select_loop_draws. }
  destruct (resolve_group all raw g rnd) as [[temp rnd1]| | |];
    cbn [mbind outcome_bind obind]; [apply IH|by destruct Hg|done|by destruct Hg].
Qed.

(** On a file in which nothing is missing the build is the build of the
    configuration that the file holds. *)
Lemma OnFile_complete (course_ : ConfigFile) (c : CourseConfig)
    (journalStrucMin : option JournalStructureMinimal) (rnd : Rand) :
  complete course_ = Some c ->
  OnFile.createJournalStructure course_ journalStrucMin rnd
  = createJournalStructure c journalStrucMin rnd.
Proof.
  unfold complete, OnFile.createJournalStructure, createJournalStructure.
  destruct (cf_infopages course_) as [ps|]; cbn [mbind option_bind]; [|done].
  destruct (mapM page_complete ps) as [pages|] eqn:Hp;
    cbn [mbind option_bind]; [|done].
  destruct (cf_testgroups course_) as [gs|]; cbn [mbind option_bind]; [|done].
  destruct (cf_sets course_) as [ss|]; cbn [mbind option_bind]; [|done].
  destruct (mapM set_complete ss) as [rawSets|] eqn:Hs;
    cbn [mbind option_bind]; [|done].
  intros [= <-].
  cbn [OnFile.read mbind outcome_bind obind].
  rewrite (OnFile_allInfopages_complete ps pages ∅ Hp).
  cbn [mbind outcome_bind obind].
  unfold allSingleTests, allInfopages, OnFile.allSingleTests.
  cbn [tests testgroups sets infopages].
  destruct (resolve_groups _ _ gs rnd ∅) as [[G rnd']| | |]; try done.
  cbn [mbind outcome_bind obind].
  by rewrite (OnFile_build_sets_complete _ _ _ ss rawSets Hs).
Qed.

(** On a file in which something is missing the build never returns: it
    throws, unless the selection loop of a group never ends before. *)
Lemma OnFile_incomplete (course_ : ConfigFile) :
  complete course_ = None ->
  (forall journalStrucMin rnd,
      OnFile.createJournalStructure course_ (Some journalStrucMin) rnd = Throws)
  /\ (forall rnd,
        OnFile.createJournalStructure course_ None rnd = Throws
        \/ OnFile.createJournalStructure course_ None rnd = Loops).
Proof.
  intros Hc.
  assert (forall raw rnd,
            OnFile.createJournalStructure course_ raw rnd = Throws
            \/ (raw = None
                /\ OnFile.createJournalStructure course_ raw rnd = Loops))
    as Hgen.
  { intros raw rnd. revert Hc.
    unfold complete, OnFile.createJournalStructure.
    destruct (cf_infopages course_) as [ps|]; [|by left].
    cbn [mbind option_bind OnFile.read outcome_bind obind].
    destruct (mapM page_complete ps) as [pages|] eqn:Hp.
    2:{ rewrite OnFile_allInfopages_incomplete by done. by left. }
    rewrite (OnFile_allInfopages_complete ps pages ∅ Hp).
    cbn [mbind option_bind outcome_bind obind].
    destruct (cf_testgroups course_) as [gs|]; [|by left].
    cbn [mbind option_bind OnFile.read outcome_bind obind].
    destruct (cf_sets course_) as [ss|].
    - cbn [mbind option_bind].
      destruct (mapM set_complete ss) as [rawSets|] eqn:Hs; [done|]. intros _.
      destruct raw as [m|].
      + destruct (resolve_groups_resume (OnFile.allSingleTests course_)
                    (journalStrucRawTests m) gs ∅) as [G HG].
        cbn [fmap option_fmap option_map]. rewrite HG.
        cbn [mbind outcome_bind obind OnFile.read].
        rewrite OnFile_build_sets_incomplete by done. by left.
      + cbn [fmap option_fmap option_map].
        pose proof (resolve_groups_draws (OnFile.allSingleTests course_)
                      None gs rnd ∅) as [Hd1 Hd2].
        destruct (resolve_groups _ None gs rnd ∅) as [[G rnd']| | |] eqn:HG.
        * cbn [mbind outcome_bind obind OnFile.read].
          rewrite OnFile_build_sets_incomplete by done. by left.
        * by left.
        * by right.
        * done.
    - intros _. destruct raw as [m|].
      + destruct (resolve_groups_resume (OnFile.allSingleTests course_)
                    (journalStrucRawTests m) gs ∅) as [G HG].
        cbn [fmap option_fmap option_map]. rewrite HG. by left.
      + cbn [fmap option_fmap option_map].
        pose proof (resolve_groups_draws (OnFile.allSingleTests course_)
                      None gs rnd ∅) as [Hd1 Hd2].
        destruct (resolve_groups _ None gs rnd ∅) as [[G rnd']| | |] eqn:HG.
        * by left.
        * by left.
        * by right.
        * done. }
  split.
  - intros m rnd. by destruct (Hgen (Some m) rnd) as [?|[? _]].
  - intros rnd. destruct (Hgen None rnd) as [?|[_ ?]]; auto.
Qed.

Lemma complete_file_of (c : CourseConfig) : complete (file_of c) = Some c.
Proof.
  destruct c as [schema ts gs ss ps]. unfold complete, file_of.
  cbn [cf_infopages cf_testgroups cf_sets cf_tests cf_validationSchema
       validationSchema tests testgroups sets infopages mbind option_bind].
  assert (mapM page_complete
            (map (fun page => {| pf_id := page_id page; pf_text := page_text page;
                                 pf_belongs := Some (belongs page) |}) ps)
          = Some ps) as ->.
  { induction ps as [|[i t b] ps IH]; [done|]. cbn [map mapM].
    rewrite IH. done. }
  cbn [mbind option_bind].
  assert (mapM set_complete
            (map (fun rawSet =>
                    {| sf_id := rawset_id rawSet; sf_elements := elements rawSet;
                       sf_evaluationTexts :=
                         Some {| et_scoreIndependent := scoreIndependent rawSet;
                                 et_scoreDependent := scoreDependent rawSet |} |})
                 ss)
          = Some ss) as ->.
  { induction ss as [|[i e t1 t2] ss IH]; [done|]. cbn [map mapM].
    rewrite IH. done. }
  done.
Qed.

(** what [validateConfig] reads of a complete file are the references of
    its configuration *)
Lemma complete_doc (course_ : ConfigFile) (c : CourseConfig) :
  complete course_ = Some c ->
  doc_tests (file_doc course_) = tests c
  /\ doc_testgroups (file_doc course_) = Some (testgroups c)
  /\ (exists docsets, doc_sets (file_doc course_) = Some docsets
        /\ Forall2 (fun d s => rawset_id d = rawset_id s
                               /\ elements d = elements s) docsets (sets c)).
Proof.
  unfold complete, file_doc.
  destruct (cf_infopages course_) as [ps|]; cbn [mbind option_bind]; [|done].
  destruct (mapM page_complete ps) as [pages|] eqn:Hp;
    cbn [mbind option_bind]; [|done].
  destruct (cf_testgroups course_) as [gs|]; cbn [mbind option_bind]; [|done].
  destruct (cf_sets course_) as [ss|]; cbn [mbind option_bind]; [|done].
  destruct (mapM set_complete ss) as [rawSets|] eqn:Hs;
    cbn [mbind option_bind]; [|done].
  intros [= <-]. cbn. split_and!; [done..|].
  eexists. split; [done|].
  apply mapM_Some_1 in Hs. clear Hp.
  induction Hs as [|x y ss rawSets Hxy _ IH]; [constructor|].
  cbn [map]. constructor; [|done].
  unfold set_complete in Hxy. destruct (sf_evaluationTexts x); [|done].
  cbn in Hxy. by injection Hxy as <-.
Qed.

Lemma validated_resolvable (validate : ConfigDoc -> bool)
    (course_ : ConfigFile) (c : CourseConfig) :
  validateConfig validate (file_doc course_) = true ->
  complete course_ = Some c -> resolvable c.
Proof.
  intros [_ (_ & _ & _ & Hg & _ & Hs & _)]%validateConfig_checks
    (Ht & Hgs & docsets & Hds & Hsets)%complete_doc.
  rewrite Ht, Hgs in Hg. rewrite Ht, Hgs, Hds in Hs.
  cbn [present] in Hg, Hs. split; [done|].
  intros rawSet element Hin He.
  apply list_elem_of_lookup in Hin as [i Hi].
  destruct (Forall2_lookup_r _ _ _ _ _ Hsets Hi) as (d & Hd & _ & Hel).
  apply (Hs d); [by eapply list_elem_of_lookup_2|by rewrite Hel].
Qed.

(** a configuration whose references resolve is built without a throw *)
Lemma resolvable_builds (c : CourseConfig) raw rnd :
  resolvable c ->
  (raw = None ->
   forall g, g ∈ testgroups c -> (exists k, select g = Some k /\ k <> 0) ->
             group_tests g <> []) ->
  no_throw (bool_decide (raw = None)) (createJournalStructure c raw rnd)
    (fun _ => True).
Proof.
  intros [Hg Hs] Hne. unfold createJournalStructure.
  assert (no_throw (bool_decide (journalStrucRawTests <$> raw = None))
            (resolve_groups (allSingleTests c)
               (journalStrucRawTests <$> raw) (testgroups c) rnd ∅)
            (fun '(G', _) =>
               defined_groups G'
               /\ forall gid,
                    is_Some ((∅ : gmap Z (list (option SingleTest))) !! gid)
                    \/ gid ∈ group_id <$> testgroups c ->
                    is_Some (G' !! gid))) as HG.
  { apply resolve_groups_defined.
    - intros g i Hgin Hi. apply allSingleTests_is_Some. by eapply Hg.
    - intros Hraw. apply Hne. by destruct raw.
    - intros gid ts Hts. by rewrite lookup_empty in Hts. }
  replace (bool_decide (journalStrucRawTests <$> raw = None))
    with (bool_decide (raw = None)) in HG by by destruct raw.
  destruct (resolve_groups _ _ _ _ _) as [[G rnd1]| | |]; cbn in HG |- *;
    try done.
  destruct HG as [HG Hdom].
  pose proof (build_sets_returns (allSingleTests c)
                (allInfopages c) G (sets c) HG) as Hb.
  destruct (build_sets _ _ G _); cbn; try done; discriminate Hb;
    intros s e Hsin He; (destruct (Hs s e Hsin He) as [Hin|Hin];
      [left; by apply allSingleTests_is_Some|right; apply Hdom; by right]).
Qed.

(** X18.  A course file that [validateConfig] accepts can be built if
    and only if nothing that the build reads is missing in it.  If the
    file has its info pages, each with [belongs], its test groups, and
    its sets, each with [evaluationTexts], then with a minimal structure
    given [createJournalStructure] returns, whatever that structure
    lists, and without one it returns or is still drawing, but never
    throws, provided no group with a [select] other than [0] is empty.
    If one of them is missing, [createJournalStructure] throws with a
    minimal structure given, and without one it throws, unless the
    selection of a group never ends before. *)
Theorem validated_course_builds (validate : ConfigDoc -> bool)
    (course_ : ConfigFile) :
  validateConfig validate (file_doc course_) = true ->
  (forall c, complete course_ = Some c ->
     (forall journalStrucMin rnd,
        returns (OnFile.createJournalStructure course_
                   (Some journalStrucMin) rnd) = true)
     /\ ((forall group k, group ∈ testgroups c ->
            select group = Some k -> k <> 0 -> group_tests group <> []) ->
         forall rnd,
           returns (OnFile.createJournalStructure course_ None rnd) = true
           \/ OnFile.createJournalStructure course_ None rnd = Loops))
  /\ (complete course_ = None ->
      (forall journalStrucMin rnd,
         OnFile.createJournalStructure course_ (Some journalStrucMin) rnd
         = Throws)
      /\ (forall rnd,
            OnFile.createJournalStructure course_ None rnd = Throws
            \/ OnFile.createJournalStructure course_ None rnd = Loops)).
Proof.
  intros Hvalid. split; [|apply OnFile_incomplete].
  intros c Hc. pose proof (validated_resolvable _ _ _ Hvalid Hc) as Hres.
  split.
  - intros m rnd. rewrite (OnFile_complete _ c) by done.
    pose proof (resolvable_builds c (Some m) rnd Hres) as Hgen.
    destruct (createJournalStructure c (Some m) rnd); cbn in Hgen;
      try done; by destruct Hgen.
  - intros Hne rnd. rewrite (OnFile_complete _ c) by done.
    pose proof (resolvable_builds c None rnd Hres) as Hgen.
    destruct (createJournalStructure c None rnd); cbn in Hgen; auto;
      destruct Hgen; intros _ g Hgin (k & Hk & Hk0); by eapply Hne.
Qed.

Lemma validated_course_builds_witness :
  (forall journalStrucMin rnd,
      returns (OnFile.createJournalStructure (file_of group_config)
                 (Some journalStrucMin) rnd) = true)
  /\ (forall journalStrucMin rnd,
        OnFile.createJournalStructure pageless_file (Some journalStrucMin) rnd
        = Throws)
  /\ (forall rnd,
        OnFile.createJournalStructure pageless_file None rnd = Throws
        \/ OnFile.createJournalStructure pageless_file None rnd = Loops)
  /\ (forall journalStrucMin rnd,
        OnFile.createJournalStructure textless_file (Some journalStrucMin) rnd
        = Throws).
Proof.
  split; [|split; [|split]].
  - apply (proj1 (validated_course_builds (fun _ => true)
                    (file_of group_config) eq_refl) group_config eq_refl).
  - apply (proj2 (validated_course_builds (fun _ => true) pageless_file
                    eq_refl) eq_refl).
  - apply (proj2 (validated_course_builds (fun _ => true) pageless_file
                    eq_refl) eq_refl).
  - apply (proj2 (validated_course_builds (fun _ => true) textless_file
                    eq_refl) eq_refl).
Defined.

(** ** [createJournalStructure]: the structure that is returned *)

Lemma omap_Some_fmap {A} (l : list A) :
  omap (fun x => x) (Some <$> l) = l.
Proof. induction l as [|x l IH]; [done|]. cbn. by rewrite IH. Qed.

Lemma expand_group_spec pages ts es :
  expand_group pages ts = Ret es ->
  exists chosen,
    ts = Some <$> chosen
    /\ es = flat_map (fun test => page_before pages (id test) ++ [TEST test])%list
                     chosen.
Proof.
  revert es. induction ts as [|[t|] ts IH]; intros es; cbn [expand_group];
    [| |done].
  - intros [= <-]. by exists [].
  - destruct (expand_group pages ts) as [rest| | |]; try done.
    cbn [mbind outcome_bind obind]. intros [= <-].
    destruct (IH rest eq_refl) as (chosen & -> & ->).
    exists (t :: chosen). split; [done|]. cbn [flat_map].
    by rewrite <- app_assoc.
Qed.

Lemma expand_elements_spec all pages G els es :
  expand_elements all pages G els = Ret es ->
  es = flat_map (expansion all pages (tests_of G)) els
  /\ forall element, element ∈ els -> all !! element = None ->
       exists chosen, G !! element = Some (Some <$> chosen).
Proof.
  revert es. induction els as [|e els IH]; intros es; cbn [expand_elements].
  - intros [= <-]. split; [done|]. by intros e ?%elem_of_nil.
  - destruct (expand_element all pages G e) as [es1| | |] eqn:H1; try done.
    cbn [mbind outcome_bind obind].
    destruct (expand_elements all pages G els) as [rest| | |]; try done.
    cbn [mbind outcome_bind obind]. intros [= <-].
    destruct (IH rest eq_refl) as [-> Hdom].
    assert (es1 = expansion all pages (tests_of G) e
            /\ (all !! e = None ->
                exists chosen, G !! e = Some (Some <$> chosen))) as [-> He].
    { unfold expand_element in H1. unfold expansion.
      destruct (all !! e) as [t|] eqn:Ht.
      - injection H1 as <-. done.
      - destruct (G !! e) as [ts|] eqn:Hts; [|done].
        destruct (expand_group pages ts) as [es2| | |] eqn:H2; try done.
        cbn in H1. injection H1 as <-.
        apply expand_group_spec in H2 as (chosen & -> & ->).
        split; [|by exists chosen].
        unfold tests_of. rewrite Hts. cbn [default from_option].
        unfold Datatypes.id. by rewrite omap_Some_fmap. }
    split; [done|].
    intros e' [->|Hin]%elem_of_cons He'; [by apply He|by apply Hdom].
Qed.

Lemma build_sets_spec all pages G rawSets ss :
  build_sets all pages G rawSets = Ret ss ->
  ss = built_from all pages (tests_of G) rawSets
  /\ forall rawSet element,
       rawSet ∈ rawSets -> element ∈ elements rawSet ->
       all !! element = None ->
       exists chosen, G !! element = Some (Some <$> chosen).
Proof.
  revert ss. induction rawSets as [|r rawSets IH]; intros ss; cbn [build_sets].
  - intros [= <-]. split; [done|]. by intros s e ?%elem_of_nil.
  - destruct (expand_elements all pages G (elements r)) as [es| | |] eqn:He;
      try done.
    cbn [mbind outcome_bind obind].
    destruct (build_sets all pages G rawSets) as [rest| | |]; try done.
    cbn [mbind outcome_bind obind]. intros [= <-].
    destruct (IH rest eq_refl) as [-> Hdom].
    apply expand_elements_spec in He as [-> Hdom1].
    split; [done|].
    intros s e [->|Hin]%elem_of_cons; [apply Hdom1|by apply Hdom].
Qed.

(** the group map holds, under the id of a group, what the last group
    with this id has given *)
Lemma resolve_groups_governing all raw groups : forall rnd G G' rnd',
  resolve_groups all raw groups rnd G = Ret (G', rnd') ->
  forall gid,
    match governing groups gid with
    | Some group =>
        exists rnd1 rnd2 ts,
          resolve_group all raw group rnd1 = Ret (ts, rnd2)
          /\ G' !! gid = Some ts
    | None => G' !! gid = G !! gid
    end.
Proof.
  induction groups as [|g groups IH]; intros rnd G G' rnd';
    cbn [resolve_groups governing].
  - by intros [= <- <-].
  - destruct (resolve_group all raw g rnd) as [[temp rnd1]| | |] eqn:Hg;
      try done.
    cbn [mbind outcome_bind obind]. intros Hrun gid.
    specialize (IH _ _ _ _ Hrun gid).
    destruct (governing groups gid) as [later|]; [done|].
    rewrite IH, lookup_insert. case_bool_decide as Hid.
    + rewrite decide_True by done. by exists rnd, rnd1, temp.
    + by rewrite decide_False.
Qed.

Lemma governing_elem groups gid group :
  governing groups gid = Some group ->
  group ∈ groups /\ group_id group = gid.
Proof.
  induction groups as [|g groups IH]; cbn [governing]; [done|].
  destruct (governing groups gid) as [later|].
  - intros [= <-]. destruct (IH eq_refl). split; [by right|done].
  - case_bool_decide; [|done]. intros [= <-]. split; [by left|done].
Qed.

Lemma governing_is_Some groups gid :
  gid ∈ group_id <$> groups -> is_Some (governing groups gid).
Proof.
  induction groups as [|g groups IH]; cbn [governing fmap list_fmap];
    [by intros ?%elem_of_nil|].
  intros [->|Hin]%elem_of_cons.
  - destruct (governing groups (group_id g)); [by eexists|].
    rewrite bool_decide_eq_true_2 by done. by eexists.
  - destruct (IH Hin) as [later ->]. by eexists.
Qed.

Lemma flat_map_ext_elem {A B} (f g : A -> list B) (l : list A) :
  (forall a, a ∈ l -> f a = g a) -> flat_map f l = flat_map g l.
Proof.
  induction l as [|a l IH]; intros Hfg; [done|]. cbn [flat_map].
  rewrite (Hfg a) by by left. rewrite IH; [done|].
  intros b Hb. apply Hfg. by right.
Qed.

Lemma built_from_ext all pages chosen1 chosen2 rawSets :
  (forall rawSet element,
      rawSet ∈ rawSets -> element ∈ elements rawSet ->
      all !! element = None -> chosen1 element = chosen2 element) ->
  built_from all pages chosen1 rawSets = built_from all pages chosen2 rawSets.
Proof.
  intros Hext. unfold built_from. apply map_ext_in. intros s Hs%list_elem_of_In.
  f_equal. apply flat_map_ext_elem. intros e He.
  unfold expansion. destruct (all !! e) eqn:Ht; [done|].
  by rewrite (Hext s e).
Qed.

(** ** The tests of a group, without a minimal structure *)

Lemma select_loop_positions all k gtests rnd : forall indices ts rnd',
  NoDup indices -> Z.of_nat (length indices) <= k ->
  select_loop all k gtests rnd indices (pick all gtests <$> indices)
  = Ret (ts, rnd') ->
  exists indices',
    Z.of_nat (length indices') = k /\ NoDup indices'
    /\ ts = pick all gtests <$> indices'.
Proof.
  induction rnd as [|d rnd IH]; intros indices ts rnd' Hnd Hlen.
  - cbn [select_loop]. destruct (Z.ltb_spec (Z.of_nat (length indices)) k);
      cbn [negb]; [done|]. intros [= <- <-].
    exists indices. split_and!; [lia|done..].
  - cbn [select_loop]. destruct (Z.ltb_spec (Z.of_nat (length indices)) k);
      cbn [negb].
    + case_bool_decide as Hin.
      * by apply IH.
      * intros Hrun.
        apply (IH (indices ++ [random_index (length gtests) d])%list ts rnd').
        -- apply NoDup_app. split_and!; [done|set_solver|apply NoDup_singleton].
        -- rewrite length_app. cbn. lia.
        -- rewrite fmap_app. exact Hrun.
    + intros [= <- <-]. exists indices. split_and!; [lia|done..].
Qed.

(** the tests found at positions of a group are tests of the course
    with ids of the group *)
Lemma picked_tests (c : CourseConfig) (gtests : list Z) :
  forall (chosen : list SingleTest) (indices : list nat),
    Some <$> chosen = pick (allSingleTests c) gtests <$> indices ->
    Forall (fun i => (i < length gtests)%nat) indices
    /\ Some <$> (id <$> chosen) = (gtests !!.) <$> indices
    /\ Forall (fun test => id test ∈ gtests /\ test ∈ tests c) chosen.
Proof.
  induction chosen as [|t chosen IH]; intros [|i indices]; try done.
  cbn [fmap list_fmap]. intros [= Ht Hrest].
  destruct (IH _ Hrest) as (H1 & H2 & H3).
  unfold pick in Ht. destruct (gtests !! i) as [x|] eqn:Hx; [|done].
  cbn in Ht. symmetry in Ht. apply allSingleTests_lookup in Ht as [Hin <-].
  split_and!.
  - constructor; [by eapply lookup_lt_Some|done].
  - cbn [fmap list_fmap] in *. rewrite ?Hx. by f_equal.
  - constructor; [|done]. split; [by eapply list_elem_of_lookup_2|done].
Qed.

Lemma whole_group_tests (c : CourseConfig) (ids : list Z) :
  forall chosen : list SingleTest,
    Some <$> chosen = (allSingleTests c !!.) <$> ids ->
    id <$> chosen = ids
    /\ Forall (fun test => id test ∈ ids /\ test ∈ tests c) chosen.
Proof.
  induction ids as [|i ids IH]; intros [|t chosen]; try done.
  cbn [fmap list_fmap]. intros [= Ht Hrest].
  destruct (IH _ Hrest) as [H1 H2].
  symmetry in Ht. apply allSingleTests_lookup in Ht as [Hin <-].
  split.
  - cbn [fmap list_fmap] in *. by f_equal.
  - constructor; [split; [by left|done]|].
    eapply Forall_impl; [done|]. intros t' [? ?]. split; [by right|done].
Qed.

(** what a group gives to a build without a minimal structure, when
    all its tests are defined *)
Lemma fresh_group_chosen (c : CourseConfig) (group : TestGroup)
    (rnd1 rnd2 : Rand) (chosen : list SingleTest) :
  resolve_group (allSingleTests c) None group rnd1
  = Ret (Some <$> chosen, rnd2) ->
  Forall (fun test => id test ∈ group_tests group /\ test ∈ tests c) chosen
  /\ match select group with
     | Some k =>
         if bool_decide (k = 0) then id <$> chosen = group_tests group
         else
           Z.of_nat (length chosen) = Z.max 0 k
           /\ k <= Z.of_nat (length (group_tests group))
           /\ (exists indices : list nat,
                 NoDup indices
                 /\ Forall (fun i => (i < length (group_tests group))%nat)
                           indices
                 /\ Some <$> chosen
                    = pick (allSingleTests c) (group_tests group) <$> indices)
           /\ (NoDup (group_tests group) -> NoDup (id <$> chosen))
     | None => id <$> chosen = group_tests group
     end.
Proof.
  unfold resolve_group. destruct (select group) as [k|].
  2:{ intros [= Hts _]. symmetry in Hts.
      by destruct (whole_group_tests c _ _ Hts). }
  case_bool_decide as Hk.
  { intros [= Hts _]. symmetry in Hts.
    by destruct (whole_group_tests c _ _ Hts). }
  destruct (Z.le_gt_cases k 0) as [Hneg|Hpos].
  - destruct rnd1; cbn [select_loop length];
      (destruct (Z.ltb_spec (Z.of_nat 0) k); [lia|]); cbn [negb];
      intros [= Hts _]; destruct chosen; try done;
      (split; [constructor|]); cbn [length];
      (split_and!; [lia|lia| |constructor]);
      exists []; split_and!; by constructor.
  - intros Hrun.
    apply (select_loop_positions _ _ _ _ []) in Hrun
      as (indices & Hlen & Hnd & Hts); [|constructor|cbn; lia].
    destruct (picked_tests c _ _ _ Hts) as (Hlt & Hids & Hall).
    split; [done|].
    assert (length chosen = length indices) as Hl.
    { apply (f_equal length) in Hts. by rewrite !length_fmap in Hts. }
    pose proof (distinct_positions_bound _ _ Hnd Hlt).
    split_and!; [lia|lia|by exists indices|].
    intros Hgt. apply (NoDup_fmap_1 Some). rewrite Hids.
    apply NoDup_fmap_2_strong; [|done].
    intros i j Hi Hj Heq. rewrite Forall_forall in Hlt.
    destruct (lookup_lt_is_Some_2 (group_tests group) i (Hlt i Hi)) as [x Hx].
    rewrite Hx in Heq. by eapply NoDup_lookup.
Qed.

(** *** A selection that cannot end *)

Lemma select_loop_oversize all k gtests rnd : forall indices temp,
  Z.of_nat (Nat.max 1 (length gtests)) < k ->
  NoDup indices ->
  Forall (fun i => (i < Nat.max 1 (length gtests))%nat) indices ->
  select_loop all k gtests rnd indices temp = Loops.
Proof.
  induction rnd as [|d rnd IH]; intros indices temp Hk Hnd Hlt;
    assert (length indices <= Nat.max 1 (length gtests))%nat as Hbound
      by (transitivity (length (seq 0 (Nat.max 1 (length gtests))));
          [|by rewrite length_seq];
          apply submseteq_length, NoDup_submseteq; [done|];
          intros i Hi; apply elem_of_seq; rewrite Forall_forall in Hlt;
          specialize (Hlt i Hi); lia);
    cbn [select_loop];
    (destruct (Z.ltb_spec (Z.of_nat (length indices)) k); [|lia]);
    cbn [negb]; [done|].
  case_bool_decide as Hin; [by apply IH|].
  apply IH; [done| |].
  - apply NoDup_app. split_and!; [done|set_solver|apply NoDup_singleton].
  - apply Forall_app. split; [done|].
    apply Forall_singleton. unfold random_index.
    destruct (Nat.eqb_spec (length gtests) 0); [lia|].
    pose proof (Nat.mod_upper_bound d (length gtests)). lia.
Qed.

Lemma resolve_group_oversize all group rnd :
  oversize group -> resolve_group all None group rnd = Loops.
Proof.
  intros (k & Hsel & Hk & Hne). unfold resolve_group. rewrite Hsel.
  rewrite bool_decide_eq_false_2 by lia.
  apply select_loop_oversize; [|constructor..].
  destruct (group_tests group); [|cbn [length] in *; lia].
  destruct Hne; [cbn; lia|done].
Qed.

Lemma resolve_groups_oversize all groups group : forall rnd G,
  group ∈ groups -> oversize group ->
  resolve_groups all None groups rnd G = Loops.
Proof.
  induction groups as [|g groups IH]; intros rnd G Hin Hov;
    [by apply elem_of_nil in Hin|].
  cbn [resolve_groups].
  apply elem_of_cons in Hin as [->|Hin].
  - by rewrite resolve_group_oversize.
  - assert (resolve_group all None g rnd <> Throws
            /\ resolve_group all None g rnd <> Unmodelled) as [H1 H2].
    { unfold resolve_group. destruct (select g); [|done].
      case_bool_decide; [done|]. apply select_loop_draws. }
    destruct (resolve_group all None g rnd) as [[temp rnd1]| | |]; try done.
    cbn [mbind outcome_bind obind]. by apply IH.
Qed.

(** *** A selection that ends *)

Lemma select_loop_more all k gtests rnd :
  forall indices temp ts rnd' (more : Rand),
    select_loop all k gtests rnd indices temp = Ret (ts, rnd') ->
    select_loop all k gtests (rnd ++ more)%list indices temp
    = Ret (ts, (rnd' ++ more)%list).
Proof.
  induction rnd as [|d rnd IH]; intros indices temp ts rnd' more;
    cbn [select_loop app].
  - destruct (negb _) eqn:Hc; [|done]. intros [= <- <-].
    destruct more; cbn [select_loop]; by rewrite Hc.
  - destruct (negb _) eqn:Hc; [by intros [= <- <-]|].
    case_bool_decide; apply IH.
Qed.

Lemma resolve_group_more all raw group rnd ts rnd' (more : Rand) :
  resolve_group all raw group rnd = Ret (ts, rnd') ->
  resolve_group all raw group (rnd ++ more)%list
  = Ret (ts, (rnd' ++ more)%list).
Proof.
  unfold resolve_group. destruct raw; [by intros [= <- <-]|].
  destruct (select group); [|by intros [= <- <-]].
  case_bool_decide; [by intros [= <- <-]|]. apply select_loop_more.
Qed.

Lemma resolve_group_completes all group rnd :
  (forall k, select group = Some k ->
             k <= Z.of_nat (length (group_tests group))) ->
  exists (more : Rand) ts rest,
    resolve_group all None group (rnd ++ more)%list = Ret (ts, rest).
Proof.
  intros Hk. unfold resolve_group. destruct (select group) as [k|];
    [|by exists [], ((all !!.) <$> group_tests group), (rnd ++ [])%list].
  case_bool_decide;
    [by exists [], ((all !!.) <$> group_tests group), (rnd ++ [])%list|].
  specialize (Hk k eq_refl). set (n := length (group_tests group)) in *.
  exists (seq 0 n).
  assert (returns (select_loop all k (group_tests group)
                     (rnd ++ seq 0 n)%list [] [])
          = true) as Hr.
  { apply select_loop_returns; [constructor|].
    cbn [length list_to_set]. rewrite difference_empty_L. fold n.
    assert (n <= size (drawn_positions n (rnd ++ seq 0 n)%list))%nat; [|lia].
    transitivity (size (list_to_set (seq 0 n) : gset nat)).
    { rewrite size_list_to_set by apply NoDup_seq. by rewrite length_seq. }
    apply subseteq_size. intros p Hp%elem_of_list_to_set.
    apply elem_of_seq in Hp. unfold drawn_positions.
    apply elem_of_list_to_set, list_elem_of_fmap. exists p. split.
    - unfold random_index. destruct (Nat.eqb_spec n 0); [lia|].
      symmetry. apply Nat.mod_small. lia.
    - apply elem_of_app. right. apply elem_of_seq. lia. }
  destruct (select_loop _ _ _ _ _ _) as [[ts rest]| | |]; try done.
  by exists ts, rest.
Qed.

Lemma resolve_groups_completes all groups : forall rnd G,
  (forall group k, group ∈ groups -> select group = Some k ->
                   k <= Z.of_nat (length (group_tests group))) ->
  exists (more : Rand) G' rest,
    resolve_groups all None groups (rnd ++ more)%list G = Ret (G', rest).
Proof.
  induction groups as [|g groups IH]; intros rnd G Hk.
  - by exists [], G, (rnd ++ [])%list.
  - destruct (resolve_group_completes all g rnd) as (more1 & ts & rest1 & H1).
    { intros k. apply Hk. by left. }
    destruct (IH rest1 (<[group_id g := ts]> G)) as (more2 & G' & rest2 & H2).
    { intros g' k Hin. apply Hk. by right. }
    exists (more1 ++ more2)%list, G', rest2. cbn [resolve_groups].
    rewrite app_assoc.
    rewrite (resolve_group_more _ _ _ _ _ _ more2 H1).
    cbn [mbind outcome_bind obind]. exact H2.
Qed.

(** a group within its size gives defined tests *)
Lemma fresh_group_defined all group rnd ts rnd' :
  (forall i, i ∈ group_tests group -> is_Some (all !! i)) ->
  (forall k, select group = Some k ->
             k <= Z.of_nat (length (group_tests group))) ->
  resolve_group all None group rnd = Ret (ts, rnd') ->
  Forall is_Some ts.
Proof.
  intros Hdom Hk.
  assert (Forall is_Some ((all !!.) <$> group_tests group)) as Hmap.
  { apply Forall_fmap, Forall_forall. intros i Hi. cbn. auto. }
  unfold resolve_group. destruct (select group) as [k|]; [|by intros [= <- _]].
  case_bool_decide; [by intros [= <- _]|]. specialize (Hk k eq_refl).
  destruct (Z.le_gt_cases k 0).
  - destruct rnd; cbn [select_loop length];
      (destruct (Z.ltb_spec (Z.of_nat 0) k); [lia|]); cbn [negb];
      intros [= <- _]; constructor.
  - intros Hrun.
    apply (select_loop_sound _ _ _ _ []) in Hrun
      as (indices & _ & _ & Hlt & ->); [|lia|constructor|constructor|cbn; lia].
    apply Forall_fmap. eapply Forall_impl; [done|]. intros i Hi. cbn.
    unfold pick. destruct (lookup_lt_is_Some_2 _ _ Hi) as [x Hx]. rewrite Hx.
    cbn. apply Hdom. by eapply list_elem_of_lookup_2.
Qed.

(** ** The whole build without a minimal structure *)

Lemma fresh_build_sound (c : CourseConfig) (rnd rnd' : Rand)
    (js : JournalStructure) :
  createJournalStructure c None rnd = Ret (js, rnd') ->
  exists chosen : Z -> list SingleTest,
    js_sets js = built_from (allSingleTests c) (allInfopages c) chosen (sets c)
    /\ forall rawSet element,
         rawSet ∈ sets c -> element ∈ elements rawSet ->
         allSingleTests c !! element = None ->
         exists group,
           governing (testgroups c) element = Some group
           /\ exists rnd1 rnd2,
                resolve_group (allSingleTests c) None group rnd1
                = Ret (Some <$> chosen element, rnd2).
Proof.
  unfold createJournalStructure. cbn [fmap option_fmap option_map].
  destruct (resolve_groups _ _ _ _ _) as [[G rnd1]| | |] eqn:HG; try done.
  cbn [mbind outcome_bind obind].
  destruct (build_sets _ _ G _) as [ss| | |] eqn:Hs; try done.
  cbn [mbind outcome_bind obind]. intros [= <- <-]. cbn [js_sets].
  apply build_sets_spec in Hs as [-> Hdom].
  exists (tests_of G). split; [done|].
  intros rawSet element Hin He Hnone.
  destruct (Hdom rawSet element Hin He Hnone) as [chosen Hch].
  pose proof (resolve_groups_governing _ _ _ _ _ _ _ HG element) as Hgov.
  destruct (governing (testgroups c) element) as [group|].
  - exists group. split; [done|].
    destruct Hgov as (r1 & r2 & ts & Hrun & Hts).
    exists r1, r2. rewrite Hrun. f_equal. f_equal.
    rewrite Hch in Hts. injection Hts as <-.
    unfold tests_of. rewrite Hch. cbn [default from_option].
    unfold Datatypes.id. by rewrite omap_Some_fmap.
  - rewrite lookup_empty in Hgov. congruence.
Qed.

Lemma fresh_build_returns (c : CourseConfig) (rnd : Rand) :
  resolvable c ->
  (forall group k, group ∈ testgroups c -> select group = Some k ->
                   k <= Z.of_nat (length (group_tests group))) ->
  exists more : Rand,
    returns (createJournalStructure c None (rnd ++ more)%list) = true.
Proof.
  intros [Hg Hs] Hk.
  destruct (resolve_groups_completes (allSingleTests c) (testgroups c) rnd ∅ Hk)
    as (more & G & rest & HG).
  exists more. unfold createJournalStructure.
  cbn [fmap option_fmap option_map]. rewrite HG.
  cbn [mbind outcome_bind obind].
  pose proof (resolve_groups_governing _ _ _ _ _ _ _ HG) as Hgov.
  assert (returns (build_sets (allSingleTests c) (allInfopages c) G (sets c))
          = true) as Hb.
  { apply build_sets_returns.
    - intros gid ts Hts. specialize (Hgov gid).
      destruct (governing (testgroups c) gid) as [group|] eqn:Hgid.
      + destruct Hgov as (r1 & r2 & ts' & Hrun & Hts').
        rewrite Hts in Hts'. injection Hts' as <-.
        apply governing_elem in Hgid as [Hin _].
        eapply fresh_group_defined; [| |done].
        * intros i Hi. apply allSingleTests_is_Some. by eapply Hg.
        * intros k. by apply Hk.
      + rewrite lookup_empty in Hgov. congruence.
    - intros s e Hin He. destruct (Hs s e Hin He) as [Ht|Hgid].
      + left. by apply allSingleTests_is_Some.
      + right. specialize (Hgov e).
        destruct (governing_is_Some _ _ Hgid) as [group Hgr].
        rewrite Hgr in Hgov. destruct Hgov as (_ & _ & ts & _ & ->).
        by eexists. }
  destruct (build_sets _ _ G _); done.
Qed.

(** ** The whole build with a minimal structure *)

Lemma omap_fmap_Some {A B} (f : A -> option B) (l : list A) :
  forall k, f <$> l = Some <$> k -> omap f l = k.
Proof.
  induction l as [|x l IH]; intros [|y k]; try done.
  cbn [fmap list_fmap omap list_omap]. intros [= Hx Hrest].
  rewrite Hx. by rewrite (IH k).
Qed.

Lemma resume_build_sound (c : CourseConfig)
    (journalStrucMin : JournalStructureMinimal) (rnd rnd' : Rand)
    (js : JournalStructure) :
  let rawTests := journalStrucRawTests journalStrucMin in
  createJournalStructure c (Some journalStrucMin) rnd = Ret (js, rnd') ->
  rnd' = rnd
  /\ js_sets js
     = built_from (allSingleTests c) (allInfopages c)
         (resumed (allSingleTests c) rawTests (testgroups c)) (sets c)
  /\ forall rawSet element,
       rawSet ∈ sets c -> element ∈ elements rawSet ->
       allSingleTests c !! element = None ->
       exists group,
         governing (testgroups c) element = Some group
         /\ id <$> resumed (allSingleTests c) rawTests (testgroups c) element
            = filter (.∈ rawTests) (group_tests group)
         /\ Forall (fun test => test ∈ tests c)
                   (resumed (allSingleTests c) rawTests (testgroups c) element).
Proof.
  intros rawTests. unfold createJournalStructure.
  cbn [fmap option_fmap option_map]. fold rawTests.
  destruct (resolve_groups _ _ _ _ _) as [[G rnd1]| | |] eqn:HG; try done.
  cbn [mbind outcome_bind obind].
  destruct (build_sets _ _ G _) as [ss| | |] eqn:Hs; try done.
  cbn [mbind outcome_bind obind]. intros [= <- <-]. cbn [js_sets].
  apply build_sets_spec in Hs as [-> Hdom].
  assert (forall rawSet element,
            rawSet ∈ sets c -> element ∈ elements rawSet ->
            allSingleTests c !! element = None ->
            exists group,
              governing (testgroups c) element = Some group
              /\ Some <$> tests_of G element
                 = (allSingleTests c !!.)
                     <$> filter (.∈ rawTests) (group_tests group)) as Hgroups.
  { intros rawSet element Hin He Hnone.
    destruct (Hdom rawSet element Hin He Hnone) as [chosen Hch].
    pose proof (resolve_groups_governing _ _ _ _ _ _ _ HG element) as Hgov.
    destruct (governing (testgroups c) element) as [group|].
    - exists group. split; [done|].
      destruct Hgov as (r1 & r2 & ts & Hrun & Hts).
      unfold tests_of. rewrite Hch. cbn [default from_option].
      unfold Datatypes.id. rewrite omap_Some_fmap.
      rewrite Hch in Hts. injection Hts as <-. cbn in Hrun. congruence.
    - rewrite lookup_empty in Hgov. congruence. }
  split_and!.
  - destruct (resolve_groups_resume (allSingleTests c) rawTests
                (testgroups c) ∅) as [G' HG'].
    rewrite HG' in HG. congruence.
  - apply built_from_ext. intros rawSet element Hin He Hnone.
    destruct (Hgroups rawSet element Hin He Hnone) as (group & Hgov & Hts).
    unfold resumed. rewrite Hgov. symmetry. by apply omap_fmap_Some.
  - intros rawSet element Hin He Hnone.
    destruct (Hgroups rawSet element Hin He Hnone) as (group & Hgov & Hts).
    exists group. split; [done|].
    assert (resumed (allSingleTests c) rawTests (testgroups c) element
            = tests_of G element) as ->.
    { unfold resumed. rewrite Hgov. by apply omap_fmap_Some. }
    destruct (whole_group_tests c _ _ Hts) as [Hids Hall]. split; [done|].
    eapply Forall_impl; [done|]. by intros t [_ ?].
Qed.

Lemma resume_build_returns (c : CourseConfig)
    (journalStrucMin : JournalStructureMinimal) (rnd : Rand) :
  resolvable c ->
  returns (createJournalStructure c (Some journalStrucMin) rnd) = true.
Proof.
  intros Hres.
  pose proof (resolvable_builds c (Some journalStrucMin) rnd Hres) as Hgen.
  destruct (createJournalStructure c (Some journalStrucMin) rnd);
    cbn in Hgen; try done; by destruct Hgen.
Qed.

Lemma resume_build_draws_nothing (c : CourseConfig)
    (journalStrucMin : JournalStructureMinimal) (rnd1 rnd2 : Rand) :
  structure_of (createJournalStructure c (Some journalStrucMin) rnd1)
  = structure_of (createJournalStructure c (Some journalStrucMin) rnd2)
  /\ settled (createJournalStructure c (Some journalStrucMin) rnd1).
Proof.
  unfold createJournalStructure. cbn [fmap option_fmap option_map].
  destruct (resolve_groups_resume (allSingleTests c)
              (journalStrucRawTests journalStrucMin) (testgroups c) ∅)
    as [acc Hacc].
  rewrite !Hacc. cbn [mbind outcome_bind obind].
  pose proof (build_sets_settled (allSingleTests c)
                (allInfopages c) acc (sets c)) as Hs.
  by destruct (build_sets _ _ acc (sets c)) as [ss| | |].
Qed.

(** ** The builds on the course file *)

Lemma complete_testgroups (course_ : ConfigFile) (c : CourseConfig) :
  complete course_ = Some c -> cf_testgroups course_ = Some (testgroups c).
Proof. by intros (_ & ? & _)%complete_doc. Qed.

Lemma OnFile_returns (course_ : ConfigFile) raw rnd js rnd' :
  OnFile.createJournalStructure course_ raw rnd = Ret (js, rnd') ->
  exists c, complete course_ = Some c
            /\ createJournalStructure c raw rnd = Ret (js, rnd').
Proof.
  intros Hrun. destruct (complete course_) as [c|] eqn:Hc.
  - exists c. split; [done|]. by rewrite <- (OnFile_complete course_ c).
  - destruct (OnFile_incomplete course_ Hc) as [H1 H2].
    destruct raw as [m|]; [by rewrite H1 in Hrun|].
    destruct (H2 rnd) as [H|H]; by rewrite H in Hrun.
Qed.

(** C3, amended.  Without a minimal structure:
    - a build that returns has read a file in which nothing is missing,
      and its sets are the sets of the file, every entry of
      [rawSet.elements] expanded; an entry that names no test names a
      group, and of the groups with this id the last one gives the
      tests.  These tests are tests of the course with ids of the
      group, and if the group has [select = k]: for [k = 0] all tests of
      the group, in its order (as without [select]); otherwise exactly
      [k] tests (none if [k] is negative), found at pairwise distinct
      positions of [group.tests], so that [k] is at most the size of the
      group, and of pairwise distinct ids if the group lists no id
      twice;
    - if some group of the file is to give more tests than it has (and
      at least two, if it is empty), no build returns, whatever is
      drawn: the selection loop never ends, unless the build has thrown
      before on a missing part of the file;
    - if nothing is missing in the file, its references resolve, and no
      group is to give more tests than it has, then from every state of
      the random source some further draws make the build return. *)
Theorem fresh_build_selects (course_ : ConfigFile) :
  (forall rnd js rnd',
      OnFile.createJournalStructure course_ None rnd = Ret (js, rnd') ->
      exists c chosen,
        complete course_ = Some c
        /\ js_sets js
           = built_from (allSingleTests c) (allInfopages c) chosen (sets c)
        /\ forall rawSet element,
             rawSet ∈ sets c -> element ∈ elements rawSet ->
             allSingleTests c !! element = None ->
             exists group,
               governing (testgroups c) element = Some group
               /\ Forall (fun test => id test ∈ group_tests group
                                      /\ test ∈ tests c) (chosen element)
               /\ match select group with
                  | Some k =>
                      if bool_decide (k = 0)
                      then id <$> chosen element = group_tests group
                      else
                        Z.of_nat (length (chosen element)) = Z.max 0 k
                        /\ k <= Z.of_nat (length (group_tests group))
                        /\ (exists indices : list nat,
                              NoDup indices
                              /\ Forall (fun i =>
                                   (i < length (group_tests group))%nat) indices
                              /\ Some <$> chosen element
                                 = pick (allSingleTests c) (group_tests group)
                                     <$> indices)
                        /\ (NoDup (group_tests group) ->
                            NoDup (id <$> chosen element))
                  | None => id <$> chosen element = group_tests group
                  end)
  /\ (forall group,
        group ∈ present (cf_testgroups course_) -> oversize group ->
        forall rnd,
          (is_Some (complete course_) ->
           OnFile.createJournalStructure course_ None rnd = Loops)
          /\ (OnFile.createJournalStructure course_ None rnd = Loops
              \/ OnFile.createJournalStructure course_ None rnd = Throws))
  /\ (forall c,
        complete course_ = Some c -> resolvable c ->
        (forall group k, group ∈ testgroups c -> select group = Some k ->
                         k <= Z.of_nat (length (group_tests group))) ->
        forall rnd, exists more : Rand,
          returns (OnFile.createJournalStructure course_ None
                     (rnd ++ more)%list) = true).
Proof.
  split_and!.
  - intros rnd js rnd' (c & Hc & Hrun)%OnFile_returns.
    apply fresh_build_sound in Hrun as (chosen & Hsets & Hch).
    exists c, chosen. split_and!; [done..|].
    intros rawSet element Hin He Hnone.
    destruct (Hch rawSet element Hin He Hnone)
      as (group & Hgov & rnd1 & rnd2 & Hrun).
    exists group. split; [done|]. by eapply fresh_group_chosen.
  - intros group Hin Hov rnd.
    assert (forall c, complete course_ = Some c ->
              OnFile.createJournalStructure course_ None rnd = Loops) as Hloops.
    { intros c Hc. rewrite (OnFile_complete _ c) by done.
      rewrite (complete_testgroups _ _ Hc) in Hin. cbn [present] in Hin.
      unfold createJournalStructure. cbn [fmap option_fmap option_map].
      by rewrite (resolve_groups_oversize _ _ group). }
    split; [intros [c Hc]; by eapply Hloops|].
    destruct (complete course_) as [c|] eqn:Hc; [left; by eapply Hloops|].
    destruct (OnFile_incomplete course_ Hc) as [_ H2].
    destruct (H2 rnd); auto.
  - intros c Hc Hres Hk rnd.
    destruct (fresh_build_returns c rnd Hres Hk) as [more Hmore].
    exists more. by rewrite (OnFile_complete _ c).
Qed.

Lemma group_config_resolvable : resolvable group_config.
Proof.
  split.
  - intros group i ->%list_elem_of_singleton Hi. exact Hi.
  - intros rawSet element ->%list_elem_of_singleton ->%list_elem_of_singleton.
    right. by left.
Qed.

Lemma group_config_within_size (group : TestGroup) (k : Z) :
  group ∈ testgroups group_config -> select group = Some k ->
  k <= Z.of_nat (length (group_tests group)).
Proof. intros ->%list_elem_of_singleton [= <-]. cbn. lia. Qed.

Lemma oversize_group_oversize : oversize oversize_group.
Proof. exists 3. cbn. split_and!; [done|lia|left; lia]. Qed.

Lemma fresh_build_selects_witness :
  (exists c chosen,
      complete (file_of group_config) = Some c
      /\ js_sets sample_structure
         = built_from (allSingleTests c) (allInfopages c) chosen (sets c)
      /\ forall rawSet element,
           rawSet ∈ sets c -> element ∈ elements rawSet ->
           allSingleTests c !! element = None ->
           exists group,
             governing (testgroups c) element = Some group
             /\ Forall (fun test => id test ∈ group_tests group
                                    /\ test ∈ tests c) (chosen element)
             /\ match select group with
                | Some k =>
                    if bool_decide (k = 0)
                    then id <$> chosen element = group_tests group
                    else
                      Z.of_nat (length (chosen element)) = Z.max 0 k
                      /\ k <= Z.of_nat (length (group_tests group))
                      /\ (exists indices : list nat,
                            NoDup indices
                            /\ Forall (fun i =>
                                 (i < length (group_tests group))%nat) indices
                            /\ Some <$> chosen element
                               = pick (allSingleTests c) (group_tests group)
                                   <$> indices)
                      /\ (NoDup (group_tests group) ->
                          NoDup (id <$> chosen element))
                | None => id <$> chosen element = group_tests group
                end)
  /\ (forall rnd,
        OnFile.createJournalStructure (file_of (with_group oversize_group))
          None rnd = Loops)
  /\ (forall rnd, exists more : Rand,
        returns (OnFile.createJournalStructure (file_of group_config) None
                   (rnd ++ more)%list) = true).
Proof.
  split; [|split].
  - apply (proj1 (fresh_build_selects (file_of group_config))
             [4; 4; 3]%nat sample_structure []).
    vm_compute. reflexivity.
  - intros rnd.
    apply (proj1 (proj2 (fresh_build_selects
                           (file_of (with_group oversize_group))))
             oversize_group).
    + cbn. by left.
    + exact oversize_group_oversize.
    + exists (with_group oversize_group). vm_compute. reflexivity.
  - apply (proj2 (proj2 (fresh_build_selects (file_of group_config)))
             group_config).
    + vm_compute. reflexivity.
    + exact group_config_resolvable.
    + exact group_config_within_size.
Defined.

(** C3, as stated, fails: in a group that lists test 7 twice, [select =
    2] does not exceed the size, and the set shows test 7 twice; and
    [select = 0] does not exceed the size of a group of two either, and
    the set shows both tests of the group, not none. *)
Lemma fresh_build_selects_counterexample :
  OnFile.createJournalStructure (file_of (with_group twin_group)) None
    [0; 1]%nat
  = Ret ({| js_sets :=
              [ {| testset_id := 10;
                   testset_elements := [TEST (colon_test 7); TEST (colon_test 7)];
                   scoreIndepentText := "done";
                   scoreDependentTexts := [] |} ] |}, [])
  /\ OnFile.createJournalStructure (file_of (with_group select0_group)) None []
     = Ret ({| js_sets :=
                 [ {| testset_id := 10;
                      testset_elements :=
                        [TEST (colon_test 1); TEST (colon_test 2)];
                      scoreIndepentText := "done";
                      scoreDependentTexts := [] |} ] |}, []).
Proof. split; vm_compute; reflexivity. Qed.

(** C4, amended.  With a minimal structure given:
    - the outcome of the build does not depend on the random state: two
      builds return the same structure, or both throw;
    - the build returns or throws without waiting for a draw, and hands
      the random state back untouched;
    - the ids that count as recorded are those of all sets of the
      minimal structure together, not those of the set that is built;
    - a build that returns has read a file in which nothing is missing,
      and its sets are the sets of the file with every entry of
      [rawSet.elements] expanded, a group to the tests of those of its
      ids that are recorded, in the order of [group.tests] (of the
      groups with one id the last one counts);
    - if nothing is missing in the file and its references resolve, the
      build returns, whatever the minimal structure lists. *)
Theorem resume_build_is_determined (course_ : ConfigFile)
    (journalStrucMin : JournalStructureMinimal) :
  let rawTests := journalStrucRawTests journalStrucMin in
  (forall rnd1 rnd2,
      structure_of (OnFile.createJournalStructure course_
                      (Some journalStrucMin) rnd1)
      = structure_of (OnFile.createJournalStructure course_
                        (Some journalStrucMin) rnd2))
  /\ (forall rnd,
        settled (OnFile.createJournalStructure course_
                   (Some journalStrucMin) rnd))
  /\ (forall i, i ∈ rawTests
                <-> exists s, s ∈ min_sets journalStrucMin /\ i ∈ min_tests s)
  /\ (forall rnd js rnd',
        OnFile.createJournalStructure course_ (Some journalStrucMin) rnd
        = Ret (js, rnd') ->
        rnd' = rnd
        /\ exists c,
             complete course_ = Some c
             /\ js_sets js
                = built_from (allSingleTests c) (allInfopages c)
                    (resumed (allSingleTests c) rawTests (testgroups c))
                    (sets c)
             /\ forall rawSet element,
                  rawSet ∈ sets c -> element ∈ elements rawSet ->
                  allSingleTests c !! element = None ->
                  exists group,
                    governing (testgroups c) element = Some group
                    /\ id <$> resumed (allSingleTests c) rawTests
                                (testgroups c) element
                       = filter (.∈ rawTests) (group_tests group)
                    /\ Forall (fun test => test ∈ tests c)
                              (resumed (allSingleTests c) rawTests
                                 (testgroups c) element))
  /\ (forall c,
        complete course_ = Some c -> resolvable c ->
        forall rnd,
          returns (OnFile.createJournalStructure course_
                     (Some journalStrucMin) rnd) = true).
Proof.
  intros rawTests.
  assert (forall rnd1 rnd2,
            structure_of (OnFile.createJournalStructure course_
                            (Some journalStrucMin) rnd1)
            = structure_of (OnFile.createJournalStructure course_
                              (Some journalStrucMin) rnd2)
            /\ settled (OnFile.createJournalStructure course_
                          (Some journalStrucMin) rnd1)) as Hdet.
  { intros rnd1 rnd2. destruct (complete course_) as [c|] eqn:Hc.
    - rewrite !(OnFile_complete _ c) by done.
      apply resume_build_draws_nothing.
    - destruct (OnFile_incomplete course_ Hc) as [H1 _]. by rewrite !H1. }
  split_and!.
  - intros rnd1 rnd2. apply Hdet.
  - intros rnd. apply (Hdet rnd rnd).
  - intros i. apply elem_of_structure_ids.
  - intros rnd js rnd' (c & Hc & Hrun)%OnFile_returns.
    apply resume_build_sound in Hrun as (Hrnd & Hsets & Hgroups).
    split; [done|]. by exists c.
  - intros c Hc Hres rnd. rewrite (OnFile_complete _ c) by done.
    by apply resume_build_returns.
Qed.

Lemma pooled_config_resolvable : resolvable pooled_config.
Proof.
  split.
  - intros group i ->%list_elem_of_singleton Hi. exact Hi.
  - intros rawSet element [->|[->|[]%elem_of_nil]%elem_of_cons]%elem_of_cons
      ->%list_elem_of_singleton.
    + right. by left.
    + left. cbn. set_solver.
Qed.

Lemma resume_build_is_determined_witness :
  (let js :=
     {| js_sets :=
          [ {| testset_id := 10;
               testset_elements :=
                 [TEST (colon_test 1); TEST (colon_test 2); TEST (colon_test 7)];
               scoreIndepentText := "done"; scoreDependentTexts := [] |};
            {| testset_id := 20;
               testset_elements := [TEST (colon_test 7)];
               scoreIndepentText := "done"; scoreDependentTexts := [] |} ] |} in
   let rawTests := journalStrucRawTests pooled_minimal in
   ([5; 6]%nat = [5; 6]%nat
    /\ exists c,
         complete (file_of pooled_config) = Some c
         /\ js_sets js
            = built_from (allSingleTests c) (allInfopages c)
                (resumed (allSingleTests c) rawTests (testgroups c)) (sets c)
         /\ forall rawSet element,
              rawSet ∈ sets c -> element ∈ elements rawSet ->
              allSingleTests c !! element = None ->
              exists group,
                governing (testgroups c) element = Some group
                /\ id <$> resumed (allSingleTests c) rawTests
                            (testgroups c) element
                   = filter (.∈ rawTests) (group_tests group)
                /\ Forall (fun test => test ∈ tests c)
                          (resumed (allSingleTests c) rawTests
                             (testgroups c) element)))
  /\ (forall rnd,
        returns (OnFile.createJournalStructure (file_of pooled_config)
                   (Some pooled_minimal) rnd) = true).
Proof.
  split.
  - apply (proj1 (proj2 (proj2 (proj2
             (resume_build_is_determined (file_of pooled_config)
                pooled_minimal))))
             [5; 6]%nat).
    vm_compute. reflexivity.
  - apply (proj2 (proj2 (proj2 (proj2
             (resume_build_is_determined (file_of pooled_config)
                pooled_minimal))))
             pooled_config).
    + vm_compute. reflexivity.
    + exact pooled_config_resolvable.
Defined.

(** C4, as stated, fails: the first visit of [pooled_config] with the
    draws 0, 1 shows the tests 1 and 2 of the group in set 10 and test 7
    in set 20, and this is what is saved; the build resumed from it
    shows the tests 1, 2 and 7 in set 10, since test 7 is recorded,
    though for set 20. *)
Lemma resume_build_is_determined_counterexample :
  OnFile.createJournalStructure (file_of pooled_config) None [0; 1]%nat
  = Ret (pooled_structure, [])
  /\ prepareJournalStructureForSaving "cs" "en" pooled_structure
     = pooled_minimal
  /\ OnFile.createJournalStructure (file_of pooled_config)
       (Some pooled_minimal) []
     = Ret ({| js_sets :=
                 [ {| testset_id := 10;
                      testset_elements :=
                        [ TEST (colon_test 1); TEST (colon_test 2);
                          TEST (colon_test 7) ];
                      scoreIndepentText := "done";
                      scoreDependentTexts := [] |};
                   {| testset_id := 20;
                      testset_elements := [TEST (colon_test 7)];
                      scoreIndepentText := "done";
                      scoreDependentTexts := [] |} ] |}, []).
Proof. split_and!; vm_compute; reflexivity. Qed.

(** C6, as stated, fails: the template "()" makes [lock] store the empty
    string as the validation code of the user; for [update] the result
    then carries no code, and the stored tests are replaced. *)
Lemma update_overwrites_after_empty_code :
  let db1 := updateOne codeless_db 4713 (set_validationCode "") in
  let db2 := updateOne db1 4713 (set_tests sample_results) in
  lock [] [] codeless_db 4713 = Ret (respond 200 (BCode ""), db1, [])
  /\ (fun u => validationCode (result u)) <$> users db1 = [Some ""]
  /\ stored_tests db1 = [stale_results]
  /\ update speed_factory [] db1 4713 = Ret (respond 200 BEmpty, db2)
  /\ stored_tests db2 = [sample_results].
Proof. repeat split; vm_compute; reflexivity. Qed.
